(** * Verification of the graph core of LLMNodeGraph

    Shallow embedding of [core/node.py], [core/graph.py], [core/command.py],
    [core/command_manager.py], [core/assembler.py],
    [core/provider_manager.py], [services/worker.py] and
    [services/llm_queue_manager.py].

    Modelling conventions:
    - Python [str] is [string] (ASCII); a [dict] keyed by strings is a
      [gmap string _].  Iteration over a dict is iteration over
      [map_to_list]; none of the results below depends on that order.
    - UI coordinates (Python floats) are [Z]; no property here depends on
      their arithmetic.
    - [uuid.uuid4()] draws from a supply [nat -> string] with a counter. *)

From stdpp Require Import gmap strings list fin_maps.
From Stdlib Require Import ZArith Ascii DecimalString DecimalNat.



(* ------------------------------------------------------------------ *)
(** ** core/node.py *)

Record NodeConfig := mkConfig {
  model : string;
  provider : string;
  max_tokens : Z;
  trace_depth : Z
}.

(** [Node.id] is called [node_id] and [Link.id] is called [link_id]: a
    projection named [id] would shadow the identity function. *)
Record Node := mkNode {
  node_id : string;
  config : NodeConfig;
  prompt : string;
  cached_output : string;
  is_dirty : bool;
  name : string;
  input_links : list string;
  pos_x : Z;
  pos_y : Z;
  width : Z;
  height : Z;
  prompt_height : Z;
  output_height : Z
}.

Record Link := mkLink {
  source_id : string;
  target_id : string;
  link_id : string
}.

(** Single-field assignments [node.f = v]. *)
Definition set_is_dirty (b : bool) (n : Node) : Node :=
  mkNode (node_id n) (config n) (prompt n) (cached_output n) b (name n)
    (input_links n) (pos_x n) (pos_y n) (width n) (height n)
    (prompt_height n) (output_height n).

Definition set_input_links (ls : list string) (n : Node) : Node :=
  mkNode (node_id n) (config n) (prompt n) (cached_output n) (is_dirty n)
    (name n) ls (pos_x n) (pos_y n) (width n) (height n)
    (prompt_height n) (output_height n).

Definition set_prompt (s : string) (n : Node) : Node :=
  mkNode (node_id n) (config n) s (cached_output n) (is_dirty n)
    (name n) (input_links n) (pos_x n) (pos_y n) (width n) (height n)
    (prompt_height n) (output_height n).

Definition set_cached_output (s : string) (n : Node) : Node :=
  mkNode (node_id n) (config n) (prompt n) s (is_dirty n)
    (name n) (input_links n) (pos_x n) (pos_y n) (width n) (height n)
    (prompt_height n) (output_height n).

Definition set_name (s : string) (n : Node) : Node :=
  mkNode (node_id n) (config n) (prompt n) (cached_output n) (is_dirty n)
    s (input_links n) (pos_x n) (pos_y n) (width n) (height n)
    (prompt_height n) (output_height n).

Definition set_pos (x y : Z) (n : Node) : Node :=
  mkNode (node_id n) (config n) (prompt n) (cached_output n) (is_dirty n)
    (name n) (input_links n) x y (width n) (height n)
    (prompt_height n) (output_height n).

Definition set_node_id (s : string) (n : Node) : Node :=
  mkNode s (config n) (prompt n) (cached_output n) (is_dirty n)
    (name n) (input_links n) (pos_x n) (pos_y n) (width n) (height n)
    (prompt_height n) (output_height n).

(* ------------------------------------------------------------------ *)
(** ** core/graph.py *)

Record Graph := mkGraph {
  nodes : gmap string Node;
  links : gmap string Link;
  global_token_limit : Z
}.

Definition set_nodes (ns : gmap string Node) (g : Graph) : Graph :=
  mkGraph ns (links g) (global_token_limit g).

Definition set_links (ls : gmap string Link) (g : Graph) : Graph :=
  mkGraph (nodes g) ls (global_token_limit g).

(** [Graph.add_node]: [self.nodes[node.id] = node]. *)
Definition add_node (g : Graph) (n : Node) : Graph :=
  set_nodes (<[node_id n := n]> (nodes g)) g.

(** [[l.target_id for l in self.links.values() if l.source_id == node_id]] *)
Definition children_of (g : Graph) (nid : string) : list string :=
  target_id <$> filter (fun l => source_id l = nid) (snd <$> map_to_list (links g)).

(** The loop [for child_id in children: self.mark_dirty(child_id)],
    given the recursive call [rec]. *)
Fixpoint mark_children (rec : Graph -> string -> option Graph)
    (g : Graph) (cs : list string) : option Graph :=
  match cs with
  | [] => Some g
  | c :: cs' =>
      match rec g c with
      | Some g' => mark_children rec g' cs'
      | None => None
      end
  end.

(** [Graph.mark_dirty], with the Python recursion depth made explicit as
    fuel.  [None] means the fuel ran out; [mark_dirty_terminates] shows
    that [S (size (nodes g))] never runs out. *)
Fixpoint mark_dirty_fuel (fuel : nat) (g : Graph) (nid : string) : option Graph :=
  match fuel with
  | O => None
  | S f =>
      match nodes g !! nid with
      | None => Some g
      | Some n =>
          if is_dirty n then Some g
          else
            let g1 := set_nodes (<[nid := set_is_dirty true n]> (nodes g)) g in
            mark_children (mark_dirty_fuel f) g1 (children_of g1 nid)
      end
  end.

Definition mark_dirty (g : Graph) (nid : string) : Graph :=
  match mark_dirty_fuel (S (size (nodes g))) g nid with
  | Some g' => g'
  | None => g
  end.

(** [Graph.is_name_unique]; [name] may be [None] in Python, and
    [not name] holds for [None] and for the empty string. *)
Definition is_name_unique (g : Graph) (nm : option string)
    (exclude_node_id : option string) : bool :=
  match nm with
  | None => true
  | Some "" => true
  | Some s =>
      forallb (fun n => if decide (Some (node_id n) = exclude_node_id) then true
                        else negb (bool_decide (name n = s)))
        (snd <$> map_to_list (nodes g))
  end.

(** Predicates on a graph state used by the statements below. *)
Definition clean (g : Graph) (x : string) : Prop :=
  exists n, nodes g !! x = Some n /\ is_dirty n = false.

Definition dirty_at (g : Graph) (x : string) : Prop :=
  exists n, nodes g !! x = Some n /\ is_dirty n = true.

(** Some link of [g] goes from [x] to [z]. *)
Definition link_from (g : Graph) (x z : string) : Prop :=
  exists k l, links g !! k = Some l /\ source_id l = x /\ target_id l = z.

(** [y] is reachable from [x] along outgoing links. *)
Inductive reachable (g : Graph) : string -> string -> Prop :=
| reach_refl x : reachable g x x
| reach_step x z y : link_from g x z -> reachable g z y -> reachable g x y.

(** [y] is reachable from [x] along a path of nodes of [g] every one of
    which, except possibly [y], is clean. *)
Inductive clean_path (g : Graph) : string -> string -> Prop :=
| cp_refl y : is_Some (nodes g !! y) -> clean_path g y y
| cp_step x z y : clean g x -> link_from g x z -> clean_path g z y -> clean_path g x y.

(** [g'] differs from [g] at most by dirty flags switched on. *)
Definition raised (g g' : Graph) : Prop :=
  links g' = links g /\ global_token_limit g' = global_token_limit g /\
  forall k, match nodes g !! k with
            | None => nodes g' !! k = None
            | Some n => nodes g' !! k = Some n \/
                        (is_dirty n = false /\ nodes g' !! k = Some (set_is_dirty true n))
            end.

(** The ids of the clean nodes. *)
Definition clean_set (g : Graph) : gset string :=
  dom (filter (fun kv : string * Node => is_dirty kv.2 = false) (nodes g)).

(* ------------------------------------------------------------------ *)
(** ** Concrete states used by witnesses and counterexamples *)

Definition default_config : NodeConfig := mkConfig "gpt-4o" "Default" 16000 2.

(** A node as [Node(id=i, is_dirty=d, input_links=ins)] with the other
    fields at their dataclass defaults. *)
Definition demo_node (i : string) (d : bool) (ins : list string) : Node :=
  mkNode i default_config "" "" d "" ins 0 0 300 450 100 160.

Definition demo_graph (ns : list Node) (ls : list Link) : Graph :=
  mkGraph (list_to_map ((fun n => (node_id n, n)) <$> ns))
          (list_to_map ((fun l => (link_id l, l)) <$> ls)) 16384.

(** A -> B -> C where B is already dirty and A, C are clean. *)
Definition chain_graph : Graph :=
  demo_graph [demo_node "A" false []; demo_node "B" true ["l1"]; demo_node "C" false ["l2"]]
             [mkLink "A" "B" "l1"; mkLink "B" "C" "l2"].

(* ------------------------------------------------------------------ *)
(** ** core/graph.py: Graph.get_input_nodes *)

Definition get_input_nodes (g : Graph) (nid : string) : list Node :=
  match nodes g !! nid with
  | None => []
  | Some n => omap (fun lid => l ← links g !! lid; nodes g !! source_id l) (input_links n)
  end.

(* ------------------------------------------------------------------ *)
(** ** core/assembler.py *)

Definition nl : string := String (ascii_of_nat 10) EmptyString.

(** [str(i)] for a Python [int]. *)
Definition str_of_Z (z : Z) : string := NilZero.string_of_int (Z.to_int z).

(** [\w] of Python's [re] on a [str] pattern: a Unicode word character
    ([str.isalnum()] or ['_']). An [ascii] character stands for the code
    point [0..255] it encodes (Latin-1), so a [string] is a Python [str]
    of such code points; the word characters there are the ASCII letters,
    digits and ['_'], the signs [ª ² ³ µ ¹ º ¼ ½ ¾] and the letters
    [À..ÿ] except [×] and [÷]. *)
Definition is_word_char (c : ascii) : bool :=
  let k := nat_of_ascii c in
  ((48 <=? k) && (k <=? 57)) || ((65 <=? k) && (k <=? 90)) ||
  ((97 <=? k) && (k <=? 122)) || (k =? 95) ||
  (k =? 170) || (k =? 178) || (k =? 179) || (k =? 181) || (k =? 185) || (k =? 186) ||
  ((188 <=? k) && (k <=? 190)) ||
  ((192 <=? k) && negb (k =? 215) && negb (k =? 247)).

Definition at_sign : ascii := ascii_of_nat 64.

(** [re.findall(r'@(\w+)', s)], scanning left to right: [cur] is [Some w]
    while inside a candidate match [@w]. *)
Fixpoint findall_refs_go (cur : option (list ascii)) (s : list ascii) : list string :=
  match s with
  | [] => match cur with Some (c0 :: w) => [String.string_of_list_ascii (c0 :: w)] | _ => [] end
  | c :: s' =>
      match cur with
      | Some w =>
          if is_word_char c then findall_refs_go (Some (w ++ [c])) s'
          else (match w with [] => [] | _ => [String.string_of_list_ascii w] end) ++
               findall_refs_go (if decide (c = at_sign) then Some [] else None) s'
      | None => findall_refs_go (if decide (c = at_sign) then Some [] else None) s'
      end
  end.

Definition findall_refs (s : string) : list string :=
  findall_refs_go None (String.list_ascii_of_string s).

(** [re.sub(r'@(\w+)', replace, s)] with [rep] applied to [match.group(1)]. *)
Fixpoint sub_refs_go (rep : string -> string) (cur : option (list ascii))
    (s : list ascii) : string :=
  match s with
  | [] => match cur with
          | None => ""
          | Some [] => String at_sign ""
          | Some w => rep (String.string_of_list_ascii w)
          end
  | c :: s' =>
      let rest := if decide (c = at_sign) then sub_refs_go rep (Some []) s'
                  else String c (sub_refs_go rep None s') in
      match cur with
      | Some w =>
          if is_word_char c then sub_refs_go rep (Some (w ++ [c])) s'
          else (match w with [] => String at_sign "" | _ => rep (String.string_of_list_ascii w) end)
               +:+ rest
      | None => rest
      end
  end.

(** [ref_map = {n.id: n.cached_output for n in input_nodes}]; the last
    entry for a key wins. *)
Definition ref_lookup (inputs : list Node) (key : string) : option string :=
  fold_left (fun acc n => if decide (node_id n = key) then Some (cached_output n) else acc)
    inputs None.

(** [ContextAssembler._inject_references] *)
Definition inject_references (g : Graph) (p : string) (n : Node) : string :=
  let inputs := get_input_nodes g (node_id n) in
  sub_refs_go (fun key => match ref_lookup inputs key with
                          | Some out => out
                          | None => String at_sign key
                          end)
    None (String.list_ascii_of_string p).

(** [ContextAssembler._gather_history]; [depth] is [Z.to_nat] of the
    Python [int], so [depth <= 0] is [O]. *)
Fixpoint gather_history (g : Graph) (n : Node) (depth : nat) : string :=
  match depth with
  | O => ""
  | S d =>
      match input_links n with
      | [] => ""
      | lid :: _ =>
          match links g !! lid with
          | None => ""
          | Some l =>
              match nodes g !! source_id l with
              | None => ""
              | Some parent =>
                  let parent_history := gather_history g parent d in
                  let parts := (if decide (parent_history = "") then [] else [parent_history]) ++
                               (if decide (cached_output parent = "") then []
                                else [cached_output parent]) in
                  String.concat nl parts
              end
          end
      end
  end.

(** The loop collecting [implicit_parts]; [None] is the [KeyError] raised
    by [self.graph.links[node.input_links[0]]]. *)
Fixpoint implicit_parts (g : Graph) (n : Node) (referenced_ids : list string)
    (inputs : list Node) : option (list string) :=
  match inputs with
  | [] => Some []
  | inp :: rest =>
      is_primary ← match input_links n with
                   | [] => Some false
                   | l0 :: _ => l ← links g !! l0; Some (bool_decide (node_id inp = source_id l))
                   end;
      if bool_decide (0 < trace_depth (config n))%Z && is_primary then
        implicit_parts g n referenced_ids rest
      else
        tl ← implicit_parts g n referenced_ids rest;
        if bool_decide (node_id inp ∉ referenced_ids) && negb (bool_decide (cached_output inp = ""))
        then Some (cached_output inp :: tl) else Some tl
  end.

(** [ContextAssembler._enforce_limit].  Token estimates are [len/4]
    floats; lengths are far below 2^50, so every float in the Python
    code is exact and the comparisons are those of the rationals, here
    multiplied by 4.  [int(total - limit)] truncates towards zero. *)
Definition enforce_limit (history p : string) (limit : Z) : string :=
  let lp := Z.of_nat (String.length p) in
  let lh := Z.of_nat (String.length history) in
  if bool_decide (lp + lh <= 4 * limit)%Z then
    (if decide (history = "") then p else history +:+ nl +:+ p)
  else if bool_decide (4 * limit - lp <= 0)%Z then p
  else
    let chars_to_keep := (4 * limit - lp)%Z in
    if bool_decide (chars_to_keep < lh)%Z then
      "[...Truncated by " +:+ str_of_Z (Z.quot (lp + lh - 4 * limit) 4)%Z +:+ " tokens...]"
        +:+ nl +:+ String.substring (Z.to_nat (lh - chars_to_keep)%Z) (Z.to_nat chars_to_keep) history
        +:+ nl +:+ p
    else history +:+ nl +:+ p.

(** The final prompt of [assemble]: the node's prompt with references
    injected. *)
Definition resolved_prompt (g : Graph) (n : Node) : string :=
  inject_references g (prompt n) n.

(** [ContextAssembler.assemble]; [None] when it raises [KeyError].  The
    unused [full_text] of the source is not modelled. *)
Definition assemble (g : Graph) (n : Node) : option string :=
  let history_text := gather_history g n (Z.to_nat (trace_depth (config n))) in
  let referenced_ids := findall_refs (prompt n) in
  let input_nodes := get_input_nodes g (node_id n) in
  parts ← implicit_parts g n referenced_ids input_nodes;
  let implicit_context := String.concat (nl +:+ nl) parts in
  let final_prompt := resolved_prompt g n in
  let context_block := history_text +:+
        (if decide (implicit_context = "") then "" else nl +:+ nl +:+ implicit_context) in
  Some (enforce_limit context_block final_prompt (max_tokens (config n))).


(** A node with the given id, cached output, prompt, trace depth,
    max_tokens and input links; other fields at their defaults. *)
Definition run_node (i out p : string) (td mt : Z) (ins : list string) : Node :=
  mkNode i (mkConfig "gpt-4o" "Default" mt td) p out false "" ins 0 0 300 450 100 160.

(** [S -> P] where [P]'s first input link id ["gone"] is no longer a link
    (as left by pasting a node whose original input link was deleted). *)
Definition stale_node : Node := run_node "P" "" "go" 2 16000 ["gone"; "l"].

Definition stale_graph : Graph :=
  demo_graph [run_node "S" "H" "" 2 16000 []; stale_node] [mkLink "S" "P" "l"].

(** [S -> P] with trace depth 1, so [S]'s output ["H"] is [P]'s history. *)
Definition hist_node : Node := run_node "P" "" "P" 1 16000 ["l"].

Definition hist_graph : Graph :=
  demo_graph [run_node "S" "H" "" 2 16000 []; hist_node] [mkLink "S" "P" "l"].

(** The same with trace depth 0: ["H"] becomes implicit context. *)
Definition impl_node : Node := run_node "P" "" "P" 0 16000 ["l"].

Definition impl_graph : Graph :=
  demo_graph [run_node "S" "H" "" 2 16000 []; impl_node] [mkLink "S" "P" "l"].

(* ------------------------------------------------------------------ *)
(** ** core/provider_manager.py and services/worker.py *)

(** [ProviderManager.resolve_effective_provider]; [default_provider] is
    the setting [settings.value("default_provider", "Ollama")].  An empty
    string stands for a falsy argument. *)
Definition resolve_effective_provider (default_provider : string)
    (config_provider config_model : string) : string :=
  let provider := if decide (config_provider = "") then "Default" else config_provider in
  if negb (bool_decide (provider = "Default")) then provider
  else if decide (config_model = "") then default_provider
  else if String.prefix "gpt" config_model || String.prefix "o1" config_model then "OpenAI"
  else if String.prefix "gemini" config_model then "Gemini"
  else if String.prefix "openrouter" config_model then "OpenRouter"
  else "Ollama".

(** The backend call made by [LLMWorker._async_run]. *)
Inductive Backend := call_openai | call_gemini | call_openrouter | call_ollama.

Definition backend_provider (b : Backend) : string :=
  match b with
  | call_openai => "OpenAI"
  | call_gemini => "Gemini"
  | call_openrouter => "OpenRouter"
  | call_ollama => "Ollama"
  end.

(** [LLMWorker._async_run] with [provider = config.get("provider")] and
    [model = config.get("model")]. *)
Definition worker_dispatch (provider model : string) : Backend :=
  if bool_decide (provider = "OpenAI") then call_openai
  else if bool_decide (provider = "Gemini") then call_gemini
  else if bool_decide (provider = "OpenRouter") then call_openrouter
  else if bool_decide (provider = "Ollama") then call_ollama
  else if String.prefix "gpt" model || String.prefix "o1" model then call_openai
  else if String.prefix "gemini" model then call_gemini
  else call_ollama.

(* ------------------------------------------------------------------ *)
(** ** services/llm_queue_manager.py *)

(** An insertion-ordered Python dict as an association list. *)
Fixpoint assoc_lookup {V} (k : string) (l : list (string * V)) : option V :=
  match l with
  | [] => None
  | (k', v) :: l' => if decide (k = k') then Some v else assoc_lookup k l'
  end.

(** [d[k] = v]: an existing key keeps its position, a new key goes last. *)
Fixpoint assoc_set {V} (k : string) (v : V) (l : list (string * V)) : list (string * V) :=
  match l with
  | [] => [(k, v)]
  | (k', v') :: l' => if decide (k = k') then (k, v) :: l' else (k', v') :: assoc_set k v l'
  end.

(** [del d[k]] *)
Fixpoint assoc_del {V} (k : string) (l : list (string * V)) : list (string * V) :=
  match l with
  | [] => []
  | (k', v') :: l' => if decide (k = k') then l' else (k', v') :: assoc_del k l'
  end.

(** A queued task [(node_id, prompt, config)]. *)
Definition Task : Type := (string * string * NodeConfig)%type.

Definition task_node (t : Task) : string := t.1.1.

(** The state of an [LLMWorker] object that the manager reads or writes. *)
Record Worker := mkWorker {
  w_node_id : string;
  w_prompt : string;
  w_config : NodeConfig;
  w_is_cancelled : bool
}.

Inductive Event :=
| task_started (nid : string)
| task_queued (nid : string).

(** [LLMQueueManager]: [queues] is the [defaultdict(deque)], the worker
    objects live in [workers] under an object number, which
    [active_workers] and [worker_map] refer to. *)
Record Scheduler := mkScheduler {
  queues : list (string * list Task);
  active_workers : list (string * nat);
  worker_map : gmap string nat;
  workers : gmap nat Worker;
  next_worker : nat;
  emitted : list Event
}.

Definition empty_scheduler : Scheduler := mkScheduler [] [] ∅ ∅ 0 [].

(** [self.queues[provider]] of the [defaultdict]: reading a missing key
    inserts an empty deque. *)
Definition get_queue (st : Scheduler) (p : string) : Scheduler * list Task :=
  match assoc_lookup p (queues st) with
  | Some q => (st, q)
  | None => (mkScheduler (queues st ++ [(p, [])]) (active_workers st) (worker_map st)
               (workers st) (next_worker st) (emitted st), [])
  end.

Definition set_queue (st : Scheduler) (p : string) (q : list Task) : Scheduler :=
  mkScheduler (assoc_set p q (queues st)) (active_workers st) (worker_map st)
    (workers st) (next_worker st) (emitted st).

Definition is_node_running_or_queued (st : Scheduler) (nid : string) : bool :=
  bool_decide (is_Some (worker_map st !! nid)) ||
  existsb (fun pq => existsb (fun t => bool_decide (task_node t = nid)) pq.2) (queues st).

(** [start_worker]: the new [LLMWorker] becomes [active_workers[provider]]
    and [worker_map[node_id]]; [task_started] is emitted. *)
Definition start_worker (st : Scheduler) (nid prompt : string) (cfg : NodeConfig)
    (p : string) : Scheduler :=
  let w := next_worker st in
  mkScheduler (queues st) (assoc_set p w (active_workers st)) (<[nid := w]> (worker_map st))
    (<[w := mkWorker nid prompt cfg false]> (workers st)) (S w)
    (emitted st ++ [task_started nid]).

Definition submit_task (st : Scheduler) (nid prompt : string) (cfg : NodeConfig) : Scheduler :=
  let p := provider cfg in
  if is_node_running_or_queued st nid then st
  else match assoc_lookup p (active_workers st) with
       | None => start_worker st nid prompt cfg p
       | Some _ =>
           let '(st1, q) := get_queue st p in
           let st2 := set_queue st1 p (q ++ [(nid, prompt, cfg)]) in
           mkScheduler (queues st2) (active_workers st2) (worker_map st2) (workers st2)
             (next_worker st2) (emitted st2 ++ [task_queued nid])
       end.

Definition process_next_in_queue (st : Scheduler) (p : string) : Scheduler :=
  let '(st1, q) := get_queue st p in
  match q with
  | [] => st1
  | (nid, prompt, cfg) :: rest => start_worker (set_queue st1 p rest) nid prompt cfg p
  end.

(** [worker.cancel()] sets [is_cancelled]. *)
Definition cancel_worker (st : Scheduler) (w : nat) : Scheduler :=
  mkScheduler (queues st) (active_workers st) (worker_map st)
    (alter (fun wk => mkWorker (w_node_id wk) (w_prompt wk) (w_config wk) true) w (workers st))
    (next_worker st) (emitted st).

(** The first [(provider, worker)] of [active_workers] whose worker runs [nid]. *)
Fixpoint find_active (st : Scheduler) (nid : string) (l : list (string * nat)) :
    option (string * nat) :=
  match l with
  | [] => None
  | (p, w) :: l' =>
      match workers st !! w with
      | Some wk => if decide (w_node_id wk = nid) then Some (p, w) else find_active st nid l'
      | None => find_active st nid l'
      end
  end.

(** The loop over [self.queues.items()]: delete the first queued task of
    [nid] from the first queue holding one. *)
Fixpoint remove_queued (nid : string) (qs : list (string * list Task)) :
    list (string * list Task) :=
  match qs with
  | [] => []
  | (p, q) :: qs' =>
      match list_find (fun t => task_node t = nid) q with
      | Some (i, _) => (p, delete i q) :: qs'
      | None => (p, q) :: remove_queued nid qs'
      end
  end.

Definition cancel_task (st : Scheduler) (nid : string) : Scheduler :=
  match find_active st nid (active_workers st) with
  | Some (p, w) =>
      let st1 := cancel_worker st w in
      let st2 := mkScheduler (queues st1) (assoc_del p (active_workers st1))
                   (delete nid (worker_map st1)) (workers st1) (next_worker st1) (emitted st1) in
      process_next_in_queue st2 p
  | None =>
      mkScheduler (remove_queued nid (queues st)) (active_workers st) (worker_map st)
        (workers st) (next_worker st) (emitted st)
  end.

(** [shutdown]: clear the queues, then cancel (and join) every active
    worker. *)
Definition shutdown (st : Scheduler) : Scheduler :=
  let st1 := mkScheduler [] (active_workers st) (worker_map st) (workers st)
               (next_worker st) (emitted st) in
  foldl (fun acc pw => cancel_worker acc pw.2) st1 (active_workers st).

(** A node configuration on the local provider. *)
Definition ollama_config : NodeConfig := mkConfig "llama3" "Ollama" 16000 2.

(* ------------------------------------------------------------------ *)
(** ** Serialized data and [Graph.merge_graph] *)

(** A serialized node or link as a JSON object: each key that
    [from_dict] reads with [.get] is an [option] ([None]: key absent).
    Pairs stand for the two-element lists ["pos"], ["size"] and
    ["text_heights"]. *)
Record ConfigData := mkConfigData {
  cd_model : option string;
  cd_provider : option string;
  cd_max_tokens : option Z;
  cd_trace_depth : option Z
}.

Record NodeData := mkNodeData {
  nd_id : option string;
  nd_pos : option (Z * Z);
  nd_size : option (Z * Z);
  nd_text_heights : option (Z * Z);
  nd_config : option ConfigData;
  nd_prompt : option string;
  nd_cached_output : option string;
  nd_is_dirty : option bool;
  nd_name : option string;
  nd_inputs : option (list string)
}.

Record LinkData := mkLinkData {
  ld_id : option string;
  ld_source : option string;
  ld_target : option string
}.

Record GraphData := mkGraphData {
  gd_global_token_limit : option Z;
  gd_nodes : option (list NodeData);
  gd_links : option (list LinkData)
}.

(** [Node.to_dict] *)
Definition node_to_dict (n : Node) : NodeData :=
  mkNodeData (Some (node_id n)) (Some (pos_x n, pos_y n)) (Some (width n, height n))
    (Some (prompt_height n, output_height n))
    (Some (mkConfigData (Some (model (config n))) (Some (provider (config n)))
             (Some (max_tokens (config n))) (Some (trace_depth (config n)))))
    (Some (prompt n)) (Some (cached_output n)) (Some (is_dirty n)) (Some (name n))
    (Some (input_links n)).

(** [Graph.to_dict] *)
Definition graph_to_dict (g : Graph) : GraphData :=
  mkGraphData (Some (global_token_limit g))
    (Some (node_to_dict <$> (snd <$> map_to_list (nodes g))))
    (Some ((fun l => mkLinkData (Some (link_id l)) (Some (source_id l)) (Some (target_id l)))
             <$> (snd <$> map_to_list (links g)))).

(** [Node.from_dict]: the default of [data.get("id", str(uuid.uuid4()))]
    is evaluated before the call, so one uuid is drawn in every case. *)
Definition node_from_dict (uuid : nat -> string) (k : nat) (d : NodeData) : Node * nat :=
  let '(w, h) := default (300, 450)%Z (nd_size d) in
  let '(ph, oh) := default (100, 160)%Z (nd_text_heights d) in
  let '(x, y) := default (0, 0)%Z (nd_pos d) in
  let conf := default (mkConfigData None None None None) (nd_config d) in
  (mkNode (default (uuid k) (nd_id d))
     (mkConfig (default "gpt-4o" (cd_model conf)) (default "Default" (cd_provider conf))
        (default 16000%Z (cd_max_tokens conf)) (default 2%Z (cd_trace_depth conf)))
     (default "" (nd_prompt d)) (default "" (nd_cached_output d))
     (default false (nd_is_dirty d)) (default "" (nd_name d)) (default [] (nd_inputs d))
     x y w h ph oh, S k).

(** [Graph.add_link]: the new [Link] draws its id from the uuid supply;
    the id is appended to the target's [input_links] when the target
    exists, and [mark_dirty] runs only when [trigger_dirty] is set. *)
Definition add_link (uuid : nat -> string) (k : nat) (g : Graph) (source target : string)
    (trigger_dirty : bool) : Graph * nat :=
  let lid := uuid k in
  let g1 := set_links (<[lid := mkLink source target lid]> (links g)) g in
  match nodes g1 !! target with
  | Some n =>
      let g2 := set_nodes (<[target := set_input_links (input_links n ++ [lid]) n]>
                             (nodes g1)) g1 in
      ((if trigger_dirty then mark_dirty g2 target else g2), S k)
  | None => (g1, S k)
  end.

(** Name helpers of [merge_graph]. *)
Definition str_of_nat (i : nat) : string := NilZero.string_of_uint (Nat.to_uint i).

Fixpoint zeros (k : nat) : string :=
  match k with O => EmptyString | S k' => String (ascii_of_nat 48) (zeros k') end.

(** [f"{idx:04d}"] *)
Definition pad4 (i : nat) : string :=
  zeros (4 - String.length (str_of_nat i)) +:+ str_of_nat i.

Definition is_digit (c : ascii) : bool :=
  (48 <=? nat_of_ascii c) && (nat_of_ascii c <=? 57).

Definition digit_val (c : ascii) : nat := nat_of_ascii c - 48.

(** [_] followed by four digits at the head of a reversed string. *)
Definition four_digits_rev (r : list ascii) : option nat :=
  match r with
  | d4 :: d3 :: d2 :: d1 :: u :: _ =>
      if bool_decide (u = ascii_of_nat 95) && forallb is_digit [d1; d2; d3; d4]
      then Some (1000 * digit_val d1 + 100 * digit_val d2 + 10 * digit_val d3 + digit_val d4)
      else None
  | _ => None
  end.

(** [int(m.group(1))] for [m = re.search(r'_(\d{4})$', s)]: [$] matches
    at the end and before a final newline. *)
Definition suffix_index (s : string) : option nat :=
  let r := rev (String.list_ascii_of_string s) in
  match four_digits_rev r with
  | Some i => Some i
  | None =>
      match r with
      | c :: r' => if decide (c = ascii_of_nat 10) then four_digits_rev r' else None
      | [] => None
      end
  end.

(** The [while True] loop over [f"{prefix}_{idx:04d}"]; it runs at most
    one round more than there are nodes (lemma [name_search_total]). *)
Fixpoint name_search (g : Graph) (prefix : string) (fuel idx : nat) : option string :=
  match fuel with
  | O => None
  | S f =>
      let test_name := prefix +:+ "_" +:+ pad4 (S idx) in
      if is_name_unique g (Some test_name) None then Some test_name
      else name_search g prefix f (S idx)
  end.

(** The name collision handling of [merge_graph] for a node named [nm]. *)
Definition resolve_name (g : Graph) (filename nm : string) : string :=
  if bool_decide (nm <> "") && negb (is_name_unique g (Some nm) None) then
    let suggested_name := nm +:+ "_" +:+ filename in
    if (32 <? String.length suggested_name)%nat
       || negb (is_name_unique g (Some suggested_name) None) then
      let '(prefix, idx) :=
        match suffix_index nm with
        | Some i => (String.substring 0 (String.length nm - 5) nm, i)
        | None => (String.substring 0 27 nm, 0%nat)
        end in
      default nm (name_search g prefix (S (size (nodes g))) idx)
    else suggested_name
  else nm.

(** The positioning offset of [merge_graph]: left-align with the current
    nodes and place the incoming ones 50 units below them. *)
Definition data_pos (d : NodeData) : Z * Z := default (0, 0)%Z (nd_pos d).

Definition merge_offset (g : Graph) (data : GraphData) : Z * Z :=
  match snd <$> map_to_list (nodes g) with
  | [] => (0, 0)%Z
  | n0 :: cur =>
      let current_min_x := foldr (fun n m => Z.min (pos_x n) m) (pos_x n0) cur in
      let current_max_y :=
        foldr (fun n m => Z.max (pos_y n + height n)%Z m) (pos_y n0 + height n0)%Z cur in
      match default [] (gd_nodes data) with
      | [] => (0, 0)%Z
      | d0 :: inc =>
          let incoming_min_x := foldr (fun d m => Z.min (data_pos d).1 m) (data_pos d0).1 inc in
          let incoming_min_y := foldr (fun d m => Z.min (data_pos d).2 m) (data_pos d0).2 inc in
          (current_min_x - incoming_min_x, current_max_y + 50 - incoming_min_y)%Z
      end
  end.

(** Step 1 of [merge_graph], one node: parse, shift, remap the id on a
    collision with the current graph, resolve the name. [id_map] is keyed
    by [node_data.get("id")], which may be [None]. *)
Definition merge_one (g : Graph) (filename : string) (uuid : nat -> string)
    (off : Z * Z) (d : NodeData) (k : nat) (id_map : gmap (option string) string) :
    Node * gmap (option string) string * nat :=
  let '(n, k1) := node_from_dict uuid k d in
  let n1 := set_pos (pos_x n + off.1)%Z (pos_y n + off.2)%Z n in
  let '(n2, id_map', k2) :=
    if bool_decide (is_Some (nodes g !! node_id n1))
    then (set_node_id (uuid k1) n1, <[nd_id d := uuid k1]> id_map, S k1)
    else (n1, <[nd_id d := node_id n1]> id_map, k1) in
  (set_name (resolve_name g filename (name n2)) n2, id_map', k2).

Fixpoint merge_nodes (g : Graph) (filename : string) (uuid : nat -> string)
    (off : Z * Z) (ds : list NodeData) (k : nat) (id_map : gmap (option string) string) :
    list Node * gmap (option string) string * nat :=
  match ds with
  | [] => ([], id_map, k)
  | d :: ds' =>
      let '(n, id_map1, k1) := merge_one g filename uuid off d k id_map in
      let '(rest, id_map2, k2) := merge_nodes g filename uuid off ds' k1 id_map1 in
      (n :: rest, id_map2, k2)
  end.

(** Step 2: [node.input_links = []] and [self.add_node(node)]. *)
Definition add_new_nodes (g : Graph) (ns : list Node) : Graph :=
  foldl (fun acc n => add_node acc (set_input_links [] n)) g ns.

(** [x and y] on two strings that may be [None]: both present and non-empty. *)
Definition both_truthy (a b : option string) : option (string * string) :=
  match a, b with
  | Some s, Some t => if bool_decide (s <> "" /\ t <> "") then Some (s, t) else None
  | _, _ => None
  end.

(** Step 3: remap and add the links with [trigger_dirty=False]. *)
Fixpoint merge_links (uuid : nat -> string) (id_map : gmap (option string) string)
    (ls : list LinkData) (g : Graph) (k : nat) : Graph * nat :=
  match ls with
  | [] => (g, k)
  | l :: ls' =>
      match both_truthy (id_map !! ld_source l) (id_map !! ld_target l) with
      | Some (s, t) =>
          let '(g1, k1) := add_link uuid k g s t false in
          merge_links uuid id_map ls' g1 k1
      | None => merge_links uuid id_map ls' g k
      end
  end.

(** [Graph.merge_graph]; the counter [k] is the position in the uuid
    supply. *)
Definition merge_graph (g : Graph) (data : GraphData) (filename : string)
    (uuid : nat -> string) (k : nat) : Graph * nat :=
  let off := merge_offset g data in
  let '(new_nodes, id_map, k1) :=
    merge_nodes g filename uuid off (default [] (gd_nodes data)) k ∅ in
  merge_links uuid id_map (default [] (gd_links data)) (add_new_nodes g new_nodes) k1.

(** The outcome of step 1 of [merge_graph] on the serialization of nodes
    that all collide with the graph: the [j]-th node is drawn the uuids
    [k + 2j] (unused default of [from_dict]) and [k + 2j + 1] (its new
    id). *)
Definition merged_copy (g : Graph) (filename : string) (uuid : nat -> string)
    (off : Z * Z) (n : Node) (j : nat) : Node :=
  let n2 := set_node_id (uuid j) (set_pos (pos_x n + off.1)%Z (pos_y n + off.2)%Z n) in
  set_name (resolve_name g filename (name n2)) n2.

Fixpoint merged_copies (g : Graph) (filename : string) (uuid : nat -> string)
    (off : Z * Z) (ns : list Node) (k : nat) : list Node :=
  match ns with
  | [] => []
  | n :: ns' => merged_copy g filename uuid off n (S k) :: merged_copies g filename uuid off ns' (S (S k))
  end.

Fixpoint merged_id_map (uuid : nat -> string) (ns : list Node) (k : nat)
    (id_map : gmap (option string) string) : gmap (option string) string :=
  match ns with
  | [] => id_map
  | n :: ns' => merged_id_map uuid ns' (S (S k)) (<[Some (node_id n) := uuid (S k)]> id_map)
  end.

Fixpoint new_ids (uuid : nat -> string) (len k : nat) : list string :=
  match len with
  | O => []
  | S l => uuid (S k) :: new_ids uuid l (S (S k))
  end.

(** A uuid supply for concrete runs: ["u0"], ["u1"], ... *)
Definition demo_uuid (i : nat) : string := "u" +:+ str_of_nat i.

(* ------------------------------------------------------------------ *)
(** ** core/graph.py: Graph.remove_link and Graph.remove_node *)

(** [list.remove(x)] on a list that contains [x] drops its first
    occurrence (the callers below only call it when [x] is present). *)
Fixpoint list_remove (x : string) (l : list string) : list string :=
  match l with
  | [] => []
  | y :: l' => if decide (x = y) then l' else y :: list_remove x l'
  end.

(** [Graph.remove_link]. *)
Definition remove_link (g : Graph) (lid : string) : Graph :=
  match links g !! lid with
  | None => g
  | Some l =>
      let g1 := set_links (delete lid (links g)) g in
      match nodes g1 !! target_id l with
      | None => g1
      | Some t =>
          let g2 := if bool_decide (lid ∈ input_links t)
                    then set_nodes (<[target_id l := set_input_links (list_remove lid (input_links t)) t]>
                                      (nodes g1)) g1
                    else g1 in
          mark_dirty g2 (target_id l)
      end
  end.

(** [links_to_remove] of [Graph.remove_node]. *)
Definition links_touching (g : Graph) (nid : string) : list string :=
  fst <$> filter (fun kl : string * Link => source_id kl.2 = nid \/ target_id kl.2 = nid)
                 (map_to_list (links g)).

(** [Graph.remove_node].  The second component is the node object that
    was stored under [nid], in the state it keeps after the call: once
    deleted from [self.nodes], no [remove_link] or [mark_dirty] of the
    call reaches it. *)
Definition remove_node (g : Graph) (nid : string) : Graph * option Node :=
  let g1 := set_nodes (delete nid (nodes g)) g in
  (foldl remove_link g1 (links_touching g1 nid), nodes g !! nid).

(* ------------------------------------------------------------------ *)
(** ** core/command.py *)

(** [self.graph.links[link.id] = link], then [link.id] is appended to the
    target's [input_links] when the target is a node and the id is not
    there yet (the link loop of [DeleteNodesCommand.undo]). *)
Definition attach_link (g : Graph) (l : Link) : Graph :=
  let g1 := set_links (<[link_id l := l]> (links g)) g in
  match nodes g1 !! target_id l with
  | None => g1
  | Some t =>
      if bool_decide (link_id l ∈ input_links t) then g1
      else set_nodes (<[target_id l := set_input_links (input_links t ++ [link_id l]) t]>
                        (nodes g1)) g1
  end.

(** The same, followed by [self.graph.mark_dirty(link.target_id)] inside
    the [if] ([AddLinkCommand.execute], [DeleteLinkCommand.undo] and the
    link loop of [PasteNodesAndLinksCommand.execute]). *)
Definition attach_link_marking (g : Graph) (l : Link) : Graph :=
  let g1 := attach_link g l in
  match nodes g1 !! target_id l with
  | None => g1
  | Some _ => mark_dirty g1 (target_id l)
  end.

(** [if node_id in self.graph.nodes: self.graph.nodes[node_id].f = v] *)
Definition update_node (g : Graph) (nid : string) (f : Node -> Node) : Graph :=
  set_nodes (alter f nid (nodes g)) g.

(** [EditPromptCommand.execute] and [.undo] with the text [txt]. *)
Definition edit_prompt (g : Graph) (nid txt : string) : Graph :=
  match nodes g !! nid with
  | None => g
  | Some _ => mark_dirty (update_node g nid (set_prompt txt)) nid
  end.

(** The loops of [MoveNodesCommand]: [new] selects the new position
    ([execute]) or the old one ([undo]). *)
Definition move_nodes (g : Graph) (md : list (string * Z * Z * Z * Z)) (new : bool) : Graph :=
  foldl (fun h '(nid, ox, oy, nx, ny) =>
           update_node h nid (if new then set_pos nx ny else set_pos ox oy)) g md.

(** [for node in self.nodes: self.graph.remove_node(node.id)]; the list
    returned holds the node objects in their state after the loop (the
    graph's own objects, which the commands hold: see [cmd_pre]). *)
Fixpoint remove_nodes (g : Graph) (ns : list Node) : Graph * list Node :=
  match ns with
  | [] => (g, [])
  | n :: ns' =>
      let '(g1, v) := remove_node g (node_id n) in
      let '(g2, vs) := remove_nodes g1 ns' in
      (g2, default n v :: vs)
  end.

(** The commands, with the state of the objects they hold. *)
Inductive Command :=
| AddNodeCommand (node : Node)
| DeleteNodesCommand (ns : list Node) (ls : list Link)
| MoveNodesCommand (move_data : list (string * Z * Z * Z * Z))
| AddLinkCommand (link : Link)
| DeleteLinkCommand (link : Link)
| EditPromptCommand (nid old_text new_text : string)
| EditOutputCommand (nid old_text new_text : string)
| RenameNodeCommand (nid old_name new_name : string)
| PasteNodesAndLinksCommand (ns : list Node) (ls : list Link).

(** [command.execute()]: the new graph and the command with the new state
    of its objects. *)
Definition cmd_execute (g : Graph) (c : Command) : Graph * Command :=
  match c with
  | AddNodeCommand n => (add_node g n, c)
  | DeleteNodesCommand ns ls =>
      let '(g1, ns1) := remove_nodes g ns in (g1, DeleteNodesCommand ns1 ls)
  | MoveNodesCommand md => (move_nodes g md true, c)
  | AddLinkCommand l => (attach_link_marking g l, c)
  | DeleteLinkCommand l => (remove_link g (link_id l), c)
  | EditPromptCommand nid _ t => (edit_prompt g nid t, c)
  | EditOutputCommand nid _ t => (update_node g nid (set_cached_output t), c)
  | RenameNodeCommand nid _ t => (update_node g nid (set_name t), c)
  | PasteNodesAndLinksCommand ns ls => (foldl attach_link_marking (foldl add_node g ns) ls, c)
  end.

(** [command.undo()]. *)
Definition cmd_undo (g : Graph) (c : Command) : Graph * Command :=
  match c with
  | AddNodeCommand n =>
      let '(g1, v) := remove_node g (node_id n) in (g1, AddNodeCommand (default n v))
  | DeleteNodesCommand ns ls => (foldl attach_link (foldl add_node g ns) ls, c)
  | MoveNodesCommand md => (move_nodes g md false, c)
  | AddLinkCommand l => (remove_link g (link_id l), c)
  | DeleteLinkCommand l => (attach_link_marking g l, c)
  | EditPromptCommand nid t _ => (edit_prompt g nid t, c)
  | EditOutputCommand nid t _ => (update_node g nid (set_cached_output t), c)
  | RenameNodeCommand nid t _ => (update_node g nid (set_name t), c)
  | PasteNodesAndLinksCommand ns ls =>
      let '(g1, ns1) := remove_nodes g ns in (g1, PasteNodesAndLinksCommand ns1 ls)
  end.

(* ------------------------------------------------------------------ *)
(** ** core/command_manager.py *)

Record CommandManager := mkCommandManager {
  undo_stack : list Command;
  redo_stack : list Command;
  max_stack_size : Z
}.

(** [list.pop()]: the last element and the list without it. *)
Definition pop_last {A} (l : list A) : option (list A * A) :=
  match rev l with
  | [] => None
  | x :: r => Some (rev r, x)
  end.

Definition cm_execute (g : Graph) (cm : CommandManager) (c : Command) : Graph * CommandManager :=
  let '(g1, c1) := cmd_execute g c in
  let us := undo_stack cm ++ [c1] in
  let us' := if bool_decide (max_stack_size cm < Z.of_nat (length us))%Z then tail us else us in
  (g1, mkCommandManager us' [] (max_stack_size cm)).

(** [CommandManager.undo]; the boolean is the returned value. *)
Definition cm_undo (g : Graph) (cm : CommandManager) : Graph * CommandManager * bool :=
  match pop_last (undo_stack cm) with
  | None => (g, cm, false)
  | Some (us, c) =>
      let '(g1, c1) := cmd_undo g c in
      (g1, mkCommandManager us (redo_stack cm ++ [c1]) (max_stack_size cm), true)
  end.

Definition cm_redo (g : Graph) (cm : CommandManager) : Graph * CommandManager * bool :=
  match pop_last (redo_stack cm) with
  | None => (g, cm, false)
  | Some (rs, c) =>
      let '(g1, c1) := cmd_execute g c in
      (g1, mkCommandManager (undo_stack cm ++ [c1]) rs (max_stack_size cm), true)
  end.

(** A node with its dirty flag cleared and no input links: the fields that
    undo is expected to restore exactly. *)
Definition strip (n : Node) : Node := set_input_links [] (set_is_dirty false n).

(** The state [g'] reached by undo from [g]: same links, same node ids and
    same node fields except [input_links] (restored up to order) and
    [is_dirty] (never switched off). *)
Definition undo_close (g g' : Graph) : Prop :=
  links g' = links g /\ global_token_limit g' = global_token_limit g /\
  strip <$> nodes g' = strip <$> nodes g /\
  (forall k n n', nodes g !! k = Some n -> nodes g' !! k = Some n' ->
     input_links n' ≡ₚ input_links n /\ (is_dirty n = true -> is_dirty n' = true)).

(** The state [g'] reached by redo equals the post-execute state [g] up
    to the order of each node's [input_links]. *)
Definition redo_close (g g' : Graph) : Prop :=
  links g' = links g /\ global_token_limit g' = global_token_limit g /\
  set_input_links [] <$> nodes g' = set_input_links [] <$> nodes g /\
  (forall k n n', nodes g !! k = Some n -> nodes g' !! k = Some n' ->
     input_links n' ≡ₚ input_links n).

(** The states the application reaches: node and link ids match their
    keys, input lists have no repeated id, and every link joins two nodes
    and is listed in its target's [input_links]. *)
Definition graph_wf (g : Graph) : Prop :=
  (forall k n, nodes g !! k = Some n -> node_id n = k /\ NoDup (input_links n)) /\
  (forall k l, links g !! k = Some l ->
     link_id l = k /\ is_Some (nodes g !! source_id l) /\
     exists t, nodes g !! target_id l = Some t /\ k ∈ input_links t).

(** A link touches one of the ids [ids]. *)
Definition touches (ids : list string) (l : Link) : Prop :=
  source_id l ∈ ids \/ target_id l ∈ ids.

(** The commands as the editor builds them from the graph [g]: a deleted
    node is the graph's own object and the links are all the links that
    touch the deleted nodes; a move, edit or rename records the current
    value as the old one; a new link or pasted node or link carries a
    fresh id, and pasted links join pasted nodes. *)
Definition cmd_pre (g : Graph) (c : Command) : Prop :=
  match c with
  | AddNodeCommand n => nodes g !! node_id n = None
  | DeleteNodesCommand ns ls =>
      NoDup (node_id <$> ns) /\
      (forall n, n ∈ ns -> nodes g !! node_id n = Some n) /\
      NoDup (link_id <$> ls) /\
      (forall l, l ∈ ls <-> links g !! link_id l = Some l /\ touches (node_id <$> ns) l)
  | MoveNodesCommand md =>
      forall nid ox oy nx ny n, (nid, ox, oy, nx, ny) ∈ md -> nodes g !! nid = Some n ->
        pos_x n = ox /\ pos_y n = oy
  | AddLinkCommand l =>
      links g !! link_id l = None /\
      (forall t, nodes g !! target_id l = Some t -> link_id l ∉ input_links t)
  | DeleteLinkCommand l => links g !! link_id l = Some l
  | EditPromptCommand nid old _ => forall n, nodes g !! nid = Some n -> prompt n = old
  | EditOutputCommand nid old _ => forall n, nodes g !! nid = Some n -> cached_output n = old
  | RenameNodeCommand nid old _ => forall n, nodes g !! nid = Some n -> name n = old
  | PasteNodesAndLinksCommand ns ls =>
      NoDup (node_id <$> ns) /\
      (forall n, n ∈ ns -> nodes g !! node_id n = None /\ NoDup (input_links n)) /\
      NoDup (link_id <$> ls) /\
      (forall l, l ∈ ls -> links g !! link_id l = None /\
         source_id l ∈ node_id <$> ns /\ target_id l ∈ node_id <$> ns /\
         forall n, n ∈ ns -> link_id l ∉ input_links n)
  end.

(* ------------------------------------------------------------------ *)
(** ** Notions used by the proofs about commands *)

Definition opt_rel {A B} (P : A -> B -> Prop) (x : option A) (y : option B) : Prop :=
  match x, y with
  | Some a, Some b => P a b
  | None, None => True
  | _, _ => False
  end.

(** The effect of [remove_link lid] on the input list [L] of the node
    [k], given the link map [ls] before the call. *)
Definition drop_link (ls : gmap string Link) (k : string) (L : list string) (lid : string) :
    list string :=
  match ls !! lid with
  | Some l => if decide (target_id l = k) then list_remove lid L else L
  | None => L
  end.

(** The effect of [attach_link l] on an input list. *)
Definition add_missing (x : string) (L : list string) : list string :=
  if bool_decide (x ∈ L) then L else L ++ [x].

(** The effect of attaching the links [ls] in turn on the input list [L]
    of the node [k]. *)
Definition attach_ids (k : string) (L : list string) (ls : list Link) : list string :=
  foldl (fun L l => if decide (target_id l = k) then add_missing (link_id l) L else L) L ls.

(** A dirty flag that stays the same ([exact]) or may be switched on. *)
Definition flag_step (exact : bool) (a b : bool) : Prop :=
  if exact then b = a else a = true -> b = true.

(** Node-by-node comparison: [g'] has the nodes of [g], with the same
    fields except the input lists, computed by [f], and the dirty flags,
    related by [flag_step exact]. *)
Definition nodes_track (exact : bool) (f : string -> list string -> list string)
    (g g' : Graph) : Prop :=
  forall k, opt_rel (fun m m' => strip m' = strip m /\ flag_step exact (is_dirty m) (is_dirty m') /\
                                 input_links m' = f k (input_links m))
                    (nodes g !! k) (nodes g' !! k).

(** The effect of [move_nodes] on the node stored under [k], one entry
    of the move data at a time. *)
Definition move_step (new : bool) (k : string) (n : Node) (e : string * Z * Z * Z * Z) : Node :=
  let '(nid, ox, oy, nx, ny) := e in
  if decide (nid = k) then (if new then set_pos nx ny else set_pos ox oy) n else n.

#[global] Instance touches_dec (ids : list string) (l : Link) : Decision (touches ids l).
Proof. unfold touches. apply _. Defined.

(** [y] is the id of a link of [g] into [k] that touches [ids]. *)
Definition cut (g : Graph) (ids : list string) (k y : string) : Prop :=
  exists l, links g !! y = Some l /\ target_id l = k /\ touches ids l.

(** Removing the nodes [ids] in order, the link from [s] to [t] is removed
    while [t] is still a node exactly when [s] comes before [t]. *)
Fixpoint src_first (ids : list string) (s t : string) : bool :=
  match ids with
  | [] => false
  | x :: ids' => if decide (x = t) then false else if decide (x = s) then true else src_first ids' s t
  end.

(** A node [m] of [g] that survives [remove_nodes] on [ids] as [m']. *)
Definition survives (g : Graph) (ids : list string) (k : string) (m m' : Node) : Prop :=
  strip m' = strip m /\ (is_dirty m = true -> is_dirty m' = true) /\
  (NoDup (input_links m) -> NoDup (input_links m') /\
     forall y, y ∈ input_links m' <-> y ∈ input_links m /\ ~ cut g ids k y).

(** The object [v] kept by [remove_nodes] on [ids] for the node [n]. *)
Definition snapshot_ok (g : Graph) (ids : list string) (n v : Node) : Prop :=
  match nodes g !! node_id n with
  | None => v = n
  | Some m =>
      strip v = strip m /\ (is_dirty m = true -> is_dirty v = true) /\
      (NoDup (input_links m) -> NoDup (input_links v) /\
         (forall y, y ∈ input_links v -> y ∈ input_links m) /\
         (forall y, y ∈ input_links m -> ~ cut g ids (node_id n) y -> y ∈ input_links v))
  end.

(* ------------------------------------------------------------------ *)
(** ** core/command_manager.py: the remaining methods *)


Definition can_redo (cm : CommandManager) : bool :=
  bool_decide (0 < length (redo_stack cm))%nat.

(** The loop [while len(self.undo_stack) > self.max_stack_size:
    self.undo_stack.pop(0)]; the boolean tells whether [pop(0)] raised
    [IndexError] on the empty list (the stack is then left empty).  Each
    round removes a command, so [S (length us)] rounds reach the end of
    the loop. *)
Fixpoint trim_undo (fuel : nat) (size : Z) (us : list Command) : list Command * bool :=
  match fuel with
  | O => (us, false)
  | S f =>
      if bool_decide (size < Z.of_nat (length us))%Z then
        match us with
        | [] => ([], true)
        | _ :: us' => trim_undo f size us'
        end
      else (us, false)
  end.

(** [CommandManager.set_max_stack_size]: [self.max_stack_size = size] runs
    before the loop, so it is kept when the loop raises. *)
Definition set_max_stack_size (cm : CommandManager) (size : Z) : CommandManager * bool :=
  let '(us, raised_error) := trim_undo (S (length (undo_stack cm))) size (undo_stack cm) in
  (mkCommandManager us (redo_stack cm) size, raised_error).

(* ------------------------------------------------------------------ *)
(** ** services/llm_queue_manager.py: the worker callbacks *)

(** The signals [task_finished] and [task_failed] emitted by the
    callbacks. *)
Inductive Outcome :=
| task_finished (nid result : string)
| task_failed (nid msg : string).

(** [worker.is_cancelled] of the worker object [w]. *)
Definition is_cancelled (st : Scheduler) (w : nat) : bool :=
  match workers st !! w with
  | Some wk => w_is_cancelled wk
  | None => false
  end.

(** The loop of [cleanup_worker] looking for the provider whose active
    worker is the object [w]. *)
Fixpoint find_provider (w : nat) (l : list (string * nat)) : option string :=
  match l with
  | [] => None
  | (p, w') :: l' => if decide (w' = w) then Some p else find_provider w l'
  end.

(** [LLMQueueManager.cleanup_worker]: [if provider_found] is false for
    the empty provider name.  Joining the thread and [deleteLater] leave
    the manager's bookkeeping alone. *)
Definition cleanup_worker (st : Scheduler) (nid : string) : Scheduler :=
  match worker_map st !! nid with
  | None => st
  | Some w =>
      let st1 := mkScheduler (queues st) (active_workers st) (delete nid (worker_map st))
                   (workers st) (next_worker st) (emitted st) in
      match find_provider w (active_workers st1) with
      | Some p =>
          if bool_decide (p <> "") then
            process_next_in_queue
              (mkScheduler (queues st1) (assoc_del p (active_workers st1)) (worker_map st1)
                 (workers st1) (next_worker st1) (emitted st1)) p
          else st1
      | None => st1
      end
  end.

(** [LLMQueueManager.on_worker_finished]: the new state and the signals
    emitted. *)
Definition on_worker_finished (st : Scheduler) (nid result : string) :
    Scheduler * list Outcome :=
  match worker_map st !! nid with
  | None => (st, [])
  | Some w =>
      if is_cancelled st w then (st, [])
      else (cleanup_worker st nid, [task_finished nid result])
  end.

(** [LLMQueueManager.on_worker_error]. *)
Definition on_worker_error (st : Scheduler) (nid msg : string) :
    Scheduler * list Outcome :=
  let cancelled :=
    match worker_map st !! nid with
    | Some w => is_cancelled st w
    | None => false
    end in
  if cancelled then (st, []) else (cleanup_worker st nid, [task_failed nid msg]).

(** The states of an [LLMQueueManager] reachable from its constructor
    through its public methods and the worker callbacks. *)
Inductive sched_reachable : Scheduler -> Prop :=
| sr_init : sched_reachable empty_scheduler
| sr_submit st nid pr cfg :
    sched_reachable st -> sched_reachable (submit_task st nid pr cfg)
| sr_cancel st nid : sched_reachable st -> sched_reachable (cancel_task st nid)
| sr_finished st nid r :
    sched_reachable st -> sched_reachable (on_worker_finished st nid r).1
| sr_error st nid m :
    sched_reachable st -> sched_reachable (on_worker_error st nid m).1
| sr_shutdown st : sched_reachable st -> sched_reachable (shutdown st).

(** The node ids of the queued tasks, queue by queue. *)
Definition queued_nodes (st : Scheduler) : list string :=
  concat ((fun pq : string * list Task => task_node <$> pq.2) <$> queues st).

(** The bookkeeping that [LLMQueueManager] keeps: one active worker per
    provider, distinct worker objects numbered below the next fresh one,
    and each node queued at most once and never while it has a worker. *)
Definition sched_inv (st : Scheduler) : Prop :=
  NoDup (fst <$> active_workers st) /\ NoDup (snd <$> active_workers st) /\
  (forall w, w ∈ snd <$> active_workers st -> (w < next_worker st)%nat) /\
  NoDup (queued_nodes st) /\
  (forall x, x ∈ queued_nodes st -> worker_map st !! x = None).

(* ------------------------------------------------------------------ *)
(** ** core/provider_manager.py: [resolve_display_text] *)

(** [ProviderManager.resolve_display_text]: [setting key default] is
    [settings.value(key, default)], and the empty string stands for a
    falsy argument, as in [resolve_effective_provider]. *)
Definition resolve_display_text (setting : string -> string -> string)
    (config_provider config_model : string) : string :=
  let provider := if decide (config_provider = "") then "Default" else config_provider in
  let model := config_model in
  let '(display_provider, display_model) :=
    if bool_decide (provider = "Default") then
      if decide (model = "") then
        let dp := setting "default_provider" "Ollama" in
        (dp, if bool_decide (dp = "OpenAI") then setting "openai_model" "gpt-4o"
             else if bool_decide (dp = "Gemini") then setting "gemini_model" "gemini-1.5-flash"
             else if bool_decide (dp = "OpenRouter")
                  then setting "openrouter_model" "openai/gpt-3.5-turbo"
             else setting "ollama_model" "llama3")
      else (resolve_effective_provider (setting "default_provider" "Ollama") "Default" model,
            model)
    else (provider, model) in
  if decide (display_model = "") then display_provider
  else display_provider +:+ "/" +:+ display_model.

(* ------------------------------------------------------------------ *)
(** ** core/graph.py: [generate_new_node_name] *)

(** [pattern.match(name)] for [re.compile(rf"^{base}_(\d{{4}})$")]: the
    index of a name [base_dddd] ([$] also matches before a final
    newline).  The pattern splices [base] in unescaped; for a [base] of
    word characters, such as the callers' default ["Chat"], it matches
    [base] literally, as here. *)
Definition base_index (base nm : string) : option nat :=
  let check (r : list ascii) :=
    match four_digits_rev r with
    | Some i =>
        if bool_decide (rev (drop 5 r) = String.list_ascii_of_string base) then Some i else None
    | None => None
    end in
  let r := rev (String.list_ascii_of_string nm) in
  match check r with
  | Some i => Some i
  | None =>
      match r with
      | c :: r' => if decide (c = ascii_of_nat 10) then check r' else None
      | [] => None
      end
  end.

(** [Graph.generate_new_node_name]: [max_idx] is the largest index of a
    name [base_dddd]; the [while True] loop is [name_search] from
    [max_idx]. *)
Definition generate_new_node_name (g : Graph) (base : string) : option string :=
  let max_idx :=
    foldl (fun m n =>
             if decide (name n = "") then m
             else match base_index base (name n) with
                  | Some i => Nat.max m i
                  | None => m
                  end) 0%nat (snd <$> map_to_list (nodes g)) in
  name_search g base (S (size (nodes g))) max_idx.

(* ------------------------------------------------------------------ *)
(** ** core/graph.py: [Graph.from_dict] *)

(** The node loop of [Graph.from_dict]: [seen] is [seen_node_ids] and
    [idm] is [node_id_map]. *)
Fixpoint load_nodes (uuid : nat -> string) (ds : list NodeData) (g : Graph)
    (seen : gset string) (idm : gmap string string) (k : nat) :
    Graph * gset string * gmap string string * nat :=
  match ds with
  | [] => (g, seen, idm, k)
  | d :: ds' =>
      let '(n, k1) := node_from_dict uuid k d in
      let '(n1, seen1, idm1, k2) :=
        if bool_decide (node_id n ∈ seen)
        then (set_node_id (uuid k1) n, seen, <[node_id n := uuid k1]> idm, S k1)
        else (n, {[node_id n]} ∪ seen, <[node_id n := node_id n]> idm, k1) in
      load_nodes uuid ds' (add_node g (set_input_links [] n1)) seen1 idm1 k2
  end.

(** [node_id_map.get(x, x)] for [x = link_data.get(...)], possibly [None]. *)
Definition remap (idm : gmap string string) (x : option string) : option string :=
  match x with
  | Some s => Some (default s (idm !! s))
  | None => None
  end.

(** The link loop of [Graph.from_dict]: a link with an end that is not a
    node is skipped; a missing or empty id, and an id seen before, draw
    a uuid; the link is stored and listed in its target's [input_links]
    unless already there ([attach_link]).  [link_id_map] is written but
    never read. *)
Fixpoint load_links (uuid : nat -> string) (ls : list LinkData) (g : Graph)
    (seen : gset string) (idm : gmap string string) (k : nat) : Graph * nat :=
  match ls with
  | [] => (g, k)
  | d :: ls' =>
      match remap idm (ld_source d), remap idm (ld_target d) with
      | Some s, Some t =>
          if bool_decide (is_Some (nodes g !! s)) && bool_decide (is_Some (nodes g !! t)) then
            let '(lid0, k1) :=
              match ld_id d with
              | Some i => if decide (i = "") then (uuid k, S k) else (i, k)
              | None => (uuid k, S k)
              end in
            let '(lid, seen1, k2) :=
              if bool_decide (lid0 ∈ seen) then (uuid k1, seen, S k1)
              else (lid0, {[lid0]} ∪ seen, k1) in
            load_links uuid ls' (attach_link g (mkLink s t lid)) seen1 idm k2
          else load_links uuid ls' g seen idm k
      | _, _ => load_links uuid ls' g seen idm k
      end
  end.

(** [Graph.from_dict]; [data.get("nodes", [])] and [data.get("links", [])]
    with [None] for an absent key. *)
Definition graph_from_dict (uuid : nat -> string) (data : GraphData) (k : nat) : Graph * nat :=
  let g0 := mkGraph ∅ ∅ (default 16384%Z (gd_global_token_limit data)) in
  let '(g1, _, idm, k1) := load_nodes uuid (default [] (gd_nodes data)) g0 ∅ ∅ k in
  load_links uuid (default [] (gd_links data)) g1 ∅ idm k1.

(** An executable test of [graph_wf], for concrete graphs. *)
Definition graph_wfb (g : Graph) : bool :=
  forallb (fun kn : string * Node =>
             bool_decide (node_id kn.2 = kn.1) && bool_decide (NoDup (input_links kn.2)))
    (map_to_list (nodes g)) &&
  forallb (fun kl : string * Link =>
             bool_decide (link_id kl.2 = kl.1) &&
             bool_decide (is_Some (nodes g !! source_id kl.2)) &&
             match nodes g !! target_id kl.2 with
             | Some t => bool_decide (kl.1 ∈ input_links t)
             | None => false
             end)
    (map_to_list (links g)).

(** The nodes named in the task queues, queue by queue. *)
Definition qn (qs : list (string * list Task)) : list string :=
  concat ((fun pq : string * list Task => task_node <$> pq.2) <$> qs).

(** The state of the node loop of [Graph.from_dict]: no links yet, nodes
    under their ids, all input lists cleared. *)
Definition nodes_loaded (g : Graph) : Prop :=
  links g = ∅ /\ forall k n, nodes g !! k = Some n -> node_id n = k /\ input_links n = [].

(** An executable test that every id in a node's [input_links] is a link
    into that node. *)
Definition inputs_exactb (g : Graph) : bool :=
  forallb (fun kn : string * Node =>
             forallb (fun y => match links g !! y with
                               | Some l => bool_decide (target_id l = kn.1)
                               | None => false
                               end) (input_links kn.2))
    (map_to_list (nodes g)).

(* ================================================================== *)
(** * Proofs *)

(** ** Graph.mark_dirty *)

Lemma raised_refl g : raised g g.
Proof.
  split; [done|split; [done|]]. intros k. destruct (nodes g !! k); auto.
Qed.

Lemma set_is_dirty_idem b c n : set_is_dirty b (set_is_dirty c n) = set_is_dirty b n.
Proof. by destruct n. Qed.

Lemma is_dirty_set b n : is_dirty (set_is_dirty b n) = b.
Proof. by destruct n. Qed.

Lemma set_is_dirty_same n : set_is_dirty (is_dirty n) n = n.
Proof. by destruct n. Qed.

Lemma raised_trans g1 g2 g3 : raised g1 g2 -> raised g2 g3 -> raised g1 g3.
Proof.
  intros (HL1 & HG1 & H1) (HL2 & HG2 & H2).
  split; [congruence|split; [congruence|]]. intros k.
  specialize (H1 k). specialize (H2 k).
  destruct (nodes g1 !! k) as [n|] eqn:E1.
  - destruct H1 as [H1|[Hd H1]]; rewrite H1 in H2.
    + destruct H2 as [H2|[Hd H2]]; auto.
    + destruct H2 as [H2|[Hd' H2]]; [auto|].
      rewrite is_dirty_set in Hd'. discriminate.
  - by rewrite H1 in H2.
Qed.

Lemma raised_dirty_at g g' y : raised g g' -> dirty_at g y -> dirty_at g' y.
Proof.
  intros (_ & _ & H) (n & Hn & Hd). specialize (H y). rewrite Hn in H.
  destruct H as [H|[Hd' H]]; [by exists n|congruence].
Qed.

Lemma raised_is_Some g g' y : raised g g' -> is_Some (nodes g !! y) -> is_Some (nodes g' !! y).
Proof.
  intros (_ & _ & H) [n Hn]. specialize (H y). rewrite Hn in H.
  destruct H as [H|[_ H]]; rewrite H; eauto.
Qed.

Lemma raised_link_from g g' x z : raised g g' -> link_from g' x z <-> link_from g x z.
Proof. intros (HL & _ & _). unfold link_from. by rewrite HL. Qed.

Lemma clean_or_dirty g u : is_Some (nodes g !! u) -> clean g u \/ dirty_at g u.
Proof.
  intros [n Hn]. destruct (is_dirty n) eqn:E; [right|left]; by exists n.
Qed.

Lemma clean_not_dirty g u : clean g u -> dirty_at g u -> False.
Proof. intros (n & Hn & H1) (m & Hm & H2). congruence. Qed.

Lemma elem_of_children_of g x z : z ∈ children_of g x <-> link_from g x z.
Proof.
  unfold children_of, link_from. rewrite list_elem_of_fmap. split.
  - intros (l & -> & Hl). apply list_elem_of_filter in Hl as [Hs Hl].
    apply list_elem_of_fmap in Hl as ([k l'] & -> & Hkl).
    apply elem_of_map_to_list in Hkl. by exists k, l'.
  - intros (k & l & Hk & Hs & Ht). exists l. split; [done|].
    apply list_elem_of_filter. split; [done|].
    apply list_elem_of_fmap. exists (k, l). split; [done|].
    by apply elem_of_map_to_list.
Qed.

(** Marking [x] dirty in place raises exactly [x]. *)
Lemma raised_set_dirty g x n :
  nodes g !! x = Some n -> is_dirty n = false ->
  raised g (set_nodes (<[x := set_is_dirty true n]> (nodes g)) g).
Proof.
  intros Hx Hd. split; [done|split; [done|]]. intros k. simpl.
  destruct (decide (x = k)) as [<-|Hne].
  - rewrite Hx, lookup_insert_eq. by right.
  - rewrite lookup_insert_ne; [|done]. destruct (nodes g !! k); auto.
Qed.

(** The postcondition of one call [mark_dirty(x)], with [x] visited. *)
Definition md_post (g : Graph) (x : string) (g' : Graph) : Prop :=
  raised g g' /\
  (is_Some (nodes g !! x) -> dirty_at g' x) /\
  (forall u z, clean g u -> dirty_at g' u -> link_from g u z ->
               is_Some (nodes g !! z) -> dirty_at g' z).

Lemma mark_children_post (rec : Graph -> string -> option Graph) :
  (forall h c h', rec h c = Some h' -> md_post h c h') ->
  forall cs h h', mark_children rec h cs = Some h' ->
  raised h h' /\
  (forall c, c ∈ cs -> is_Some (nodes h !! c) -> dirty_at h' c) /\
  (forall u z, clean h u -> dirty_at h' u -> link_from h u z ->
               is_Some (nodes h !! z) -> dirty_at h' z).
Proof.
  intros Hrec cs. induction cs as [|c cs IH]; intros h h' Hm; simpl in Hm.
  - injection Hm as <-. split; [apply raised_refl|split].
    + intros c Hc. by apply elem_of_nil in Hc.
    + intros u z Hu Hd. exfalso. by eapply clean_not_dirty.
  - destruct (rec h c) as [h1|] eqn:E; [|discriminate].
    destruct (Hrec _ _ _ E) as (Hr1 & Hx1 & Hc1).
    destruct (IH _ _ Hm) as (Hr2 & Hx2 & Hc2).
    split; [by eapply raised_trans|split].
    + intros c' Hc' Hs. apply elem_of_cons in Hc' as [->|Hc'].
      * by eapply raised_dirty_at, Hx1.
      * by eapply Hx2, raised_is_Some.
    + intros u z Hu Hd Hl Hz.
      destruct (clean_or_dirty h1 u) as [Hu1|Hu1].
      { eapply raised_is_Some; [done|]. destruct Hu as (n & Hn & _). eauto. }
      * eapply Hc2; [done|done| |by eapply raised_is_Some].
        by eapply raised_link_from.
      * by eapply raised_dirty_at, Hc1.
Qed.

Lemma mark_dirty_fuel_post f g x g' :
  mark_dirty_fuel f g x = Some g' -> md_post g x g'.
Proof.
  revert g x g'. induction f as [|f IH]; intros g x g' Hm; simpl in Hm; [discriminate|].
  destruct (nodes g !! x) as [n|] eqn:Hx.
  - destruct (is_dirty n) eqn:Hd.
    + injection Hm as <-. split; [apply raised_refl|split].
      * intros _. by exists n.
      * intros u z Hu Hd'. exfalso. by eapply clean_not_dirty.
    + set (g1 := set_nodes (<[x := set_is_dirty true n]> (nodes g)) g) in Hm.
      assert (Hr1 : raised g g1) by (by apply raised_set_dirty).
      destruct (mark_children_post _ IH _ _ _ Hm) as (Hr2 & Hx2 & Hc2).
      split; [by eapply raised_trans|split].
      * intros _. eapply raised_dirty_at; [done|].
        exists (set_is_dirty true n). split; [apply lookup_insert_eq|apply is_dirty_set].
      * intros u z Hu Hdu Hl Hz. destruct (decide (u = x)) as [->|Hne].
        -- apply Hx2; [|by eapply raised_is_Some].
           apply elem_of_children_of. by eapply raised_link_from.
        -- eapply Hc2; [| done | by eapply raised_link_from | by eapply raised_is_Some].
           destruct Hu as (m & Hm' & Hdm). exists m. simpl.
           by rewrite lookup_insert_ne.
  - injection Hm as <-. split; [apply raised_refl|split].
    + intros [? H]. congruence.
    + intros u z Hu Hd'. exfalso. by eapply clean_not_dirty.
Qed.

Lemma clean_path_is_Some g x y : clean_path g x y -> is_Some (nodes g !! x).
Proof. intros [y' H|x' z y' (n & Hn & _) _ _]; eauto. Qed.

Lemma md_post_clean_path g x g' :
  md_post g x g' -> forall y, clean_path g x y -> dirty_at g' y.
Proof.
  intros (Hr & Hx & Hc) y Hp.
  assert (Hd : dirty_at g' x) by (apply Hx; by eapply clean_path_is_Some).
  clear Hx. induction Hp as [y _|u z y Hu Hl Hp IH]; [done|].
  apply IH. eapply Hc; [done|done|done|by eapply clean_path_is_Some].
Qed.

Lemma elem_of_clean_set g k : k ∈ clean_set g <-> clean g k.
Proof.
  unfold clean_set, clean. rewrite elem_of_dom. split.
  - intros [n Hn]. apply map_lookup_filter_Some in Hn as [Hn Hd]. by exists n.
  - intros (n & Hn & Hd). exists n. by apply map_lookup_filter_Some.
Qed.

Lemma raised_clean g g' k : raised g g' -> clean g' k -> clean g k.
Proof.
  intros (_ & _ & H) (n & Hn & Hd). specialize (H k).
  destruct (nodes g !! k) as [m|] eqn:E.
  - destruct H as [H|[Hm H]]; rewrite H in Hn; injection Hn as <-.
    + by exists m.
    + by rewrite is_dirty_set in Hd.
  - congruence.
Qed.

Lemma raised_clean_set g g' : raised g g' -> clean_set g' ⊆ clean_set g.
Proof.
  intros Hr k. rewrite !elem_of_clean_set. by apply raised_clean.
Qed.

Lemma clean_set_size g : size (clean_set g) <= size (nodes g).
Proof.
  rewrite <- size_dom. apply subseteq_size. intros k.
  rewrite elem_of_clean_set, elem_of_dom. intros (n & Hn & _). by exists n.
Qed.

Lemma mark_children_Some f :
  (forall h x, size (clean_set h) < f -> exists h', mark_dirty_fuel f h x = Some h') ->
  forall cs h, size (clean_set h) < f ->
  exists h', mark_children (mark_dirty_fuel f) h cs = Some h'.
Proof.
  intros IH cs. induction cs as [|c cs IHcs]; intros h Hs; simpl; [eauto|].
  destruct (IH h c Hs) as [h1 E]. rewrite E. apply IHcs.
  destruct (mark_dirty_fuel_post _ _ _ _ E) as (Hr & _).
  apply raised_clean_set, subseteq_size in Hr. lia.
Qed.

Lemma mark_dirty_fuel_Some f g x :
  size (clean_set g) < f -> exists g', mark_dirty_fuel f g x = Some g'.
Proof.
  revert g x. induction f as [|f IH]; intros g x Hs; [lia|simpl].
  destruct (nodes g !! x) as [n|] eqn:Hx; [|eauto].
  destruct (is_dirty n) eqn:Hd; [eauto|].
  apply mark_children_Some; [done|].
  assert (Hsub : clean_set (set_nodes (<[x := set_is_dirty true n]> (nodes g)) g) ⊂ clean_set g).
  { split; [by apply raised_clean_set, raised_set_dirty|].
    intros Hsub. assert (Hc : x ∈ clean_set g) by (apply elem_of_clean_set; by exists n).
    apply Hsub, elem_of_clean_set in Hc as (m & Hm & Hdm). simpl in Hm.
    rewrite lookup_insert_eq in Hm. injection Hm as <-. by rewrite is_dirty_set in Hdm. }
  apply subset_size in Hsub. lia.
Qed.

(** [mark_dirty] computes the fuelled recursion to completion. *)
Lemma mark_dirty_run g x :
  mark_dirty_fuel (S (size (nodes g))) g x = Some (mark_dirty g x).
Proof.
  unfold mark_dirty.
  destruct (mark_dirty_fuel_Some (S (size (nodes g))) g x) as [g' ->]; [|done].
  pose proof (clean_set_size g). lia.
Qed.

(** C4 (corrected). For every graph [g] and node id [N], [mark_dirty g N]
    terminates (the recursion finishes within [size (nodes g) + 1] nested
    calls, even on cyclic graphs), only switches dirty flags on, makes
    dirty every node reachable from [N] along a path whose nodes before
    the last one were clean before the call (the recursion stops at nodes
    that are already dirty), and a second call with the same [N] changes
    nothing. *)
Theorem mark_dirty_spec (g : Graph) (N : string) :
  (exists g', mark_dirty_fuel (S (size (nodes g))) g N = Some g') /\
  raised g (mark_dirty g N) /\
  (forall y, clean_path g N y -> dirty_at (mark_dirty g N) y) /\
  mark_dirty (mark_dirty g N) N = mark_dirty g N.
Proof.
  pose proof (mark_dirty_run g N) as Hrun.
  pose proof (mark_dirty_fuel_post _ _ _ _ Hrun) as Hpost.
  split; [eauto|]. split; [apply Hpost|]. split; [by apply md_post_clean_path|].
  destruct Hpost as (Hr & Hx & _).
  set (g' := mark_dirty g N) in *.
  pose proof (mark_dirty_run g' N) as Hrun'. simpl in Hrun'.
  destruct (nodes g !! N) as [n|] eqn:HN.
  - destruct (Hx ltac:(eauto)) as (m & Hm & Hdm).
    rewrite Hm, Hdm in Hrun'. by injection Hrun'.
  - destruct Hr as (_ & _ & Hr). specialize (Hr N). rewrite HN in Hr.
    rewrite Hr in Hrun'. by injection Hrun'.
Qed.

(** C4 (counterexample). On [A -> B -> C] with only [B] dirty, [C] is
    reachable from [A] but stays clean after [mark_dirty A]. *)
Lemma mark_dirty_skips_behind_dirty :
  reachable chain_graph "A" "C" /\ clean (mark_dirty chain_graph "A") "C".
Proof.
  split.
  - apply (reach_step _ _ "B"); [exists "l1", (mkLink "A" "B" "l1"); split; [vm_compute; reflexivity|done]|].
    apply (reach_step _ _ "C"); [exists "l2", (mkLink "B" "C" "l2"); split; [vm_compute; reflexivity|done]|].
    apply reach_refl.
  - exists (demo_node "C" false ["l2"]). split; [vm_compute; reflexivity|reflexivity].
Qed.

(** ** Graph.add_node and Graph.is_name_unique *)

(** C9. When [node_id n] already keys a node of [g], [add_node g n]
    stores [n] under that id in place of the old node, keeps the same set
    of node ids, leaves every other node (and so its [input_links]) and
    the whole link map unchanged. *)
Theorem add_node_replaces (g : Graph) (n old : Node) :
  nodes g !! node_id n = Some old ->
  nodes (add_node g n) !! node_id n = Some n /\
  dom (nodes (add_node g n)) = dom (nodes g) /\
  (forall k, k <> node_id n -> nodes (add_node g n) !! k = nodes g !! k) /\
  links (add_node g n) = links g /\
  global_token_limit (add_node g n) = global_token_limit g.
Proof.
  intros Hold. unfold add_node, set_nodes; simpl.
  split; [apply lookup_insert_eq|]. split.
  - rewrite dom_insert_L. apply set_eq. intros k. rewrite elem_of_union, elem_of_singleton.
    split; [intros [->|Hk]; [apply elem_of_dom; eauto|done]|auto].
  - split; [intros k Hk; by rewrite lookup_insert_ne|done].
Qed.

Lemma add_node_replaces_witness :
  nodes chain_graph !! "B" = Some (demo_node "B" true ["l1"]) /\
  nodes (add_node chain_graph (demo_node "B" false [])) !! "B" = Some (demo_node "B" false []).
Proof.
  split; [vm_compute; reflexivity|].
  apply (add_node_replaces chain_graph (demo_node "B" false []) (demo_node "B" true ["l1"])).
  vm_compute. reflexivity.
Defined.

(** C10. [is_name_unique] answers [true] for a missing or empty name,
    whatever the graph and the excluded id. *)
Theorem is_name_unique_empty (g : Graph) (exclude_node_id : option string) :
  is_name_unique g None exclude_node_id = true /\
  is_name_unique g (Some "") exclude_node_id = true.
Proof. split; reflexivity. Qed.

(** ** ContextAssembler *)

Lemma string_app_assoc (a b c : string) : a +:+ (b +:+ c) = (a +:+ b) +:+ c.
Proof. induction a as [|x a IH]; [reflexivity|exact (f_equal (String x) IH)]. Qed.

Lemma string_length_zero (s : string) : String.length s = 0 -> s = "".
Proof. by destruct s. Qed.

(** [_enforce_limit] always ends with the prompt. *)
Lemma enforce_limit_suffix (h p : string) (limit : Z) :
  exists pre, enforce_limit h p limit = pre +:+ p.
Proof.
  unfold enforce_limit.
  repeat (case_bool_decide || case_decide);
    first [exists ""; done | eexists; rewrite !string_app_assoc; reflexivity].
Qed.

(** [_enforce_limit] returns the prompt alone when its estimate reaches the
    limit. *)
Lemma enforce_limit_prompt_alone (h p : string) (limit : Z) :
  (4 * limit <= Z.of_nat (String.length p))%Z -> enforce_limit h p limit = p.
Proof.
  intros Hp. unfold enforce_limit.
  case_bool_decide as H1.
  - assert (String.length h = 0) as Hh by lia.
    apply string_length_zero in Hh as ->. by case_decide.
  - case_bool_decide; [done|lia].
Qed.

(** Whenever [assemble] returns, its result ends with the resolved prompt,
    and is exactly that prompt when the prompt's estimate [len/4] alone
    reaches [max_tokens]. *)
Lemma assemble_keeps_prompt (g : Graph) (n : Node) (s : string) :
  assemble g n = Some s ->
  (exists pre, s = pre +:+ resolved_prompt g n) /\
  ((4 * max_tokens (config n) <= Z.of_nat (String.length (resolved_prompt g n)))%Z ->
   s = resolved_prompt g n).
Proof.
  unfold assemble. intros Hs.
  destruct (implicit_parts _ _ _ _) as [parts|]; simpl in Hs; [|discriminate].
  injection Hs as <-. split; [apply enforce_limit_suffix|apply enforce_limit_prompt_alone].
Qed.

(** C3 (code bug). [assemble] raises [KeyError] (here [None]) on a node
    that has an input node while its first [input_links] entry is no
    longer a link id: [self.graph.links[node.input_links[0]]] is indexed
    without the guard that [_gather_history] uses ([links.get]), so no
    string, and no prompt suffix, is returned. *)
Theorem assemble_raises_on_stale_first_link :
  nodes stale_graph !! "P" = Some stale_node /\
  get_input_nodes stale_graph "P" <> [] /\
  assemble stale_graph stale_node = None.
Proof. split; [vm_compute; reflexivity|split; [vm_compute; discriminate|vm_compute; reflexivity]]. Qed.

(** C7 (code bug). Within the budget, [assemble] joins the context block
    and the prompt with a single newline, and a missing history still
    leaves the two newlines in front of the implicit context: the result
    is ["H\nP"] instead of ["H\n\nP"] with history ["H"], and
    ["\n\nH\nP"] instead of ["H\n\nP"] with implicit context ["H"]. *)
Theorem assemble_within_budget_separators :
  assemble hist_graph hist_node = Some ("H" +:+ nl +:+ "P") /\
  assemble impl_graph impl_node = Some (nl +:+ nl +:+ "H" +:+ nl +:+ "P") /\
  "H" +:+ nl +:+ "P" <> "H" +:+ nl +:+ nl +:+ "P" /\
  nl +:+ nl +:+ "H" +:+ nl +:+ "P" <> "H" +:+ nl +:+ nl +:+ "P".
Proof.
  split; [vm_compute; reflexivity|split; [vm_compute; reflexivity|]].
  split; vm_compute; discriminate.
Qed.

(** ** Provider resolution and worker dispatch *)

(** C2 (code bug). For the node configuration [provider = "Default"],
    [model = "openrouter/auto"] the worker calls the Ollama backend while
    [resolve_effective_provider] answers ["OpenRouter"]; and with an empty
    model and the global default provider ["OpenAI"] the worker calls
    Ollama while the resolver answers ["OpenAI"]. *)
Theorem worker_dispatch_disagrees :
  worker_dispatch "Default" "openrouter/auto" = call_ollama /\
  resolve_effective_provider "Ollama" "Default" "openrouter/auto" = "OpenRouter" /\
  backend_provider (worker_dispatch "Default" "") = "Ollama" /\
  resolve_effective_provider "OpenAI" "Default" "" = "OpenAI".
Proof. repeat split; vm_compute; reflexivity. Qed.

(** ** The per-provider scheduler *)



Lemma cancel_workers_fold (l : list (string * nat)) (acc : Scheduler) :
  let st := foldl (fun acc pw => cancel_worker acc pw.2) acc l in
  queues st = queues acc /\ active_workers st = active_workers acc /\
  worker_map st = worker_map acc.
Proof.
  revert acc. induction l as [|pw l IH]; intros acc; simpl; [done|].
  destruct (IH (cancel_worker acc pw.2)) as (H1 & H2 & H3). done.
Qed.

(** C8 (code bug). [shutdown] empties the queues but leaves
    [active_workers] and [worker_map] as they were (it only cancels the
    workers). After one submitted task and [shutdown], the scheduler still
    records the cancelled worker as the provider's active worker, so a
    further submission for that provider is queued behind it. *)
Theorem shutdown_keeps_active_workers :
  (forall st, queues (shutdown st) = [] /\
     active_workers (shutdown st) = active_workers st /\
     worker_map (shutdown st) = worker_map st) /\
  let st := shutdown (submit_task empty_scheduler "A" "go" ollama_config) in
  active_workers st = [("Ollama", 0%nat)] /\
  worker_map st = {[ "A" := 0%nat ]} /\
  option_map w_is_cancelled (workers st !! 0%nat) = Some true /\
  is_node_running_or_queued st "A" = true /\
  queues (submit_task st "B" "go" ollama_config) = [("Ollama", [("B", "go", ollama_config)])].
Proof.
  split.
  - intros st. unfold shutdown.
    match goal with |- context [foldl ?f ?a ?l] =>
      destruct (cancel_workers_fold l a) as (H1 & H2 & H3) end.
    rewrite H1, H2, H3. done.
  - vm_compute. repeat split; reflexivity.
Qed.

(** ** Merging a graph into itself *)

Lemma node_from_to_dict (uuid : nat -> string) (k : nat) (n : Node) :
  node_from_dict uuid k (node_to_dict n) = (n, S k).
Proof. destruct n as [? []]; reflexivity. Qed.

Lemma merge_one_collides (g : Graph) (fn : string) (uuid : nat -> string) (off : Z * Z)
    (n : Node) (k : nat) (idm : gmap (option string) string) :
  is_Some (nodes g !! node_id n) ->
  merge_one g fn uuid off (node_to_dict n) k idm =
  (merged_copy g fn uuid off n (S k), <[Some (node_id n) := uuid (S k)]> idm, S (S k)).
Proof.
  intros Hs. unfold merge_one. rewrite node_from_to_dict.
  cbn [set_pos node_id]. rewrite bool_decide_eq_true_2 by exact Hs. reflexivity.
Qed.

Lemma merge_nodes_collide (g : Graph) (fn : string) (uuid : nat -> string) (off : Z * Z)
    (ns : list Node) (k : nat) (idm : gmap (option string) string) :
  Forall (fun n => is_Some (nodes g !! node_id n)) ns ->
  merge_nodes g fn uuid off (node_to_dict <$> ns) k idm =
  (merged_copies g fn uuid off ns k, merged_id_map uuid ns k idm, k + 2 * length ns)%nat.
Proof.
  revert k idm. induction ns as [|n ns IH]; intros k idm Hall; simpl.
  - f_equal. lia.
  - inversion Hall as [|? ? Hn Hrest]; subst.
    rewrite merge_one_collides by exact Hn. rewrite IH by exact Hrest.
    f_equal. lia.
Qed.

Lemma elem_of_new_ids (uuid : nat -> string) (len k : nat) (x : string) :
  x ∈ new_ids uuid len k -> exists j, x = uuid j /\ k < j /\ j < k + 2 * len.
Proof.
  revert k. induction len as [|l IH]; intros k Hx; simpl in Hx.
  - inversion Hx.
  - apply elem_of_cons in Hx as [->|Hx].
    + exists (S k). split; [done|lia].
    + destruct (IH _ Hx) as (j & -> & ? & ?). exists j. split; [done|lia].
Qed.

Lemma NoDup_new_ids (uuid : nat -> string) (len k : nat) :
  (forall i j, uuid i = uuid j -> i = j) -> NoDup (new_ids uuid len k).
Proof.
  intros Hinj. revert k. induction len as [|l IH]; intros k; simpl.
  - constructor.
  - constructor; [|apply IH].
    intros Hx. apply elem_of_new_ids in Hx as (j & Hj & ? & ?).
    apply Hinj in Hj. lia.
Qed.

Lemma merged_copies_ids (g : Graph) (fn : string) (uuid : nat -> string) (off : Z * Z)
    (ns : list Node) (k : nat) :
  node_id <$> merged_copies g fn uuid off ns k = new_ids uuid (length ns) k.
Proof.
  revert k. induction ns as [|n ns IH]; intros k; simpl; [done|].
  rewrite IH. reflexivity.
Qed.

Lemma merged_copies_lookup (g : Graph) (fn : string) (uuid : nat -> string) (off : Z * Z)
    (ns : list Node) (k i : nat) :
  merged_copies g fn uuid off ns k !! i =
  (fun n => merged_copy g fn uuid off n (S (k + 2 * i))) <$> ns !! i.
Proof.
  revert k i. induction ns as [|n ns IH]; intros k i; simpl; [done|].
  destruct i as [|i]; simpl.
  - do 3 f_equal. lia.
  - rewrite IH. destruct (ns !! i); simpl; [|done]. do 3 f_equal. lia.
Qed.

Lemma merged_id_map_values (uuid : nat -> string) (ns : list Node) (k : nat)
    (idm : gmap (option string) string) (key : option string) (v : string) :
  merged_id_map uuid ns k idm !! key = Some v ->
  idm !! key = Some v \/ v ∈ new_ids uuid (length ns) k.
Proof.
  revert k idm. induction ns as [|n ns IH]; intros k idm Hv; simpl in *; [by left|].
  destruct (IH _ _ Hv) as [Hl|Hl].
  - destruct (decide (key = Some (node_id n))) as [->|Hne].
    + rewrite lookup_insert_eq in Hl. injection Hl as <-. right. apply elem_of_cons. by left.
    + rewrite lookup_insert_ne in Hl by congruence. by left.
  - right. apply elem_of_cons. by right.
Qed.

Lemma add_new_nodes_nodes (g : Graph) (ns : list Node) :
  nodes (add_new_nodes g ns) =
  foldl (fun m n => <[node_id n := set_input_links [] n]> m) (nodes g) ns.
Proof.
  unfold add_new_nodes. revert g. induction ns as [|n ns IH]; intros g; simpl; [done|].
  rewrite IH. reflexivity.
Qed.

Lemma foldl_insert_lookup_notin (ns : list Node) (m : gmap string Node) (key : string) :
  key ∉ node_id <$> ns ->
  foldl (fun m n => <[node_id n := set_input_links [] n]> m) m ns !! key = m !! key.
Proof.
  revert m. induction ns as [|n ns IH]; intros m Hk; simpl; [done|].
  rewrite fmap_cons, elem_of_cons in Hk.
  rewrite IH by tauto. apply lookup_insert_ne. intros Heq. apply Hk. left. done.
Qed.

Lemma foldl_insert_lookup_in (ns : list Node) (m : gmap string Node) (i : nat) (n : Node) :
  NoDup (node_id <$> ns) -> ns !! i = Some n ->
  foldl (fun m n => <[node_id n := set_input_links [] n]> m) m ns !! node_id n =
  Some (set_input_links [] n).
Proof.
  revert m i. induction ns as [|n0 ns IH]; intros m i Hnd Hi; [done|].
  rewrite fmap_cons in Hnd. apply NoDup_cons in Hnd as [Hn0 Hnd]. simpl.
  destruct i as [|i]; simpl in Hi.
  - injection Hi as <-. rewrite foldl_insert_lookup_notin by exact Hn0.
    apply lookup_insert_eq.
  - exact (IH _ i Hnd Hi).
Qed.

Lemma foldl_insert_size (ns : list Node) (m : gmap string Node) :
  NoDup (node_id <$> ns) -> (forall n, n ∈ ns -> m !! node_id n = None) ->
  size (foldl (fun m n => <[node_id n := set_input_links [] n]> m) m ns) =
  (size m + length ns)%nat.
Proof.
  revert m. induction ns as [|n ns IH]; intros m Hnd Hfresh; simpl; [lia|].
  rewrite fmap_cons in Hnd. apply NoDup_cons in Hnd as [Hn Hnd].
  rewrite IH.
  - rewrite map_size_insert_None; [lia|]. apply Hfresh. apply elem_of_cons. by left.
  - exact Hnd.
  - intros n' Hn'. rewrite lookup_insert_ne.
    + apply Hfresh. apply elem_of_cons. by right.
    + intros Heq. apply Hn. rewrite Heq. by apply list_elem_of_fmap_2.
Qed.

(** A node with its [input_links] cleared: the part of a node that link
    insertion leaves alone. *)
Lemma set_input_links_twice (a b : list string) (n : Node) :
  set_input_links a (set_input_links b n) = set_input_links a n.
Proof. reflexivity. Qed.

Lemma add_link_untriggered (uuid : nat -> string) (k : nat) (g : Graph) (s t : string) :
  let g' := (add_link uuid k g s t false).1 in
  (forall key, key <> t -> nodes g' !! key = nodes g !! key) /\
  (forall key, set_input_links [] <$> nodes g' !! key = set_input_links [] <$> nodes g !! key).
Proof.
  unfold add_link. cbn [set_links nodes]. destruct (nodes g !! t) as [n|] eqn:Ht; simpl.
  - split.
    + intros key Hk. apply lookup_insert_ne. congruence.
    + intros key. destruct (decide (key = t)) as [->|Hk].
      * rewrite lookup_insert_eq, Ht. reflexivity.
      * rewrite lookup_insert_ne by congruence. reflexivity.
  - split; reflexivity.
Qed.

Lemma merge_links_nodes (uuid : nat -> string) (idm : gmap (option string) string)
    (T : string -> Prop) (ls : list LinkData) (g : Graph) (k : nat) :
  (forall key v, idm !! key = Some v -> T v) ->
  let g' := (merge_links uuid idm ls g k).1 in
  (forall key, ~ T key -> nodes g' !! key = nodes g !! key) /\
  (forall key, set_input_links [] <$> nodes g' !! key = set_input_links [] <$> nodes g !! key).
Proof.
  intros HT. revert g k. induction ls as [|l ls IH]; intros g k; simpl; [done|].
  destruct (both_truthy (idm !! ld_source l) (idm !! ld_target l)) as [[s t]|] eqn:Hb;
    [|apply IH].
  assert (Tt : T t).
  { unfold both_truthy in Hb.
    destruct (idm !! ld_source l), (idm !! ld_target l) as [t'|] eqn:Ht; try discriminate.
    case_bool_decide; [|discriminate]. injection Hb as <- <-. exact (HT _ _ Ht). }
  destruct (add_link uuid k g s t false) as [g1 k1] eqn:Ha.
  pose proof (add_link_untriggered uuid k g s t) as [A1 A2]. rewrite Ha in A1, A2.
  cbn [fst] in A1, A2.
  destruct (IH g1 k1) as [B1 B2]. split.
  - intros key Hk. rewrite B1 by exact Hk. apply A1. intros ->. contradiction.
  - intros key. rewrite B2. apply A2.
Qed.

Lemma elem_of_new_ids_index (uuid : nat -> string) (len k : nat) (x : string) :
  x ∈ new_ids uuid len k -> exists i, i < len /\ x = uuid (S (k + 2 * i)).
Proof.
  revert k. induction len as [|l IH]; intros k Hx; simpl in Hx.
  - inversion Hx.
  - apply elem_of_cons in Hx as [->|Hx].
    + exists 0. split; [lia|]. do 2 f_equal. lia.
    + destruct (IH _ Hx) as (i & ? & ->). exists (S i). split; [lia|]. do 2 f_equal. lia.
Qed.

Lemma length_merged_copies (g : Graph) (fn : string) (uuid : nat -> string) (off : Z * Z)
    (ns : list Node) (k : nat) :
  length (merged_copies g fn uuid off ns k) = length ns.
Proof. revert k. induction ns as [|n ns IH]; intros k; simpl; [done|]. by rewrite IH. Qed.

Lemma strip_fmap_size (m1 m2 : gmap string Node) :
  (forall key, set_input_links [] <$> m1 !! key = set_input_links [] <$> m2 !! key) ->
  size m1 = size m2.
Proof.
  intros H. rewrite <- (map_size_fmap (set_input_links []) m1),
    <- (map_size_fmap (set_input_links []) m2).
  assert (E : set_input_links [] <$> m1 = set_input_links [] <$> m2).
  { apply map_eq. intros key. rewrite !lookup_fmap. apply H. }
  by rewrite E.
Qed.

Lemma strip_fmap_lookup (m1 m2 : gmap string Node) (key : string) (n1 : Node) :
  (forall key, set_input_links [] <$> m1 !! key = set_input_links [] <$> m2 !! key) ->
  m1 !! key = Some n1 ->
  exists n2, m2 !! key = Some n2 /\ set_input_links [] n1 = set_input_links [] n2.
Proof.
  intros H Hk. specialize (H key). rewrite Hk in H.
  destruct (m2 !! key) as [n2|]; [|discriminate]. exists n2. split; [done|].
  simpl in H. congruence.
Qed.

Lemma str_of_nat_dec (n : nat) :
  option_map Nat.of_uint (NilZero.uint_of_string (str_of_nat n)) = Some n.
Proof.
  unfold str_of_nat. pose proof (DecimalNat.Unsigned.of_to n) as Hn.
  destruct (Nat.to_uint n) as [| d | d | d | d | d | d | d | d | d | d] eqn:E.
  1: rewrite <- Hn; reflexivity.
  all: rewrite NilZero.usu by discriminate; simpl; by rewrite Hn.
Qed.

Lemma str_of_nat_inj (a b : nat) : str_of_nat a = str_of_nat b -> a = b.
Proof.
  intros H. pose proof (str_of_nat_dec a) as Da. rewrite H, str_of_nat_dec in Da.
  congruence.
Qed.

Lemma demo_uuid_inj (i j : nat) : demo_uuid i = demo_uuid j -> i = j.
Proof. unfold demo_uuid. intros H. injection H as H. exact (str_of_nat_inj _ _ H). Qed.

Lemma chain_graph_ids :
  map_Forall (fun key n => node_id n = key /\ String.prefix "u" key = false)
    (nodes chain_graph).
Proof. apply (bool_decide_unpack _). vm_compute. reflexivity. Qed.

(** C6. Merging the serialization of a graph's own nodes (in any order,
    with any list of links) into the graph: every incoming node collides
    and is re-keyed by a fresh uuid, so the node count doubles; every node
    is stored under its own id; the existing nodes are untouched; the
    [i]-th incoming node lands under the uuid drawn for it with the dirty
    flag, prompt and output of its source (no dirty propagation from the
    links added with [trigger_dirty=False]); and there are no other
    nodes. Assumptions: the graph stores each node under its [id], and
    the uuid supply is injective and avoids the graph's ids. *)
Theorem merge_self_doubles (g : Graph) (ns : list Node) (lds : list LinkData)
    (gtl : option Z) (filename : string) (uuid : nat -> string) (k : nat)
    (Hwf : forall key n, nodes g !! key = Some n -> node_id n = key)
    (Hperm : ns ≡ₚ snd <$> map_to_list (nodes g))
    (Hinj : forall i j, uuid i = uuid j -> i = j)
    (Hfresh : forall i, nodes g !! uuid i = None) :
  let g' := (merge_graph g (mkGraphData gtl (Some (node_to_dict <$> ns)) (Some lds))
               filename uuid k).1 in
  size (nodes g') = (2 * size (nodes g))%nat /\
  (forall key n', nodes g' !! key = Some n' -> node_id n' = key) /\
  (forall key n, nodes g !! key = Some n -> nodes g' !! key = Some n) /\
  (forall i n, ns !! i = Some n -> exists n',
     nodes g !! uuid (S (k + 2 * i)) = None /\ nodes g' !! uuid (S (k + 2 * i)) = Some n' /\
     is_dirty n' = is_dirty n /\ prompt n' = prompt n /\ cached_output n' = cached_output n) /\
  (forall key n', nodes g' !! key = Some n' ->
     nodes g !! key = Some n' \/ exists i n, ns !! i = Some n /\ key = uuid (S (k + 2 * i))).
Proof.
  assert (Hcol : Forall (fun n => is_Some (nodes g !! node_id n)) ns).
  { apply Forall_forall. intros n Hn. rewrite Hperm in Hn.
    apply list_elem_of_fmap in Hn as ([key n'] & -> & Hkv).
    apply elem_of_map_to_list in Hkv. simpl. rewrite (Hwf _ _ Hkv). by exists n'. }
  assert (Hlen : length ns = size (nodes g)).
  { rewrite Hperm, length_fmap. apply length_map_to_list. }
  cbn zeta. unfold merge_graph. cbn [gd_nodes gd_links default].
  set (off := merge_offset g _). unfold id.
  rewrite merge_nodes_collide by exact Hcol. cbn beta iota.
  set (cs := merged_copies g filename uuid off ns k).
  set (T := fun v => v ∈ new_ids uuid (length ns) k).
  assert (HT : forall key v, merged_id_map uuid ns k ∅ !! key = Some v -> T v).
  { intros key v Hv. apply merged_id_map_values in Hv as [Hv|Hv]; [|exact Hv].
    by rewrite lookup_empty in Hv. }
  destruct (merge_links_nodes uuid _ T lds (add_new_nodes g cs) (k + 2 * length ns) HT)
    as [A B].
  set (g' := (merge_links _ _ _ _ _).1) in A, B |- *.
  rewrite add_new_nodes_nodes in A, B.
  assert (Hids : node_id <$> cs = new_ids uuid (length ns) k) by apply merged_copies_ids.
  assert (Hnd : NoDup (node_id <$> cs)) by (rewrite Hids; by apply NoDup_new_ids).
  assert (Hnew : forall x, T x -> nodes g !! x = None).
  { intros x Hx. apply elem_of_new_ids in Hx as (j & -> & _). apply Hfresh. }
  assert (G1out : forall key, ~ T key ->
    foldl (fun m n => <[node_id n := set_input_links [] n]> m) (nodes g) cs !! key =
    nodes g !! key).
  { intros key Hk. apply foldl_insert_lookup_notin. rewrite Hids. exact Hk. }
  assert (G1in : forall i n, ns !! i = Some n ->
    foldl (fun m n => <[node_id n := set_input_links [] n]> m) (nodes g) cs
      !! uuid (S (k + 2 * i)) =
    Some (set_input_links [] (merged_copy g filename uuid off n (S (k + 2 * i))))).
  { intros i n Hi.
    assert (Hc : cs !! i = Some (merged_copy g filename uuid off n (S (k + 2 * i)))).
    { unfold cs. rewrite merged_copies_lookup, Hi. reflexivity. }
    exact (foldl_insert_lookup_in cs (nodes g) i _ Hnd Hc). }
  assert (Hsize1 : size (foldl (fun m n => <[node_id n := set_input_links [] n]> m)
                         (nodes g) cs) = (size (nodes g) + length ns)%nat).
  { rewrite foldl_insert_size.
    - unfold cs. rewrite length_merged_copies. reflexivity.
    - exact Hnd.
    - intros n Hn. apply Hnew. unfold T. rewrite <- Hids. by apply list_elem_of_fmap_2. }
  (* every node of the intermediate graph: an old one or a copy *)
  assert (G1cases : forall key n1,
    foldl (fun m n => <[node_id n := set_input_links [] n]> m) (nodes g) cs !! key = Some n1 ->
    (nodes g !! key = Some n1 /\ ~ T key) \/
    exists i n, ns !! i = Some n /\ key = uuid (S (k + 2 * i)) /\
      n1 = set_input_links [] (merged_copy g filename uuid off n (S (k + 2 * i)))).
  { intros key n1 Hk. destruct (decide (T key)) as [Ht|Ht].
    - right. destruct (elem_of_new_ids_index _ _ _ _ Ht) as (i & Hi & ->).
      destruct (lookup_lt_is_Some_2 ns i Hi) as [n Hn].
      exists i, n. split; [done|]. split; [done|].
      rewrite (G1in i n Hn) in Hk. by injection Hk.
    - left. rewrite G1out in Hk by exact Ht. done. }
  split; [|split; [|split; [|split]]].
  - rewrite (strip_fmap_size _ _ B), Hsize1. lia.
  - intros key n' Hk. destruct (strip_fmap_lookup _ _ _ _ B Hk) as (n1 & Hn1 & Hs).
    assert (E : node_id n' = node_id n1).
    { change (node_id (set_input_links [] n') = node_id (set_input_links [] n1)).
      by rewrite Hs. }
    rewrite E. destruct (G1cases _ _ Hn1) as [[Hg _]|(i & n & _ & -> & ->)].
    + exact (Hwf _ _ Hg).
    + reflexivity.
  - intros key n Hk.
    assert (Ht : ~ T key) by (intros Ht; rewrite (Hnew _ Ht) in Hk; discriminate).
    rewrite A by exact Ht. rewrite G1out by exact Ht. exact Hk.
  - intros i n Hi.
    destruct (strip_fmap_lookup _ _ _ _ (fun key => eq_sym (B key)) (G1in i n Hi))
      as (n' & Hn' & Hs).
    exists n'. split; [apply Hfresh|]. split; [exact Hn'|].
    pose proof (f_equal is_dirty Hs) as H1. pose proof (f_equal prompt Hs) as H2.
    pose proof (f_equal cached_output Hs) as H3. cbn in H1, H2, H3.
    repeat split; congruence.
  - intros key n' Hk. destruct (strip_fmap_lookup _ _ _ _ B Hk) as (n1 & Hn1 & _).
    destruct (G1cases _ _ Hn1) as [[Hg Ht]|(i & n & Hi & -> & _)].
    + left. rewrite A in Hk by exact Ht. rewrite G1out in Hk by exact Ht. exact Hk.
    + right. exists i, n. done.
Qed.

Lemma merge_self_doubles_witness :
  size (nodes (merge_graph chain_graph
     (mkGraphData (Some 16384%Z)
        (Some (node_to_dict <$> (snd <$> map_to_list (nodes chain_graph)))) (Some []))
     "chain" demo_uuid 0).1) = 6%nat.
Proof.
  destruct (merge_self_doubles chain_graph (snd <$> map_to_list (nodes chain_graph)) []
    (Some 16384%Z) "chain" demo_uuid 0) as [Hs _].
  - intros key n Hk. exact (proj1 (chain_graph_ids key n Hk)).
  - reflexivity.
  - exact demo_uuid_inj.
  - intros i. destruct (nodes chain_graph !! demo_uuid i) as [n|] eqn:Hk; [|reflexivity].
    pose proof (proj2 (chain_graph_ids _ _ Hk)) as Hp. vm_compute in Hp. discriminate.
  - rewrite Hs. vm_compute. reflexivity.
Defined.

(** ** Commands and the command manager *)

Lemma node_eq_strip (m m' : Node) :
  strip m' = strip m -> is_dirty m' = is_dirty m -> input_links m' = input_links m -> m' = m.
Proof.
  destruct m, m'; unfold strip, set_input_links, set_is_dirty; simpl.
  intros H Hd Hi. injection H. intros. subst. reflexivity.
Qed.

Lemma strip_node_id (m m' : Node) : strip m' = strip m -> node_id m' = node_id m.
Proof. intros H. exact (f_equal node_id H). Qed.

Lemma strip_set_is_dirty b n : strip (set_is_dirty b n) = strip n.
Proof. by destruct n. Qed.

Lemma strip_set_input_links L n : strip (set_input_links L n) = strip n.
Proof. by destruct n. Qed.

Lemma input_links_set_is_dirty b n : input_links (set_is_dirty b n) = input_links n.
Proof. by destruct n. Qed.

Lemma input_links_set_input_links L n : input_links (set_input_links L n) = L.
Proof. by destruct n. Qed.

Lemma is_dirty_set_input_links L n : is_dirty (set_input_links L n) = is_dirty n.
Proof. by destruct n. Qed.

Lemma node_id_set_input_links L n : node_id (set_input_links L n) = node_id n.
Proof. by destruct n. Qed.

(** *** Lists of link ids *)

Lemma list_remove_notin x L : x ∉ L -> list_remove x L = L.
Proof.
  induction L as [|y L IH]; intros Hx; simpl; [done|].
  rewrite elem_of_cons in Hx. rewrite decide_False by tauto. f_equal. apply IH. tauto.
Qed.

Lemma elem_of_list_remove x y L :
  NoDup L -> y ∈ list_remove x L <-> y ∈ L /\ y <> x.
Proof.
  induction L as [|z L IH]; intros Hnd; simpl.
  - split; [intros H; by apply elem_of_nil in H|intros [H _]; by apply elem_of_nil in H].
  - apply NoDup_cons in Hnd as [Hz Hnd]. destruct (decide (x = z)) as [<-|Hne].
    + rewrite elem_of_cons. split.
      * intros Hy. split; [by right|]. intros ->. done.
      * intros [[->|Hy] Hyx]; [done|done].
    + rewrite !elem_of_cons, IH by done. split.
      * intros [->|[Hy Hyx]]; [split; [by left|congruence]|tauto].
      * intros [[->|Hy] Hyx]; [by left|by right].
Qed.

Lemma NoDup_list_remove x L : NoDup L -> NoDup (list_remove x L).
Proof.
  induction L as [|z L IH]; intros Hnd; simpl; [constructor|].
  apply NoDup_cons in Hnd as [Hz Hnd]. destruct (decide (x = z)); [done|].
  apply NoDup_cons. split; [|by apply IH].
  rewrite elem_of_list_remove by done. tauto.
Qed.

Lemma foldl_drop_link_spec (ls : gmap string Link) (k : string) (lids L : list string) :
  NoDup L ->
  NoDup (foldl (drop_link ls k) L lids) /\
  forall y, y ∈ foldl (drop_link ls k) L lids <->
            y ∈ L /\ ~ (y ∈ lids /\ exists l, ls !! y = Some l /\ target_id l = k).
Proof.
  revert L. induction lids as [|lid lids IH]; intros L Hnd; simpl.
  - split; [done|]. intros y. split; [intros H; split; [done|]|tauto].
    intros [H0 _]. by apply elem_of_nil in H0.
  - assert (Hstep : NoDup (drop_link ls k L lid) /\
             forall y, y ∈ drop_link ls k L lid <->
                       y ∈ L /\ ~ (y = lid /\ exists l, ls !! y = Some l /\ target_id l = k)).
    { unfold drop_link. destruct (ls !! lid) as [l|] eqn:E.
      - destruct (decide (target_id l = k)) as [Ht|Ht].
        + split; [by apply NoDup_list_remove|]. intros y.
          rewrite elem_of_list_remove by done. split.
          * intros [Hy Hne]. split; [done|]. intros [-> _]. done.
          * intros [Hy Hn]. split; [done|]. intros ->. apply Hn. split; [done|]. by exists l.
        + split; [done|]. intros y. split; [|tauto]. intros Hy. split; [done|].
          intros [-> (l' & E' & Ht')]. rewrite E in E'. injection E' as <-. done.
      - split; [done|]. intros y. split; [|tauto]. intros Hy. split; [done|].
        intros [-> (l' & E' & _)]. congruence. }
    destruct Hstep as [Hnd1 Hm1]. destruct (IH _ Hnd1) as [Hnd2 Hm2].
    split; [done|]. intros y. rewrite Hm2, Hm1, elem_of_cons. split.
    + intros [[Hy H1] H2]. split; [done|]. intros [[->|Hin] Hl]; [apply H1|apply H2]; tauto.
    + intros [Hy H]. split; [split; [done|]|]; intros [? ?]; apply H; tauto.
Qed.

Lemma add_missing_spec x L :
  NoDup L -> NoDup (add_missing x L) /\ forall y, y ∈ add_missing x L <-> y ∈ L \/ y = x.
Proof.
  intros Hnd. unfold add_missing. case_bool_decide as Hx.
  - split; [done|]. intros y. split; [tauto|]. intros [H| ->]; done.
  - split.
    + apply NoDup_app. split; [done|split; [|apply NoDup_singleton]].
      intros y Hy Hy'. apply list_elem_of_singleton in Hy'. subst. done.
    + intros y. rewrite elem_of_app, list_elem_of_singleton. done.
Qed.

Lemma attach_ids_spec (k : string) (L : list string) (ls : list Link) :
  NoDup L ->
  NoDup (attach_ids k L ls) /\
  forall y, y ∈ attach_ids k L ls <-> y ∈ L \/ exists l, l ∈ ls /\ target_id l = k /\ link_id l = y.
Proof.
  unfold attach_ids. revert L. induction ls as [|l ls IH]; intros L Hnd; simpl.
  - split; [done|]. intros y. split; [tauto|]. intros [H|(l & Hl & _)]; [done|].
    by apply elem_of_nil in Hl.
  - destruct (decide (target_id l = k)) as [Ht|Ht].
    + destruct (add_missing_spec (link_id l) L Hnd) as [Hnd1 Hm1].
      destruct (IH _ Hnd1) as [Hnd2 Hm2]. split; [done|]. intros y.
      rewrite Hm2, Hm1. split.
      * intros [[Hy| ->]|(l' & Hl' & Ht' & Hy)]; [by left|right; exists l; split; [apply elem_of_cons; by left|done]|].
        right. exists l'. split; [apply elem_of_cons; by right|done].
      * intros [Hy|(l' & Hl' & Ht' & Hy)]; [by left; left|].
        apply elem_of_cons in Hl' as [->|Hl']; [left; by right|].
        right. by exists l'.
    + destruct (IH _ Hnd) as [Hnd2 Hm2]. split; [done|]. intros y.
      rewrite Hm2. split.
      * intros [Hy|(l' & Hl' & Ht' & Hy)]; [by left|]. right. exists l'.
        split; [apply elem_of_cons; by right|done].
      * intros [Hy|(l' & Hl' & Ht' & Hy)]; [by left|].
        apply elem_of_cons in Hl' as [->|Hl']; [done|]. right. by exists l'.
Qed.

(** *** Graph.mark_dirty, as used by the commands *)

Lemma mark_dirty_raised g x : raised g (mark_dirty g x).
Proof. exact (proj1 (mark_dirty_fuel_post _ _ _ _ (mark_dirty_run g x))). Qed.

Lemma mark_dirty_marks g x : is_Some (nodes g !! x) -> dirty_at (mark_dirty g x) x.
Proof. exact (proj1 (proj2 (mark_dirty_fuel_post _ _ _ _ (mark_dirty_run g x)))). Qed.

Lemma mark_dirty_noop g x :
  (forall n, nodes g !! x = Some n -> is_dirty n = true) -> mark_dirty g x = g.
Proof.
  intros H. unfold mark_dirty. simpl. destruct (nodes g !! x) as [n|] eqn:E; [|done].
  by rewrite (H n eq_refl).
Qed.

(** *** Comparing the nodes of two states *)

Lemma track_refl g : nodes_track true (fun _ L => L) g g.
Proof. intros k. destruct (nodes g !! k) as [m|]; simpl; [split; [done|split; done]|done]. Qed.

Lemma track_same_nodes (f : string -> list string -> list string) g g' :
  nodes g' = nodes g -> (forall k m, nodes g !! k = Some m -> f k (input_links m) = input_links m) ->
  nodes_track true f g g'.
Proof.
  intros Hn Hf k. rewrite Hn. destruct (nodes g !! k) as [m|] eqn:E; simpl; [|done].
  split; [done|split; [done|]]. by rewrite Hf.
Qed.

Lemma track_trans e1 e2 f1 f2 g g' g'' :
  nodes_track e1 f1 g g' -> nodes_track e2 f2 g' g'' ->
  nodes_track (e1 && e2) (fun k L => f2 k (f1 k L)) g g''.
Proof.
  intros H1 H2 k. specialize (H1 k). specialize (H2 k).
  destruct (nodes g !! k) as [m|], (nodes g' !! k) as [m'|], (nodes g'' !! k) as [m''|];
    unfold opt_rel in *; simpl in *; try contradiction; [|done].
  destruct H1 as (Hs1 & Hd1 & Hi1), H2 as (Hs2 & Hd2 & Hi2).
  split; [congruence|split; [|congruence]].
  destruct e1, e2; unfold flag_step in *; simpl; [congruence| | |]; intros Ha;
    [apply Hd2; congruence|rewrite Hd2; auto|auto].
Qed.

Lemma track_weaken f g g' : nodes_track true f g g' -> nodes_track false f g g'.
Proof.
  intros H k. specialize (H k). destruct (nodes g !! k), (nodes g' !! k); unfold opt_rel in *; simpl in *; try done.
  destruct H as (Hs & Hd & Hi). unfold flag_step in *. split; [done|split; [congruence|done]].
Qed.

Lemma track_ext e f f' g g' :
  (forall k m, nodes g !! k = Some m -> f k (input_links m) = f' k (input_links m)) ->
  nodes_track e f g g' -> nodes_track e f' g g'.
Proof.
  intros Hf H k. specialize (H k). destruct (nodes g !! k) as [m|] eqn:E, (nodes g' !! k);
    unfold opt_rel in *; simpl in *; try done.
  destruct H as (Hs & Hd & Hi). split; [done|split; [done|]]. rewrite Hi. by apply Hf.
Qed.

Lemma track_dirty_at e f g g' x : nodes_track e f g g' -> dirty_at g x -> dirty_at g' x.
Proof.
  intros H (m & Hm & Hd). specialize (H x). rewrite Hm in H.
  destruct (nodes g' !! x) as [m'|] eqn:E; unfold opt_rel in H; simpl in H; [|done].
  destruct H as (_ & Hf & _). exists m'. split; [done|].
  destruct e; unfold flag_step in Hf; simpl in Hf; [congruence|auto].
Qed.

Lemma track_is_Some e f g g' x : nodes_track e f g g' -> is_Some (nodes g !! x) <-> is_Some (nodes g' !! x).
Proof.
  intros H. specialize (H x).
  destruct (nodes g !! x), (nodes g' !! x); unfold opt_rel in H; simpl in H; try contradiction;
    [split; intros _; eauto|split; intros [? Hc]; discriminate].
Qed.

Lemma track_dirty_exact f g g' x m m' :
  nodes_track true f g g' -> nodes g !! x = Some m -> nodes g' !! x = Some m' -> is_dirty m' = is_dirty m.
Proof.
  intros H Hm Hm'. specialize (H x). rewrite Hm, Hm' in H. apply H.
Qed.

Lemma raised_track g g' : raised g g' -> nodes_track false (fun _ L => L) g g'.
Proof.
  intros (_ & _ & H) k. specialize (H k). destruct (nodes g !! k) as [m|].
  - destruct H as [H|[Hd H]]; rewrite H.
    + split; [done|split; [unfold flag_step; auto|done]].
    + split; [apply strip_set_is_dirty|split; [rewrite is_dirty_set; unfold flag_step; auto|]].
      apply input_links_set_is_dirty.
  - by rewrite H.
Qed.

(** *** Graph.remove_link *)

Lemma remove_link_spec h lid :
  links (remove_link h lid) = delete lid (links h) /\
  global_token_limit (remove_link h lid) = global_token_limit h /\
  nodes_track false (fun k L => drop_link (links h) k L lid) h (remove_link h lid) /\
  (forall l, links h !! lid = Some l -> is_Some (nodes h !! target_id l) ->
             dirty_at (remove_link h lid) (target_id l)) /\
  ((forall l m, links h !! lid = Some l -> nodes h !! target_id l = Some m -> is_dirty m = true) ->
   nodes_track true (fun k L => drop_link (links h) k L lid) h (remove_link h lid)).
Proof.
  unfold remove_link. destruct (links h !! lid) as [l|] eqn:El.
  2:{ rewrite delete_id by done.
      assert (Ht : nodes_track true (fun k L => drop_link (links h) k L lid) h h).
      { apply track_same_nodes; [done|]. intros k m _. unfold drop_link. by rewrite El. }
      split; [done|split; [done|split; [by apply track_weaken|split; [|done]]]].
      intros l' E. congruence. }
  set (g1 := set_links (delete lid (links h)) h).
  assert (Hn1 : nodes g1 = nodes h) by reflexivity.
  destruct (nodes g1 !! target_id l) as [t|] eqn:Et.
  2:{ assert (Ht : nodes_track true (fun k L => drop_link (links h) k L lid) h g1).
      { apply track_same_nodes; [done|]. intros k m Hm. unfold drop_link. rewrite El.
        destruct (decide (target_id l = k)) as [<-|]; [|done]. rewrite Hn1 in Et. congruence. }
      split; [done|split; [done|split; [by apply track_weaken|split; [|done]]]].
      intros l' E [m Hm]. injection E as <-. rewrite Hn1 in Et. congruence. }
  rewrite Hn1 in Et.
  set (g2 := if bool_decide (lid ∈ input_links t)
             then set_nodes (<[target_id l := set_input_links (list_remove lid (input_links t)) t]> (nodes g1)) g1
             else g1).
  assert (Hl2 : links g2 = delete lid (links h)) by (unfold g2; by case_bool_decide).
  assert (Hg2 : global_token_limit g2 = global_token_limit h) by (unfold g2; by case_bool_decide).
  assert (Ht2 : nodes_track true (fun k L => drop_link (links h) k L lid) h g2).
  { intros k. unfold drop_link. rewrite El. unfold g2. case_bool_decide as Hin.
    - simpl. rewrite ?Hn1. destruct (decide (target_id l = k)) as [<-|Hne].
      + rewrite Et, lookup_insert_eq. simpl.
        rewrite ?strip_set_input_links, ?is_dirty_set_input_links, ?input_links_set_input_links.
        split; [done|split; done].
      + rewrite lookup_insert_ne by done. destruct (nodes h !! k); simpl; [|done].
        split; [done|split; done].
    - rewrite ?Hn1. destruct (decide (target_id l = k)) as [<-|Hne].
      + rewrite Et. simpl. rewrite list_remove_notin by done. split; [done|split; done].
      + destruct (nodes h !! k); simpl; [|done]. split; [done|split; done]. }
  assert (Hs2 : exists t2, nodes g2 !! target_id l = Some t2 /\ is_dirty t2 = is_dirty t).
  { specialize (Ht2 (target_id l)). rewrite Et in Ht2.
    destruct (nodes g2 !! target_id l) as [t2|]; simpl in Ht2; [|done].
    exists t2. split; [done|]. apply Ht2. }
  destruct (mark_dirty_raised g2 (target_id l)) as (HL & HG & _).
  split; [congruence|split; [congruence|split]].
  { pose proof (track_trans _ _ _ _ _ _ _ Ht2 (raised_track _ _ (mark_dirty_raised g2 (target_id l)))) as H.
    exact H. }
  split.
  - intros l' E _. injection E as <-. apply mark_dirty_marks.
    destruct Hs2 as (t2 & Ht2' & _). by rewrite Ht2'.
  - intros Hd. rewrite mark_dirty_noop; [done|].
    intros n Hn. destruct Hs2 as (t2 & Ht2' & Hd2). rewrite Ht2' in Hn. injection Hn as <-.
    rewrite Hd2. by apply (Hd l t eq_refl).
Qed.

Lemma lookup_filter_notin {A} (lids : list string) (m : gmap string A) i :
  filter (fun kl : string * A => kl.1 ∉ lids) m !! i = if decide (i ∈ lids) then None else m !! i.
Proof.
  apply option_eq. intros x. rewrite map_lookup_filter_Some. simpl.
  case_decide; split.
  - intros [_ ?]. contradiction.
  - done.
  - tauto.
  - tauto.
Qed.

Lemma lookup_filter_untouched (ids : list string) (m : gmap string Link) i :
  filter (fun kl : string * Link => ~ touches ids kl.2) m !! i =
  match m !! i with Some v => if decide (touches ids v) then None else Some v | None => None end.
Proof.
  apply option_eq. intros x. rewrite map_lookup_filter_Some. simpl.
  destruct (m !! i) as [v|]; [|split; [intros [Hq _]; done|done]].
  case_decide; split.
  - intros [Hq Hp]. injection Hq as <-. contradiction.
  - done.
  - intros [Hq _]. done.
  - intros Hq. injection Hq as <-. done.
Qed.

Lemma foldl_drop_link_ext (ls1 ls2 : gmap string Link) (k : string) (lids L : list string) :
  (forall y, y ∈ lids -> ls1 !! y = ls2 !! y) ->
  foldl (drop_link ls1 k) L lids = foldl (drop_link ls2 k) L lids.
Proof.
  revert L. induction lids as [|y lids IH]; intros L H; simpl; [done|].
  assert (E : drop_link ls1 k L y = drop_link ls2 k L y).
  { unfold drop_link. rewrite H; [done|]. apply elem_of_cons. by left. }
  rewrite E. apply IH. intros z Hz. apply H. apply elem_of_cons. by right.
Qed.

Lemma foldl_remove_link_spec (lids : list string) (h : Graph) :
  NoDup lids ->
  links (foldl remove_link h lids) = filter (fun kl : string * Link => kl.1 ∉ lids) (links h) /\
  global_token_limit (foldl remove_link h lids) = global_token_limit h /\
  nodes_track false (fun k L => foldl (drop_link (links h) k) L lids) h (foldl remove_link h lids) /\
  (forall lid l, lid ∈ lids -> links h !! lid = Some l -> is_Some (nodes h !! target_id l) ->
     dirty_at (foldl remove_link h lids) (target_id l)) /\
  ((forall lid l m, lid ∈ lids -> links h !! lid = Some l -> nodes h !! target_id l = Some m ->
      is_dirty m = true) ->
   nodes_track true (fun k L => foldl (drop_link (links h) k) L lids) h (foldl remove_link h lids)).
Proof.
  revert h. induction lids as [|lid lids IH]; intros h Hnd; cbn [foldl].
  - split; [|split; [done|split; [|split]]].
    + apply map_eq. intros i. rewrite lookup_filter_notin.
      rewrite decide_False; [done|]. apply not_elem_of_nil.
    + apply track_weaken, track_refl.
    + intros lid l Hin. by apply elem_of_nil in Hin.
    + intros _. apply track_refl.
  - apply NoDup_cons in Hnd as [Hlid Hnd].
    destruct (remove_link_spec h lid) as (HL1 & HG1 & HT1 & HD1 & HE1).
    set (h1 := remove_link h lid) in *.
    destruct (IH h1 Hnd) as (HL2 & HG2 & HT2 & HD2 & HE2).
    assert (Hlk : forall y, y ∈ lids -> links h1 !! y = links h !! y).
    { intros y Hy. rewrite HL1, lookup_delete_ne; [done|]. intros ->. done. }
    assert (Hf : forall k L, foldl (drop_link (links h1) k) L lids = foldl (drop_link (links h) k) L lids).
    { intros k L. by apply foldl_drop_link_ext. }
    split; [|split; [congruence|split; [|split]]].
    + rewrite HL2, HL1. apply map_eq. intros i.
      rewrite !lookup_filter_notin.
      destruct (decide (i ∈ lid :: lids)) as [Hi|Hi].
      * apply elem_of_cons in Hi as [<-|Hi].
        -- rewrite lookup_delete_eq. by case_decide.
        -- by rewrite decide_True.
      * rewrite decide_False, lookup_delete_ne; [done| |].
        -- intros ->. apply Hi. apply elem_of_cons. by left.
        -- intros Hin. apply Hi. apply elem_of_cons. by right.
    + eapply track_ext; [|exact (track_trans _ _ _ _ _ _ _ HT1 HT2)].
      intros k m _. simpl. by rewrite Hf.
    + intros lid' l Hin Hl Hs. apply elem_of_cons in Hin as [->|Hin].
      * eapply track_dirty_at; [exact HT2|]. by apply (HD1 l).
      * apply (HD2 lid' l); [done|by rewrite Hlk|by apply (track_is_Some _ _ _ _ _ HT1)].
    + intros Hd.
      assert (HT1' : nodes_track true (fun k L => drop_link (links h) k L lid) h h1).
      { apply HE1. intros l m El Em. apply (Hd lid l m); [apply elem_of_cons; by left|done|done]. }
      assert (HT2' : nodes_track true (fun k L => foldl (drop_link (links h1) k) L lids) h1
                       (foldl remove_link h1 lids)).
      { apply HE2. intros lid' l m Hin El Em. rewrite Hlk in El by done.
        specialize (HT1' (target_id l)). rewrite Em in HT1'.
        destruct (nodes h !! target_id l) as [m0|] eqn:E0; unfold opt_rel in HT1'; simpl in HT1';
          [|done].
        destruct HT1' as (_ & Hfl & _). unfold flag_step in Hfl. simpl in Hfl. rewrite Hfl.
        apply (Hd lid' l m0); [apply elem_of_cons; by right|done|done]. }
      eapply track_ext; [|exact (track_trans _ _ _ _ _ _ _ HT1' HT2')].
      intros k m _. simpl. by rewrite Hf.
Qed.

Lemma remove_node_spec (h : Graph) (x : string) :
  (remove_node h x).2 = nodes h !! x /\
  links (remove_node h x).1 = filter (fun kl : string * Link => ~ touches [x] kl.2) (links h) /\
  global_token_limit (remove_node h x).1 = global_token_limit h /\
  nodes (remove_node h x).1 !! x = None /\
  (forall k, k <> x -> opt_rel (survives h [x] k) (nodes h !! k) (nodes (remove_node h x).1 !! k)) /\
  (forall y l, links h !! y = Some l -> source_id l = x -> target_id l <> x ->
     is_Some (nodes h !! target_id l) -> dirty_at (remove_node h x).1 (target_id l)) /\
  ((forall y l m, links h !! y = Some l -> source_id l = x -> target_id l <> x ->
      nodes h !! target_id l = Some m -> is_dirty m = true) ->
   forall k, k <> x ->
   opt_rel (fun m m' => is_dirty m' = is_dirty m) (nodes h !! k) (nodes (remove_node h x).1 !! k)).
Proof.
  unfold remove_node. simpl.
  set (h1 := set_nodes (delete x (nodes h)) h).
  assert (Hn1 : forall k, k <> x -> nodes h1 !! k = nodes h !! k).
  { intros k Hk. simpl. by rewrite lookup_delete_ne. }
  assert (Hlk : links h1 = links h) by reflexivity.
  set (lids := links_touching h1 x).
  assert (Hlids : forall y, y ∈ lids <-> exists l, links h !! y = Some l /\ touches [x] l).
  { intros y. unfold lids, links_touching. rewrite list_elem_of_fmap. unfold touches.
    setoid_rewrite list_elem_of_singleton. split.
    - intros ([y' l] & -> & Hin). apply list_elem_of_filter in Hin as [Ht Hin].
      apply elem_of_map_to_list in Hin. exists l. split; [done|]. simpl in Ht. tauto.
    - intros (l & Hl & Ht). exists (y, l). split; [done|]. apply list_elem_of_filter.
      split; [simpl; tauto|]. by apply elem_of_map_to_list. }
  assert (Hnd : NoDup lids).
  { unfold lids, links_touching. apply NoDup_fmap_fst.
    - intros y l1 l2 H1 H2. apply list_elem_of_filter in H1 as [_ H1], H2 as [_ H2].
      apply elem_of_map_to_list in H1, H2. congruence.
    - apply NoDup_filter, NoDup_map_to_list. }
  destruct (foldl_remove_link_spec lids h1 Hnd) as (HL & HG & HT & HD & HE).
  set (h' := foldl remove_link h1 lids) in *.
  split; [done|split; [|split; [done|split; [|split; [|split]]]]].
  - rewrite HL, Hlk. apply map_eq. intros i.
    rewrite lookup_filter_notin, lookup_filter_untouched.
    destruct (links h !! i) as [l|] eqn:El.
    + destruct (decide (i ∈ lids)) as [Hi|Hi]; destruct (decide (touches [x] l)) as [Ht|Ht];
        try done; exfalso.
      * apply Hlids in Hi as (l' & El' & Ht'). rewrite El in El'. injection El' as <-. done.
      * apply Hi, Hlids. by exists l.
    + by case_decide.
  - specialize (HT x). simpl in HT. rewrite lookup_delete_eq in HT.
    destruct (nodes h' !! x); unfold opt_rel in HT; simpl in HT; done.
  - intros k Hk. specialize (HT k). rewrite Hn1 in HT by done.
    destruct (nodes h !! k) as [m|], (nodes h' !! k) as [m'|]; unfold opt_rel in HT |- *;
      simpl in HT |- *; try done.
    destruct HT as (Hs & Hf & Hi). split; [done|split; [done|]].
    intros Hndm. rewrite Hi, ?Hlk. destruct (foldl_drop_link_spec (links h) k lids _ Hndm) as [Hnd' Hm'].
    split; [done|]. intros y. rewrite Hm'. unfold cut. split.
    + intros [Hy Hn]. split; [done|]. intros (l & El & Ht & Htc). apply Hn. split.
      * apply Hlids. by exists l.
      * by exists l.
    + intros [Hy Hn]. split; [done|]. intros [Hin (l & El & Ht)]. apply Hn.
      apply Hlids in Hin as (l' & El' & Htc). exists l. split; [done|split; [done|congruence]].
  - intros y l El Hs Ht Hsome. apply (HD y l).
    + apply Hlids. exists l. split; [done|]. left. by apply list_elem_of_singleton.
    + by rewrite Hlk.
    + by rewrite Hn1.
  - intros Hd k Hk.
    assert (HT' : nodes_track true (fun k L => foldl (drop_link (links h1) k) L lids) h1 h').
    { apply HE. intros lid l m Hin El Em.
      destruct (decide (target_id l = x)) as [Htx|Htx].
      { simpl in Em. rewrite Htx, lookup_delete_eq in Em. done. }
      apply Hlids in Hin as (l' & El' & Htc). rewrite Hlk in El. rewrite El in El'.
      injection El' as <-.
      apply (Hd lid l m); [done| |done|by rewrite <- Hn1].
      destruct Htc as [Hs|Ht]; apply list_elem_of_singleton in Hs || apply list_elem_of_singleton in Ht;
        [done|done]. }
    specialize (HT' k). rewrite Hn1 in HT' by done.
    destruct (nodes h !! k), (nodes h' !! k); unfold opt_rel in HT' |- *; simpl in HT' |- *; try done.
    apply HT'.
Qed.

Lemma touches_single x l : touches [x] l <-> source_id l = x \/ target_id l = x.
Proof. unfold touches. rewrite !list_elem_of_singleton. tauto. Qed.

Lemma touches_cons x ids l : touches (x :: ids) l <-> touches [x] l \/ touches ids l.
Proof. unfold touches. rewrite !elem_of_cons, !elem_of_nil. tauto. Qed.

Lemma touches_nil l : ~ touches [] l.
Proof. unfold touches. rewrite !elem_of_nil. tauto. Qed.

Lemma forall2_impl_elem {A B} (P Q : A -> B -> Prop) (xs : list A) (ys : list B) :
  Forall2 P xs ys -> (forall x y, x ∈ xs -> P x y -> Q x y) -> Forall2 Q xs ys.
Proof.
  induction 1 as [|x y xs ys Hp _ IH]; intros H; constructor.
  - apply H; [apply elem_of_cons; by left|done].
  - apply IH. intros x' y' Hx. apply H. apply elem_of_cons. by right.
Qed.

Lemma cut_split g h x ids k y :
  links h = filter (fun kl : string * Link => ~ touches [x] kl.2) (links g) ->
  cut g (x :: ids) k y <-> cut g [x] k y \/ cut h ids k y.
Proof.
  intros HL. unfold cut. split.
  - intros (l & El & Ht & Htc). apply touches_cons in Htc as [Hx|Hi].
    + left. by exists l.
    + destruct (decide (touches [x] l)) as [Hx|Hx]; [left; by exists l|].
      right. exists l. split; [|split; done].
      rewrite HL, lookup_filter_untouched, El. by rewrite decide_False.
  - intros [(l & El & Ht & Htc)|(l & El & Ht & Htc)].
    + exists l. split; [done|split; [done|]]. apply touches_cons. by left.
    + rewrite HL, lookup_filter_untouched in El. destruct (links g !! y) as [l'|] eqn:E; [|done].
      destruct (decide (touches [x] l')); [done|]. injection El as <-.
      exists l'. split; [done|split; [done|]]. apply touches_cons. by right.
Qed.

Lemma survives_trans g h x ids k m m1 m' :
  links h = filter (fun kl : string * Link => ~ touches [x] kl.2) (links g) ->
  survives g [x] k m m1 -> survives h ids k m1 m' -> survives g (x :: ids) k m m'.
Proof.
  intros HL (Hs1 & Hd1 & Hi1) (Hs2 & Hd2 & Hi2). split; [congruence|split; [auto|]].
  intros Hnd. destruct (Hi1 Hnd) as [Hnd1 Hm1]. destruct (Hi2 Hnd1) as [Hnd2 Hm2].
  split; [done|]. intros y. rewrite Hm2, Hm1, (cut_split g h x ids k y HL). tauto.
Qed.

Lemma snapshot_lift g h x ids n v :
  links h = filter (fun kl : string * Link => ~ touches [x] kl.2) (links g) ->
  opt_rel (survives g [x] (node_id n)) (nodes g !! node_id n) (nodes h !! node_id n) ->
  snapshot_ok h ids n v -> snapshot_ok g (x :: ids) n v.
Proof.
  intros HL Hs. unfold snapshot_ok.
  destruct (nodes g !! node_id n) as [m|], (nodes h !! node_id n) as [m1|];
    unfold opt_rel in Hs; simpl in Hs; try tauto.
  intros (Hs2 & Hd2 & Hi2). destruct Hs as (Hs1 & Hd1 & Hi1).
  split; [congruence|split; [auto|]]. intros Hnd.
  destruct (Hi1 Hnd) as [Hnd1 Hm1]. destruct (Hi2 Hnd1) as (Hnd2 & Hsub & Hsup).
  split; [done|split].
  - intros y Hy. apply Hsub in Hy. apply Hm1 in Hy. tauto.
  - intros y Hy Hc. apply Hsup.
    + apply Hm1. split; [done|]. intros Hc'. apply Hc. apply (cut_split g h x ids _ y HL). by left.
    + intros Hc'. apply Hc. apply (cut_split g h x ids _ y HL). by right.
Qed.

Lemma remove_nodes_cons g n ns :
  remove_nodes g (n :: ns) =
  ((remove_nodes (remove_node g (node_id n)).1 ns).1,
   default n (remove_node g (node_id n)).2 :: (remove_nodes (remove_node g (node_id n)).1 ns).2).
Proof.
  cbn [remove_nodes]. destruct (remove_node g (node_id n)) as [g1 v]. simpl.
  by destruct (remove_nodes g1 ns).
Qed.

Lemma remove_nodes_spec (ns : list Node) (g : Graph) :
  NoDup (node_id <$> ns) ->
  links (remove_nodes g ns).1 =
    filter (fun kl : string * Link => ~ touches (node_id <$> ns) kl.2) (links g) /\
  global_token_limit (remove_nodes g ns).1 = global_token_limit g /\
  (forall k, k ∈ node_id <$> ns -> nodes (remove_nodes g ns).1 !! k = None) /\
  (forall k, k ∉ node_id <$> ns ->
     opt_rel (survives g (node_id <$> ns) k) (nodes g !! k) (nodes (remove_nodes g ns).1 !! k)) /\
  Forall2 (snapshot_ok g (node_id <$> ns)) ns (remove_nodes g ns).2 /\
  (forall y l, links g !! y = Some l ->
     src_first (node_id <$> ns) (source_id l) (target_id l) = true ->
     is_Some (nodes g !! target_id l) ->
     (target_id l ∉ node_id <$> ns -> dirty_at (remove_nodes g ns).1 (target_id l)) /\
     Forall2 (fun n v => node_id n = target_id l -> is_dirty v = true) ns (remove_nodes g ns).2) /\
  ((forall y l m, links g !! y = Some l ->
      src_first (node_id <$> ns) (source_id l) (target_id l) = true ->
      nodes g !! target_id l = Some m -> is_dirty m = true) ->
   (forall k, k ∉ node_id <$> ns ->
      opt_rel (fun m m' => is_dirty m' = is_dirty m) (nodes g !! k) (nodes (remove_nodes g ns).1 !! k)) /\
   Forall2 (fun n v => forall m, nodes g !! node_id n = Some m -> is_dirty v = is_dirty m)
     ns (remove_nodes g ns).2).
Proof.
  revert g. induction ns as [|n ns IH]; intros g Hnd.
  - cbn [remove_nodes fst snd].
    split; [|split; [done|split; [|split; [|split; [|split]]]]].
    + apply map_eq. intros i. rewrite lookup_filter_untouched.
      destruct (links g !! i) as [l|]; [|done]. rewrite decide_False; [done|]. apply touches_nil.
    + intros k Hk. by apply elem_of_nil in Hk.
    + intros k _. destruct (nodes g !! k) as [m|]; unfold opt_rel; simpl; [|done].
      unfold survives. split; [done|split; [done|]]. intros Hm. split; [done|]. intros y.
      assert (Hc : ~ cut g (node_id <$> []) k y).
      { intros (l & _ & _ & Ht). by apply touches_nil in Ht. }
      tauto.
    + constructor.
    + intros y l _ Hs. simpl in Hs. discriminate.
    + intros _. split; [|constructor]. intros k _.
      destruct (nodes g !! k); unfold opt_rel; simpl; done.
  - rewrite fmap_cons in Hnd |- *. rewrite remove_nodes_cons. cbn [fst snd].
    apply NoDup_cons in Hnd as [Hx Hnd].
    destruct (remove_node_spec g (node_id n)) as (R0 & RL & RG & RX & RS & RD & RE).
    destruct (IH (remove_node g (node_id n)).1 Hnd) as (IL & IG & IX & IS & IF & IA & IQ).
    rewrite R0.
    set (x := node_id n) in *. set (g1 := (remove_node g x).1) in *.
    set (g' := (remove_nodes g1 ns).1) in *. set (vs := (remove_nodes g1 ns).2) in *.
    set (ids := node_id <$> ns) in *.
    assert (Hl1 : forall y l, links g1 !! y = Some l <-> links g !! y = Some l /\ ~ touches [x] l).
    { intros y l. rewrite RL, lookup_filter_untouched.
      destruct (links g !! y) as [l'|]; [|split; [done|intros [Hq _]; done]].
      destruct (decide (touches [x] l')) as [Ht|Ht]; split.
      - intros Hq. discriminate.
      - intros [Hq Hn]. injection Hq as <-. contradiction.
      - intros Hq. injection Hq as <-. done.
      - intros [Hq _]. injection Hq as <-. done. }
    assert (Hids : forall n', n' ∈ ns -> node_id n' <> x).
    { intros n' Hn' Heq. apply Hx. rewrite <- Heq. apply list_elem_of_fmap. by exists n'. }
    split; [|split; [congruence|split; [|split; [|split; [|split]]]]].
    + rewrite IL, RL. apply map_eq. intros i. rewrite !lookup_filter_untouched.
      destruct (links g !! i) as [l|]; [|done].
      destruct (decide (touches [x] l)) as [H1|H1].
      * rewrite decide_True; [done|]. apply touches_cons. by left.
      * cbn beta iota. destruct (decide (touches ids l)) as [H2|H2].
        -- rewrite decide_True; [done|]. apply touches_cons. by right.
        -- rewrite decide_False; [done|]. intros Ht. apply touches_cons in Ht. tauto.
    + intros k Hk. apply elem_of_cons in Hk as [->|Hk]; [|by apply IX].
      specialize (IS x Hx). rewrite RX in IS.
      destruct (nodes g' !! x); unfold opt_rel in IS; simpl in IS; done.
    + intros k Hk. rewrite elem_of_cons in Hk.
      assert (Hkx : k <> x) by tauto. assert (Hki : k ∉ ids) by tauto.
      specialize (RS k Hkx). specialize (IS k Hki).
      destruct (nodes g !! k) as [m|], (nodes g1 !! k) as [m1|], (nodes g' !! k) as [m'|];
        unfold opt_rel in RS, IS |- *; simpl in RS, IS |- *; try done.
      by apply (survives_trans g g1 x ids k m m1 m').
    + constructor.
      * unfold snapshot_ok. fold x. destruct (nodes g !! x) as [m|]; simpl; [|done].
        split; [done|split; [auto|]]. intros Hm. split; [done|split; auto].
      * apply (forall2_impl_elem _ _ _ _ IF). intros n' v' Hn' Hv.
        apply (snapshot_lift g g1); [done| |done]. apply RS. by apply Hids.
    + intros y l El Hsf Hsome. simpl in Hsf.
      destruct (decide (x = target_id l)) as [Ht|Ht]; [discriminate|].
      destruct (decide (x = source_id l)) as [Hs|Hs].
      * assert (Hd1 : dirty_at g1 (target_id l)) by (apply (RD y l); auto).
        split.
        -- intros Htn. rewrite elem_of_cons in Htn. specialize (IS (target_id l) ltac:(tauto)).
           destruct Hd1 as (m1 & E1 & D1). rewrite E1 in IS.
           destruct (nodes g' !! target_id l) as [m'|] eqn:E'; unfold opt_rel in IS; simpl in IS;
             [|done].
           exists m'. split; [done|]. apply IS, D1.
        -- constructor; [intros Heq; by contradiction Ht|].
           apply (forall2_impl_elem _ _ _ _ IF). intros n' v' _ Hv Heq.
           unfold snapshot_ok in Hv. rewrite Heq in Hv. destruct Hd1 as (m1 & E1 & D1).
           rewrite E1 in Hv. destruct Hv as (_ & Hd & _). auto.
      * assert (El1 : links g1 !! y = Some l).
        { apply Hl1. split; [done|]. rewrite touches_single. intros [?|?]; congruence. }
        assert (Hs1 : is_Some (nodes g1 !! target_id l)).
        { specialize (RS (target_id l) ltac:(congruence)). destruct Hsome as [m E].
          rewrite E in RS. destruct (nodes g1 !! target_id l); unfold opt_rel in RS; simpl in RS;
            [by eexists|done]. }
        destruct (IA y l El1 Hsf Hs1) as [A1 A2]. split.
        -- intros Htn. rewrite elem_of_cons in Htn. apply A1. tauto.
        -- constructor; [intros Heq; by contradiction Ht|exact A2].
    + intros HQ.
      assert (HQ1 : forall y l m, links g !! y = Some l -> source_id l = x -> target_id l <> x ->
                      nodes g !! target_id l = Some m -> is_dirty m = true).
      { intros y l m El Hs Ht Em. apply (HQ y l m El); [|done]. simpl.
        rewrite decide_False by congruence. by rewrite decide_True by congruence. }
      specialize (RE HQ1).
      assert (HQ2 : forall y l m, links g1 !! y = Some l ->
                      src_first ids (source_id l) (target_id l) = true ->
                      nodes g1 !! target_id l = Some m -> is_dirty m = true).
      { intros y l m1 El Hsf Em. apply Hl1 in El as [El Htc]. rewrite touches_single in Htc.
        specialize (RE (target_id l) ltac:(tauto)). rewrite Em in RE.
        destruct (nodes g !! target_id l) as [m|] eqn:E; unfold opt_rel in RE; simpl in RE; [|done].
        rewrite RE. apply (HQ y l m El); [|done]. simpl.
        rewrite decide_False by (intros ?; apply Htc; right; congruence).
        by rewrite decide_False by (intros ?; apply Htc; left; congruence). }
      destruct (IQ HQ2) as [Q1 Q2]. split.
      * intros k Hk. rewrite elem_of_cons in Hk.
        specialize (RE k ltac:(tauto)). specialize (Q1 k ltac:(tauto)).
        destruct (nodes g !! k), (nodes g1 !! k), (nodes g' !! k);
          unfold opt_rel in RE, Q1 |- *; simpl in RE, Q1 |- *; try done. congruence.
      * constructor.
        -- intros m E. change (nodes g !! x = Some m) in E. by rewrite E.
        -- apply (forall2_impl_elem _ _ _ _ Q2). intros n' v' Hn' Hv m E.
           specialize (RE (node_id n') (Hids n' Hn')). rewrite E in RE.
           destruct (nodes g1 !! node_id n') as [m1|] eqn:E1; unfold opt_rel in RE; simpl in RE;
             [|done].
           rewrite (Hv m1 eq_refl). done.
Qed.

(** *** Relating two states after a command and its inverse *)

Lemma set_input_links_nil_eq (m m' : Node) :
  strip m' = strip m -> is_dirty m' = is_dirty m -> set_input_links [] m' = set_input_links [] m.
Proof.
  destruct m, m'; unfold strip, set_input_links, set_is_dirty; simpl.
  intros H Hd. injection H. intros. subst. reflexivity.
Qed.

Lemma undo_close_intro g g' :
  links g' = links g -> global_token_limit g' = global_token_limit g ->
  (forall k, opt_rel (fun m m' => strip m' = strip m /\ (is_dirty m = true -> is_dirty m' = true) /\
                                  input_links m' ≡ₚ input_links m) (nodes g !! k) (nodes g' !! k)) ->
  undo_close g g'.
Proof.
  intros HL HG H. split; [done|split; [done|split]].
  - apply map_eq. intros k. rewrite !lookup_fmap. specialize (H k).
    destruct (nodes g !! k), (nodes g' !! k); unfold opt_rel in H; simpl in H; try done.
    simpl. destruct H as (Hs & _). by rewrite Hs.
  - intros k n n' E E'. specialize (H k). rewrite E, E' in H. destruct H as (_ & Hd & Hp). auto.
Qed.

Lemma redo_close_intro g g' :
  links g' = links g -> global_token_limit g' = global_token_limit g ->
  (forall k, opt_rel (fun m m' => strip m' = strip m /\ is_dirty m' = is_dirty m /\
                                  input_links m' ≡ₚ input_links m) (nodes g !! k) (nodes g' !! k)) ->
  redo_close g g'.
Proof.
  intros HL HG H. split; [done|split; [done|split]].
  - apply map_eq. intros k. rewrite !lookup_fmap. specialize (H k).
    destruct (nodes g !! k), (nodes g' !! k); unfold opt_rel in H; simpl in H; try done.
    simpl. destruct H as (Hs & Hd & _). by rewrite (set_input_links_nil_eq _ _ Hs Hd).
  - intros k n n' E E'. specialize (H k). rewrite E, E' in H. apply H.
Qed.

Lemma track_undo_close e f g g' :
  links g' = links g -> global_token_limit g' = global_token_limit g -> nodes_track e f g g' ->
  (forall k m, nodes g !! k = Some m -> f k (input_links m) ≡ₚ input_links m) -> undo_close g g'.
Proof.
  intros HL HG HT Hf. apply undo_close_intro; [done|done|]. intros k. specialize (HT k).
  destruct (nodes g !! k) as [m|] eqn:E, (nodes g' !! k); unfold opt_rel in HT |- *; simpl in HT |- *;
    try done.
  destruct HT as (Hs & Hd & Hi). split; [done|split].
  - destruct e; unfold flag_step in Hd; simpl in Hd; [congruence|done].
  - rewrite Hi. by apply Hf.
Qed.

Lemma track_redo_close f g g' :
  links g' = links g -> global_token_limit g' = global_token_limit g -> nodes_track true f g g' ->
  (forall k m, nodes g !! k = Some m -> f k (input_links m) ≡ₚ input_links m) -> redo_close g g'.
Proof.
  intros HL HG HT Hf. apply redo_close_intro; [done|done|]. intros k. specialize (HT k).
  destruct (nodes g !! k) as [m|] eqn:E, (nodes g' !! k); unfold opt_rel in HT |- *; simpl in HT |- *;
    try done.
  destruct HT as (Hs & Hd & Hi). split; [done|split; [done|]]. rewrite Hi. by apply Hf.
Qed.

Lemma list_remove_app_notin x L : x ∉ L -> list_remove x (L ++ [x]) = L.
Proof.
  induction L as [|y L IH]; intros Hx; simpl.
  - by rewrite decide_True.
  - rewrite decide_False; [|intros ->; apply Hx; apply elem_of_cons; by left].
    rewrite IH; [done|]. intros H. apply Hx. apply elem_of_cons. by right.
Qed.

Lemma list_remove_perm x L : x ∈ L -> x :: list_remove x L ≡ₚ L.
Proof.
  induction L as [|y L IH]; intros Hx; [by apply elem_of_nil in Hx|]. simpl.
  destruct (decide (x = y)) as [->|Hne]; [done|].
  apply elem_of_cons in Hx as [?|Hx]; [done|].
  rewrite Permutation_swap. by rewrite IH.
Qed.

Lemma NoDup_perm_of_elem (L L' : list string) :
  NoDup L -> NoDup L' -> (forall y, y ∈ L' <-> y ∈ L) -> L' ≡ₚ L.
Proof. intros H H' Hm. by apply NoDup_Permutation. Qed.

(** *** Adding nodes and links back *)

Lemma attach_link_spec g l :
  links (attach_link g l) = <[link_id l := l]> (links g) /\
  global_token_limit (attach_link g l) = global_token_limit g /\
  nodes_track true (fun k L => attach_ids k L [l]) g (attach_link g l).
Proof.
  unfold attach_link. cbn [nodes set_links].
  destruct (nodes g !! target_id l) as [t|] eqn:Et.
  - case_bool_decide as Hin.
    + split; [done|split; [done|]]. apply track_same_nodes; [done|].
      intros k m Hm. unfold attach_ids. cbn [foldl]. case_decide as Hk; [|done].
      subst k. rewrite Et in Hm. injection Hm as <-. unfold add_missing. by rewrite bool_decide_true.
    + split; [done|split; [done|]]. intros k. cbn [nodes set_nodes set_links].
      unfold attach_ids. cbn [foldl].
      destruct (decide (target_id l = k)) as [<-|Hk].
      * rewrite lookup_insert_eq, Et. unfold opt_rel, flag_step.
        rewrite strip_set_input_links, is_dirty_set_input_links, input_links_set_input_links.
        unfold add_missing. rewrite bool_decide_false by done. done.
      * rewrite lookup_insert_ne by done. destruct (nodes g !! k); unfold opt_rel, flag_step; done.
  - split; [done|split; [done|]]. apply track_same_nodes; [done|].
    intros k m Hm. unfold attach_ids. cbn [foldl]. case_decide; [|done]. subst k. congruence.
Qed.

Lemma attach_link_marking_spec g l :
  links (attach_link_marking g l) = <[link_id l := l]> (links g) /\
  global_token_limit (attach_link_marking g l) = global_token_limit g /\
  nodes_track false (fun k L => attach_ids k L [l]) g (attach_link_marking g l) /\
  (is_Some (nodes g !! target_id l) -> dirty_at (attach_link_marking g l) (target_id l)) /\
  ((forall m, nodes g !! target_id l = Some m -> is_dirty m = true) ->
   attach_link_marking g l = attach_link g l).
Proof.
  destruct (attach_link_spec g l) as (HL & HG & HT).
  unfold attach_link_marking. destruct (nodes (attach_link g l) !! target_id l) as [t|] eqn:Et.
  - destruct (mark_dirty_raised (attach_link g l) (target_id l)) as (RL & RG & _).
    split; [congruence|split; [congruence|split; [|split]]].
    + eapply track_ext; [|exact (track_trans _ _ _ _ _ _ _ HT (raised_track _ _ (mark_dirty_raised _ _)))].
      intros k m _. done.
    + intros _. apply mark_dirty_marks. by rewrite Et.
    + intros Hd. apply mark_dirty_noop. intros n En. rewrite Et in En. injection En as <-.
      specialize (HT (target_id l)). rewrite Et in HT.
      destruct (nodes g !! target_id l) as [m|] eqn:Em; unfold opt_rel in HT; simpl in HT; [|done].
      destruct HT as (_ & Hf & _). unfold flag_step in Hf. rewrite Hf. by apply Hd.
  - split; [done|split; [done|split; [by apply track_weaken|split]]].
    + intros Hs. apply (track_is_Some _ _ _ _ _ HT) in Hs. rewrite Et in Hs. by destruct Hs.
    + done.
Qed.

Lemma foldl_attach_link_spec ls h :
  links (foldl attach_link h ls) = foldl (fun m l => <[link_id l := l]> m) (links h) ls /\
  global_token_limit (foldl attach_link h ls) = global_token_limit h /\
  nodes_track true (fun k L => attach_ids k L ls) h (foldl attach_link h ls).
Proof.
  revert h. induction ls as [|l ls IH]; intros h; cbn [foldl].
  - split; [done|split; [done|exact (track_refl h)]].
  - destruct (attach_link_spec h l) as (HL & HG & HT).
    destruct (IH (attach_link h l)) as (IL & IG & IT).
    split; [by rewrite IL, HL|split; [congruence|]].
    eapply track_ext; [|exact (track_trans _ _ _ _ _ _ _ HT IT)].
    intros k m _. reflexivity.
Qed.

Lemma foldl_attach_marking_spec ls h :
  links (foldl attach_link_marking h ls) = foldl (fun m l => <[link_id l := l]> m) (links h) ls /\
  global_token_limit (foldl attach_link_marking h ls) = global_token_limit h /\
  nodes_track false (fun k L => attach_ids k L ls) h (foldl attach_link_marking h ls) /\
  (forall l, l ∈ ls -> is_Some (nodes h !! target_id l) ->
     dirty_at (foldl attach_link_marking h ls) (target_id l)) /\
  ((forall l m, l ∈ ls -> nodes h !! target_id l = Some m -> is_dirty m = true) ->
   foldl attach_link_marking h ls = foldl attach_link h ls).
Proof.
  revert h. induction ls as [|l ls IH]; intros h; cbn [foldl].
  - split; [done|split; [done|split; [exact (track_weaken _ _ _ (track_refl h))|split]]].
    + intros l Hl. by apply elem_of_nil in Hl.
    + done.
  - destruct (attach_link_marking_spec h l) as (HL & HG & HT & HD & HE).
    destruct (IH (attach_link_marking h l)) as (IL & IG & IT & ID & _).
    split; [by rewrite IL, HL|split; [congruence|split; [|split]]].
    + eapply track_ext; [|exact (track_trans _ _ _ _ _ _ _ HT IT)].
      intros k m _. reflexivity.
    + intros l' Hl' Hs. apply elem_of_cons in Hl' as [->|Hl'].
      * eapply track_dirty_at; [exact IT|]. by apply HD.
      * apply ID; [done|]. by apply (track_is_Some _ _ _ _ _ HT).
    + intros Hd. rewrite HE by (intros m Em; apply (Hd l m); [apply elem_of_cons; by left|done]).
      destruct (IH (attach_link h l)) as (_ & _ & _ & _ & IE). apply IE.
      intros l' m Hl' Em. destruct (attach_link_spec h l) as (_ & _ & HT1).
      specialize (HT1 (target_id l')). rewrite Em in HT1.
      destruct (nodes h !! target_id l') as [m0|] eqn:E0; unfold opt_rel in HT1; simpl in HT1; [|done].
      destruct HT1 as (_ & Hf & _). unfold flag_step in Hf. rewrite Hf.
      apply (Hd l' m0); [apply elem_of_cons; by right|done].
Qed.

Lemma foldl_add_node_spec ns h :
  links (foldl add_node h ns) = links h /\
  global_token_limit (foldl add_node h ns) = global_token_limit h /\
  (forall k, k ∉ node_id <$> ns -> nodes (foldl add_node h ns) !! k = nodes h !! k) /\
  (NoDup (node_id <$> ns) -> forall n, n ∈ ns -> nodes (foldl add_node h ns) !! node_id n = Some n).
Proof.
  revert h. induction ns as [|n ns IH]; intros h; cbn [foldl].
  - split; [done|split; [done|split; [done|]]]. intros _ n Hn. by apply elem_of_nil in Hn.
  - destruct (IH (add_node h n)) as (IL & IG & IK & IN).
    split; [done|split; [done|split]].
    + intros k Hk. rewrite fmap_cons, elem_of_cons in Hk. rewrite IK by tauto.
      cbn [add_node nodes set_nodes]. apply lookup_insert_ne. intros Heq. apply Hk. by left.
    + intros Hnd n' Hn'. rewrite fmap_cons in Hnd. apply NoDup_cons in Hnd as [Hx Hnd].
      apply elem_of_cons in Hn' as [->|Hn'].
      * rewrite IK by done. cbn [add_node nodes set_nodes]. apply lookup_insert_eq.
      * by apply IN.
Qed.

(** *** Single-field edits *)

Lemma undo_close_refl g : undo_close g g.
Proof.
  split; [done|split; [done|split; [done|]]]. intros k n n' E E'. rewrite E in E'.
  injection E' as <-. split; [done|auto].
Qed.

Lemma redo_close_refl g : redo_close g g.
Proof.
  split; [done|split; [done|split; [done|]]]. intros k n n' E E'. rewrite E in E'.
  by injection E' as <-.
Qed.

Lemma update_node_roundtrip g nid f f' :
  (forall n, nodes g !! nid = Some n -> f' (f n) = n) ->
  update_node (update_node g nid f) nid f' = g.
Proof.
  intros H. unfold update_node. destruct g as [ns ls gt]. cbn [nodes set_nodes links global_token_limit].
  unfold set_nodes. cbn [links global_token_limit]. f_equal.
  apply map_eq. intros k. destruct (decide (k = nid)) as [->|Hk].
  - rewrite !lookup_alter_eq. destruct (ns !! nid) eqn:E; simpl; [|done]. by rewrite H.
  - rewrite !lookup_alter_ne by congruence. done.
Qed.

Lemma update_node_links g nid f : links (update_node g nid f) = links g.
Proof. done. Qed.

Lemma update_node_lookup_eq g nid f : nodes (update_node g nid f) !! nid = f <$> nodes g !! nid.
Proof. apply lookup_alter_eq. Qed.

Lemma update_node_lookup_ne g nid f k : k <> nid -> nodes (update_node g nid f) !! k = nodes g !! k.
Proof. intros Hk. apply lookup_alter_ne. congruence. Qed.

Lemma set_cached_output_twice a b n : set_cached_output a (set_cached_output b n) = set_cached_output a n.
Proof. by destruct n. Qed.

Lemma set_cached_output_same a n : cached_output n = a -> set_cached_output a n = n.
Proof. destruct n; simpl. by intros ->. Qed.

Lemma set_name_twice a b n : set_name a (set_name b n) = set_name a n.
Proof. by destruct n. Qed.

Lemma set_name_same a n : name n = a -> set_name a n = n.
Proof. destruct n; simpl. by intros ->. Qed.

Lemma set_prompt_twice a b n : set_prompt a (set_prompt b n) = set_prompt a n.
Proof. by destruct n. Qed.

Lemma set_prompt_same a n : prompt n = a -> set_prompt a n = n.
Proof. destruct n; simpl. by intros ->. Qed.

Lemma strip_set_prompt a n : strip (set_prompt a n) = set_prompt a (strip n).
Proof. by destruct n. Qed.

Lemma prompt_strip n : prompt (strip n) = prompt n.
Proof. by destruct n. Qed.

Lemma is_dirty_set_prompt a n : is_dirty (set_prompt a n) = is_dirty n.
Proof. by destruct n. Qed.

Lemma input_links_set_prompt a n : input_links (set_prompt a n) = input_links n.
Proof. by destruct n. Qed.

Lemma edit_output_roundtrip g nid old new :
  cmd_pre g (EditOutputCommand nid old new) ->
  let '(g1, c1) := cmd_execute g (EditOutputCommand nid old new) in
  let '(g2, c2) := cmd_undo g1 c1 in
  undo_close g g2 /\ redo_close g1 (cmd_execute g2 c2).1.
Proof.
  intros Hpre. cbn [cmd_execute cmd_undo fst].
  rewrite update_node_roundtrip.
  - split; [apply undo_close_refl|apply redo_close_refl].
  - intros n En. rewrite set_cached_output_twice. apply set_cached_output_same. by apply Hpre.
Qed.

Lemma rename_roundtrip g nid old new :
  cmd_pre g (RenameNodeCommand nid old new) ->
  let '(g1, c1) := cmd_execute g (RenameNodeCommand nid old new) in
  let '(g2, c2) := cmd_undo g1 c1 in
  undo_close g g2 /\ redo_close g1 (cmd_execute g2 c2).1.
Proof.
  intros Hpre. cbn [cmd_execute cmd_undo fst].
  rewrite update_node_roundtrip.
  - split; [apply undo_close_refl|apply redo_close_refl].
  - intros n En. rewrite set_name_twice. apply set_name_same. by apply Hpre.
Qed.

(** *** Moves *)

Lemma move_nodes_spec g md b :
  links (move_nodes g md b) = links g /\
  global_token_limit (move_nodes g md b) = global_token_limit g /\
  forall k, nodes (move_nodes g md b) !! k = (fun n => foldl (move_step b k) n md) <$> nodes g !! k.
Proof.
  unfold move_nodes. revert g. induction md as [|e md IH]; intros g; cbn [foldl].
  - split; [done|split; [done|]]. intros k. by destruct (nodes g !! k).
  - destruct e as [[[[nid ox] oy] nx] ny].
    destruct (IH (update_node g nid (if b then set_pos nx ny else set_pos ox oy))) as (IL & IG & IK).
    split; [done|split; [done|]]. intros k. rewrite IK.
    destruct (decide (k = nid)) as [->|Hk].
    + rewrite update_node_lookup_eq. destruct (nodes g !! nid); [|done]. simpl.
      by rewrite decide_True.
    + rewrite update_node_lookup_ne by done. destruct (nodes g !! k); [|done]. simpl.
      by rewrite decide_False by congruence.
Qed.

Lemma set_pos_restore (n n' : Node) :
  set_pos 0 0 n' = set_pos 0 0 n -> set_pos (pos_x n) (pos_y n) n' = n.
Proof.
  destruct n, n'; unfold set_pos; simpl. intros H. injection H. intros. subst. reflexivity.
Qed.

Lemma set_pos_set_pos a b n : set_pos 0 0 (set_pos a b n) = set_pos 0 0 n.
Proof. by destruct n. Qed.

Lemma move_true_shape k md n :
  set_pos 0 0 (foldl (move_step true k) n md) = set_pos 0 0 n /\
  ((exists ox oy nx ny, (k, ox, oy, nx, ny) ∈ md) \/ foldl (move_step true k) n md = n).
Proof.
  revert n. induction md as [|e md IH]; intros n; cbn [foldl]; [split; [done|by right]|].
  destruct e as [[[[nid ox] oy] nx] ny].
  change (move_step true k n (nid, ox, oy, nx, ny)) with (if decide (nid = k) then set_pos nx ny n else n).
  destruct (decide (nid = k)) as [->|Hk].
  - destruct (IH (set_pos nx ny n)) as [IS _]. split; [by rewrite IS, set_pos_set_pos|].
    left. exists ox, oy, nx, ny. apply elem_of_cons. by left.
  - destruct (IH n) as [IS [(ox' & oy' & nx' & ny' & Hin)|IE]]; split; [done| |done|by right].
    left. exists ox', oy', nx', ny'. apply elem_of_cons. by right.
Qed.

Lemma move_false_restores k md n n' :
  (forall ox oy nx ny, (k, ox, oy, nx, ny) ∈ md -> pos_x n = ox /\ pos_y n = oy) ->
  set_pos 0 0 n' = set_pos 0 0 n ->
  (exists ox oy nx ny, (k, ox, oy, nx, ny) ∈ md) \/ n' = n ->
  foldl (move_step false k) n' md = n.
Proof.
  revert n'. induction md as [|e md IH]; intros n' Hpos Hs Hex; cbn [foldl].
  - destruct Hex as [(ox & oy & nx & ny & Hin)| ->]; [by apply elem_of_nil in Hin|done].
  - destruct e as [[[[nid ox] oy] nx] ny].
    change (move_step false k n' (nid, ox, oy, nx, ny))
      with (if decide (nid = k) then set_pos ox oy n' else n').
    assert (Hpos' : forall ox oy nx ny, (k, ox, oy, nx, ny) ∈ md -> pos_x n = ox /\ pos_y n = oy).
    { intros ? ? ? ? Hin. apply Hpos with nx0 ny0. apply elem_of_cons. by right. }
    destruct (decide (nid = k)) as [->|Hk].
    + destruct (Hpos ox oy nx ny) as [Hx Hy]; [apply elem_of_cons; by left|].
      apply IH; [done|by rewrite set_pos_set_pos|]. right. rewrite <- Hx, <- Hy.
      by apply set_pos_restore.
    + apply IH; [done|done|]. destruct Hex as [(ox' & oy' & nx' & ny' & Hin)| ->]; [|by right].
      apply elem_of_cons in Hin as [Heq|Hin]; [injection Heq; intros; congruence|].
      left. by exists ox', oy', nx', ny'.
Qed.

Lemma move_roundtrip g md :
  cmd_pre g (MoveNodesCommand md) ->
  let '(g1, c1) := cmd_execute g (MoveNodesCommand md) in
  let '(g2, c2) := cmd_undo g1 c1 in
  undo_close g g2 /\ redo_close g1 (cmd_execute g2 c2).1.
Proof.
  intros Hpre. cbn [cmd_execute cmd_undo fst].
  assert (E : move_nodes (move_nodes g md true) md false = g).
  { destruct (move_nodes_spec g md true) as (L1 & G1 & K1).
    destruct (move_nodes_spec (move_nodes g md true) md false) as (L2 & G2 & K2).
    destruct (move_nodes (move_nodes g md true) md false) as [ns2 ls2 gt2] eqn:E2.
    destruct g as [ns ls gt]. simpl in *. f_equal; [|congruence|congruence].
    apply map_eq. intros k. rewrite K2, K1. destruct (ns !! k) as [n|] eqn:En; [|done]. simpl.
    f_equal. destruct (move_true_shape k md n) as [Hs Hex].
    apply move_false_restores; [|done|done].
    intros ox oy nx ny Hin. exact (Hpre k ox oy nx ny n Hin En). }
  rewrite E. split; [apply undo_close_refl|apply redo_close_refl].
Qed.

Lemma edit_prompt_absent g nid t : nodes g !! nid = None -> edit_prompt g nid t = g.
Proof. intros E. unfold edit_prompt. by rewrite E. Qed.

Lemma edit_prompt_dirty g nid t m :
  nodes g !! nid = Some m -> is_dirty m = true -> edit_prompt g nid t = update_node g nid (set_prompt t).
Proof.
  intros E Hd. unfold edit_prompt. rewrite E. apply mark_dirty_noop.
  intros n En. rewrite update_node_lookup_eq, E in En. injection En as <-.
  by rewrite is_dirty_set_prompt.
Qed.

Lemma edit_prompt_roundtrip g nid old new :
  cmd_pre g (EditPromptCommand nid old new) ->
  let '(g1, c1) := cmd_execute g (EditPromptCommand nid old new) in
  let '(g2, c2) := cmd_undo g1 c1 in
  undo_close g g2 /\ redo_close g1 (cmd_execute g2 c2).1.
Proof.
  intros Hpre. cbn [cmd_execute cmd_undo fst].
  destruct (nodes g !! nid) as [n|] eqn:En.
  2:{ rewrite !(edit_prompt_absent g nid _ En). split; [apply undo_close_refl|apply redo_close_refl]. }
  assert (Hold : prompt n = old) by (by apply Hpre).
  set (gu := update_node g nid (set_prompt new)).
  assert (E1 : edit_prompt g nid new = mark_dirty gu nid) by (unfold edit_prompt; by rewrite En).
  rewrite E1. set (g1 := mark_dirty gu nid).
  assert (HR : raised gu g1) by apply mark_dirty_raised.
  assert (HT := raised_track _ _ HR).
  assert (Hu : nodes gu !! nid = Some (set_prompt new n)) by (unfold gu; by rewrite update_node_lookup_eq, En).
  destruct (mark_dirty_marks gu nid ltac:(by rewrite Hu)) as (m1 & Em1 & Dm1). fold g1 in Em1.
  assert (Hm1 : strip m1 = strip (set_prompt new n) /\ input_links m1 = input_links (set_prompt new n)).
  { specialize (HT nid). rewrite Hu, Em1 in HT. destruct HT as (Hs & _ & Hi). done. }
  destruct Hm1 as [Hs1 Hi1].
  assert (Hp1 : prompt m1 = new).
  { rewrite <- prompt_strip, Hs1, prompt_strip. by destruct n. }
  rewrite (edit_prompt_dirty g1 nid old m1 Em1 Dm1).
  assert (Em2 : nodes (update_node g1 nid (set_prompt old)) !! nid = Some (set_prompt old m1))
    by (by rewrite update_node_lookup_eq, Em1).
  rewrite (edit_prompt_dirty _ nid new _ Em2 ltac:(by rewrite is_dirty_set_prompt)).
  rewrite update_node_roundtrip.
  2:{ intros m Em. rewrite Em1 in Em. injection Em as <-. rewrite set_prompt_twice.
      by apply set_prompt_same. }
  split; [|apply redo_close_refl].
  destruct HR as (HL & HG & _).
  apply undo_close_intro; [done|done|]. intros k.
  destruct (decide (k = nid)) as [->|Hk].
  - rewrite En, Em2. unfold opt_rel. split; [|split].
    + rewrite strip_set_prompt, Hs1, strip_set_prompt, set_prompt_twice, <- strip_set_prompt.
      by rewrite set_prompt_same.
    + intros _. by rewrite is_dirty_set_prompt.
    + rewrite input_links_set_prompt, Hi1, input_links_set_prompt. done.
  - rewrite update_node_lookup_ne by done. specialize (HT k).
    unfold gu in HT. rewrite update_node_lookup_ne in HT by done.
    destruct (nodes g !! k), (nodes g1 !! k); unfold opt_rel in HT |- *; try done.
    destruct HT as (Hs & Hd & Hi). unfold flag_step in Hd. split; [done|split; [done|]].
    by rewrite Hi.
Qed.

(** *** Links *)

Lemma track_lookup e f g g' k m' :
  nodes_track e f g g' -> nodes g' !! k = Some m' ->
  exists m, nodes g !! k = Some m /\ strip m' = strip m /\ flag_step e (is_dirty m) (is_dirty m') /\
            input_links m' = f k (input_links m).
Proof.
  intros H E'. specialize (H k). rewrite E' in H.
  destruct (nodes g !! k) as [m|]; unfold opt_rel in H; [|done]. by exists m.
Qed.

Lemma notin_list_remove x L : NoDup L -> x ∉ list_remove x L.
Proof. intros Hnd Hx. apply elem_of_list_remove in Hx as [_ ?]; [done|done]. Qed.

Lemma add_link_roundtrip g l :
  cmd_pre g (AddLinkCommand l) ->
  let '(g1, c1) := cmd_execute g (AddLinkCommand l) in
  let '(g2, c2) := cmd_undo g1 c1 in
  undo_close g g2 /\ redo_close g1 (cmd_execute g2 c2).1.
Proof.
  intros [Hfresh Hnot]. cbn [cmd_execute cmd_undo fst].
  destruct (attach_link_marking_spec g l) as (AL & AG & AT & AD & _).
  set (g1 := attach_link_marking g l) in *.
  assert (El1 : links g1 !! link_id l = Some l) by (rewrite AL; apply lookup_insert_eq).
  destruct (remove_link_spec g1 (link_id l)) as (RL & RG & _ & _ & RE).
  assert (RT : nodes_track true (fun k L => drop_link (links g1) k L (link_id l)) g1
                 (remove_link g1 (link_id l))).
  { apply RE. intros l' m El' Em. rewrite El1 in El'. injection El' as <-.
    destruct (AD (proj2 (track_is_Some _ _ _ _ _ AT) ltac:(by rewrite Em))) as (m' & Em' & Dm').
    congruence. }
  set (g2 := remove_link g1 (link_id l)) in *.
  assert (HL2 : links g2 = links g) by (rewrite RL, AL; by apply delete_insert_id).
  assert (Hdrop : forall k L, drop_link (links g1) k L (link_id l) =
                              if decide (target_id l = k) then list_remove (link_id l) L else L).
  { intros k L. unfold drop_link. by rewrite El1. }
  split.
  - apply (track_undo_close _ _ _ _ HL2 ltac:(congruence) (track_trans _ _ _ _ _ _ _ AT RT)).
    intros k m Em. rewrite Hdrop. unfold attach_ids. cbn [foldl].
    destruct (decide (target_id l = k)) as [<-|Hk]; [|done].
    unfold add_missing. rewrite bool_decide_false by (by apply Hnot).
    by rewrite list_remove_app_notin by (by apply Hnot).
  - destruct (attach_link_marking_spec g2 l) as (BL & BG & _ & _ & BE).
    rewrite BE.
    2:{ intros m Em. destruct (track_lookup _ _ _ _ _ _ RT Em) as (m1 & Em1 & _ & Hf & _).
        unfold flag_step in Hf. rewrite Hf.
        destruct (AD (proj2 (track_is_Some _ _ _ _ _ AT) ltac:(by rewrite Em1))) as (m' & Em' & Dm').
        congruence. }
    destruct (attach_link_spec g2 l) as (CL & CG & CT).
    apply (track_redo_close _ _ _ ltac:(rewrite CL, HL2, AL; done) ltac:(congruence)
             (track_trans _ _ _ _ _ _ _ RT CT)).
    intros k m1 Em1. destruct (track_lookup _ _ _ _ _ _ AT Em1) as (m & Em & _ & _ & Hi).
    rewrite Hi, Hdrop. unfold attach_ids. cbn [foldl].
    destruct (decide (target_id l = k)) as [<-|Hk]; [|done].
    unfold add_missing. rewrite (bool_decide_false (link_id l ∈ input_links m)) by (by apply Hnot).
    rewrite list_remove_app_notin by (by apply Hnot).
    by rewrite bool_decide_false by (by apply Hnot).
Qed.

Lemma delete_link_roundtrip g l :
  graph_wf g -> cmd_pre g (DeleteLinkCommand l) ->
  let '(g1, c1) := cmd_execute g (DeleteLinkCommand l) in
  let '(g2, c2) := cmd_undo g1 c1 in
  undo_close g g2 /\ redo_close g1 (cmd_execute g2 c2).1.
Proof.
  intros [Hwn Hwl] El. cbn [cmd_execute cmd_undo fst] in *.
  destruct (Hwl _ _ El) as (_ & _ & t & Et & Hin).
  assert (Hndt : NoDup (input_links t)) by (apply (Hwn _ _ Et)).
  destruct (remove_link_spec g (link_id l)) as (RL & RG & RT & RD & _).
  set (g1 := remove_link g (link_id l)) in *.
  assert (Hd1 : dirty_at g1 (target_id l)) by (apply (RD l El); by rewrite Et).
  destruct (attach_link_marking_spec g1 l) as (_ & _ & _ & _ & AE).
  rewrite AE by (intros m Em; destruct Hd1 as (m' & Em' & D'); congruence).
  destruct (attach_link_spec g1 l) as (AL & AG & AT).
  set (g2 := attach_link g1 l) in *.
  assert (HL2 : links g2 = links g) by (rewrite AL, RL; by apply insert_delete_id).
  assert (Hdrop : forall k L, drop_link (links g) k L (link_id l) =
                              if decide (target_id l = k) then list_remove (link_id l) L else L).
  { intros k L. unfold drop_link. by rewrite El. }
  split.
  - apply (track_undo_close _ _ _ _ HL2 ltac:(congruence) (track_trans _ _ _ _ _ _ _ RT AT)).
    intros k m Em. rewrite Hdrop. unfold attach_ids. cbn [foldl].
    destruct (decide (target_id l = k)) as [<-|Hk]; [|done].
    rewrite Et in Em. injection Em as <-.
    unfold add_missing. rewrite bool_decide_false by (by apply notin_list_remove).
    rewrite <- Permutation_cons_append. by apply list_remove_perm.
  - destruct (remove_link_spec g2 (link_id l)) as (SL & SG & _ & _ & SE).
    assert (ST : nodes_track true (fun k L => drop_link (links g2) k L (link_id l)) g2
                   (remove_link g2 (link_id l))).
    { apply SE. intros l' m El' Em. rewrite HL2, El in El'. injection El' as <-.
      destruct (track_lookup _ _ _ _ _ _ AT Em) as (m1 & Em1 & _ & Hf & _).
      unfold flag_step in Hf. rewrite Hf. destruct Hd1 as (m' & Em' & D'). congruence. }
    apply (track_redo_close _ _ _ ltac:(rewrite SL, HL2, RL; done) ltac:(congruence)
             (track_trans _ _ _ _ _ _ _ AT ST)).
    intros k m1 Em1. rewrite HL2, Hdrop. unfold attach_ids. cbn [foldl].
    destruct (decide (target_id l = k)) as [<-|Hk]; [|done].
    destruct (track_lookup _ _ _ _ _ _ RT Em1) as (m & Em & _ & _ & Hi).
    rewrite Et in Em. injection Em as <-. rewrite Hi, Hdrop, decide_True by done.
    unfold add_missing. rewrite bool_decide_false by (by apply notin_list_remove).
    rewrite list_remove_app_notin; [done|]. by apply notin_list_remove.
Qed.

(** *** Adding a node *)

Lemma wf_no_touch g x :
  graph_wf g -> nodes g !! x = None -> forall y l, links g !! y = Some l -> ~ touches [x] l.
Proof.
  intros [_ Hwl] Hx y l El Ht. destruct (Hwl y l El) as (_ & Hs & t & Et & _).
  apply touches_single in Ht as [Ht|Ht].
  - rewrite Ht, Hx in Hs. by destruct Hs.
  - rewrite Ht, Hx in Et. discriminate.
Qed.

Lemma filter_untouched_id (ids : list string) (m : gmap string Link) :
  (forall y l, m !! y = Some l -> ~ touches ids l) ->
  filter (fun kl : string * Link => ~ touches ids kl.2) m = m.
Proof.
  intros H. apply map_eq. intros i. rewrite lookup_filter_untouched.
  destruct (m !! i) as [l|] eqn:E; [|done]. rewrite decide_False; [done|]. by apply (H i).
Qed.

Lemma add_node_roundtrip g n :
  graph_wf g -> cmd_pre g (AddNodeCommand n) ->
  let '(g1, c1) := cmd_execute g (AddNodeCommand n) in
  let '(g2, c2) := cmd_undo g1 c1 in
  undo_close g g2 /\ redo_close g1 (cmd_execute g2 c2).1.
Proof.
  intros Hwf Hx. cbn [cmd_execute cmd_undo cmd_pre] in *.
  set (x := node_id n) in *. set (g1 := add_node g n).
  assert (Hn1 : nodes g1 !! x = Some n) by apply lookup_insert_eq.
  assert (Hk1 : forall k, k <> x -> nodes g1 !! k = nodes g !! k).
  { intros k Hk. apply lookup_insert_ne. intros Heq. apply Hk. symmetry. exact Heq. }
  assert (HL1 : links g1 = links g) by done.
  assert (Hnt : forall y l, links g1 !! y = Some l -> ~ touches [x] l).
  { rewrite HL1. by apply wf_no_touch. }
  destruct (remove_node_spec g1 x) as (R0 & RL & RG & RX & RS & _ & RE).
  rewrite Hn1 in R0.
  assert (RE' := RE ltac:(intros y l m El Hs; exfalso; apply (Hnt y l El); apply touches_single; by left)).
  destruct (remove_node g1 x) as [g2 v] eqn:E2. simpl in R0, RL, RG, RX, RS, RE'. subst v.
  simpl. rewrite filter_untouched_id in RL by done.
  assert (Hsurv : forall k m m', k <> x -> nodes g !! k = Some m -> nodes g2 !! k = Some m' ->
            strip m' = strip m /\ is_dirty m' = is_dirty m /\ input_links m' ≡ₚ input_links m).
  { intros k m m' Hk Em Em'. specialize (RS k Hk). specialize (RE' k Hk).
    rewrite Hk1, Em, Em' in RS by done. rewrite Hk1, Em, Em' in RE' by done.
    destruct RS as (Hs & _ & Hi). split; [done|split; [done|]].
    destruct Hwf as [Hwn _]. destruct (Hwn k m Em) as [_ Hnd].
    destruct (Hi Hnd) as [Hnd' Hm]. apply NoDup_perm_of_elem; [done|done|].
    intros y. rewrite Hm. split; [tauto|]. intros Hy. split; [done|].
    intros (l & El & _ & Ht). by apply (Hnt y l El). }
  split.
  - apply undo_close_intro; [by rewrite RL|done|]. intros k.
    destruct (decide (k = x)) as [->|Hk].
    + by rewrite Hx, RX.
    + specialize (RS k Hk). rewrite Hk1 in RS by done.
      destruct (nodes g !! k) as [m|] eqn:Em, (nodes g2 !! k) as [m'|] eqn:Em';
        unfold opt_rel in RS |- *; try done.
      destruct (Hsurv k m m' Hk Em Em') as (Hs & Hd & Hi). split; [done|split; [|done]].
      by rewrite Hd.
  - apply redo_close_intro; [cbn [add_node links set_nodes]; rewrite RL; done|done|]. intros k.
    cbn [add_node nodes set_nodes].
    destruct (decide (k = x)) as [->|Hk].
    + fold x. rewrite lookup_insert_eq, Hn1. unfold opt_rel. done.
    + rewrite lookup_insert_ne by (unfold x in Hk; congruence). rewrite Hk1 by done.
      specialize (RS k Hk). rewrite Hk1 in RS by done.
      destruct (nodes g !! k) as [m|] eqn:Em, (nodes g2 !! k) as [m'|] eqn:Em';
        unfold opt_rel in RS |- *; try done.
      destruct (Hsurv k m m' Hk Em Em') as (Hs & Hd & Hi). done.
Qed.

(** *** Deleting nodes *)

Lemma forall2_elem_l {A B} (P : A -> B -> Prop) xs ys x :
  Forall2 P xs ys -> x ∈ xs -> exists y, y ∈ ys /\ P x y.
Proof.
  induction 1 as [|x' y' xs ys Hp _ IH]; intros Hx; [by apply elem_of_nil in Hx|].
  apply elem_of_cons in Hx as [->|Hx].
  - exists y'. split; [apply elem_of_cons; by left|done].
  - destruct (IH Hx) as (y & Hy & Hp'). exists y. split; [apply elem_of_cons; by right|done].
Qed.

Lemma forall2_conj {A B} (P Q : A -> B -> Prop) xs ys :
  Forall2 P xs ys -> Forall2 Q xs ys -> Forall2 (fun x y => P x y /\ Q x y) xs ys.
Proof. induction 1; intros HQ; inversion HQ; subst; constructor; auto. Qed.

Lemma forall2_fmap_eq {A B C} (f : A -> C) (h : B -> C) xs ys :
  Forall2 (fun x y => h y = f x) xs ys -> h <$> ys = f <$> xs.
Proof. induction 1 as [|x y xs ys H _ IH]; [done|]. by rewrite !fmap_cons, IH, H. Qed.

Lemma foldl_insert_link_notin (ls : list Link) (m : gmap string Link) i :
  i ∉ link_id <$> ls -> foldl (fun m l => <[link_id l := l]> m) m ls !! i = m !! i.
Proof.
  revert m. induction ls as [|l ls IH]; intros m Hi; cbn [foldl]; [done|].
  rewrite fmap_cons, elem_of_cons in Hi. rewrite IH by tauto.
  apply lookup_insert_ne. intros Heq. apply Hi. by left.
Qed.

Lemma foldl_insert_link_in (ls : list Link) (m : gmap string Link) l :
  NoDup (link_id <$> ls) -> l ∈ ls ->
  foldl (fun m l => <[link_id l := l]> m) m ls !! link_id l = Some l.
Proof.
  revert m. induction ls as [|l' ls IH]; intros m Hnd Hl; [by apply elem_of_nil in Hl|]. cbn [foldl].
  rewrite fmap_cons in Hnd. apply NoDup_cons in Hnd as [Hx Hnd].
  apply elem_of_cons in Hl as [->|Hl].
  - rewrite foldl_insert_link_notin by done. apply lookup_insert_eq.
  - by apply IH.
Qed.

Lemma cut_dec g ids k y : cut g ids k y \/ ~ cut g ids k y.
Proof.
  unfold cut. destruct (links g !! y) as [l|] eqn:E.
  - destruct (decide (target_id l = k /\ touches ids l)) as [H|H].
    + left. exists l. tauto.
    + right. intros (l' & E' & H'). injection E' as <-. tauto.
  - right. intros (l' & E' & _). discriminate.
Qed.

Lemma delete_nodes_roundtrip g ns ls :
  graph_wf g -> cmd_pre g (DeleteNodesCommand ns ls) ->
  let '(g1, c1) := cmd_execute g (DeleteNodesCommand ns ls) in
  let '(g2, c2) := cmd_undo g1 c1 in
  undo_close g g2 /\ redo_close g1 (cmd_execute g2 c2).1.
Proof.
  intros Hwf (P1 & P2 & P3 & P4). pose proof Hwf as [Hwn Hwl].
  cbn [cmd_execute]. pose proof (remove_nodes_spec ns g P1) as HS.
  destruct (remove_nodes g ns) as [g1 vs] eqn:E1. cbn [fst snd cmd_undo cmd_execute] in *.
  destruct HS as (SL & SG & SX & SS & SF & SA & SQ).
  set (ids := node_id <$> ns) in *.
  assert (SP : Forall2 (fun n v => node_id v = node_id n) ns vs).
  { apply (forall2_impl_elem _ _ _ _ SF). intros n v Hn Hv. unfold snapshot_ok in Hv.
    rewrite (P2 n Hn) in Hv. destruct Hv as (Hs & _). by apply strip_node_id. }
  assert (D1 : node_id <$> vs = ids) by (by apply forall2_fmap_eq).
  assert (Hndv : NoDup (node_id <$> vs)) by (by rewrite D1).
  destruct (foldl_add_node_spec vs g1) as (AL & AG & AK & AN).
  set (ga := foldl add_node g1 vs) in *.
  rewrite D1 in AK. specialize (AN Hndv).
  destruct (foldl_attach_link_spec ls ga) as (BL & BG & BT).
  set (g2 := foldl attach_link ga ls) in *.
  assert (Hga_in : forall k, k ∈ ids -> exists n v, n ∈ ns /\ v ∈ vs /\ node_id n = k /\
            nodes g !! k = Some n /\ nodes ga !! k = Some v /\ snapshot_ok g ids n v).
  { intros k Hk. unfold ids in Hk. apply list_elem_of_fmap in Hk as (n & -> & Hn).
    destruct (forall2_elem_l _ _ _ _ (forall2_conj _ _ _ _ SF SP) Hn) as (v & Hv & Hok & Hid).
    exists n, v. split; [done|split; [done|split; [done|split; [by apply P2|split; [|done]]]]].
    rewrite <- Hid. by apply AN. }
  assert (Hcut : forall k m y, nodes g !! k = Some m ->
            ((exists l, l ∈ ls /\ target_id l = k /\ link_id l = y) <-> cut g ids k y) /\
            (cut g ids k y -> y ∈ input_links m)).
  { intros k m y Em. split; [split|].
    - intros (l & Hl & Ht & <-). apply P4 in Hl as [El Htc]. by exists l.
    - intros (l & El & Ht & Htc). destruct (Hwl y l El) as (Hid & _).
      exists l. split; [apply P4; rewrite Hid; split; done|split; done].
    - intros (l & El & Ht & Htc). destruct (Hwl y l El) as (_ & _ & t & Et & Hin).
      rewrite Ht, Em in Et. by injection Et as <-. }
  assert (HL2 : links g2 = links g).
  { rewrite BL, AL, SL. apply map_eq. intros i.
    destruct (decide (i ∈ link_id <$> ls)) as [Hi|Hi].
    - apply list_elem_of_fmap in Hi as (l & -> & Hl). rewrite foldl_insert_link_in by done.
      symmetry. by apply P4.
    - rewrite foldl_insert_link_notin by done. rewrite lookup_filter_untouched.
      destruct (links g !! i) as [l|] eqn:El; [|done].
      rewrite decide_False; [done|]. intros Ht. apply Hi. destruct (Hwl i l El) as (Hid & _).
      apply list_elem_of_fmap. exists l. split; [by rewrite Hid|]. apply P4. rewrite Hid. by split. }
  split.
  - apply undo_close_intro; [done|congruence|]. intros k. specialize (BT k).
    destruct (decide (k ∈ ids)) as [Hk|Hk].
    + destruct (Hga_in k Hk) as (n & v & Hn & Hv & Hnk & Eg & Ega & Hok).
      rewrite Ega in BT. rewrite Eg. destruct (nodes g2 !! k) as [m2|]; unfold opt_rel in BT |- *; [|done].
      destruct BT as (Hs2 & Hd2 & Hi2). unfold flag_step in Hd2.
      unfold snapshot_ok in Hok. rewrite Hnk, Eg in Hok. destruct Hok as (Hsv & Hdv & Hiv).
      destruct (Hwn k n Eg) as [_ Hndn]. destruct (Hiv Hndn) as (Hndv' & Hsub & Hsup).
      split; [congruence|split; [rewrite Hd2; auto|]].
      destruct (attach_ids_spec k (input_links v) ls Hndv') as [Hnd2 Hm2].
      rewrite Hi2. apply NoDup_perm_of_elem; [done|done|]. intros y. rewrite Hm2.
      destruct (Hcut k n y Eg) as [Hc1 Hc2]. rewrite Hc1. split.
      * intros [Hy|Hy]; [by apply Hsub|by apply Hc2].
      * intros Hy. destruct (cut_dec g ids k y) as [Hc|Hc]; [by right|left; by apply Hsup].
    + rewrite AK in BT by done. specialize (SS k Hk).
      destruct (nodes g !! k) as [m|] eqn:Eg, (nodes g1 !! k) as [m1|], (nodes g2 !! k) as [m2|];
        unfold opt_rel in SS, BT |- *; try done.
      destruct SS as (Hs1 & Hd1 & Hi1). destruct BT as (Hs2 & Hd2 & Hi2). unfold flag_step in Hd2.
      destruct (Hwn k m Eg) as [_ Hndm]. destruct (Hi1 Hndm) as [Hnd1 Hm1].
      destruct (attach_ids_spec k (input_links m1) ls Hnd1) as [Hnd2 Hm2].
      split; [congruence|split; [rewrite Hd2; auto|]].
      rewrite Hi2. apply NoDup_perm_of_elem; [done|done|]. intros y. rewrite Hm2, Hm1.
      destruct (Hcut k m y Eg) as [Hc1 Hc2]. rewrite Hc1.
      destruct (cut_dec g ids k y); tauto.
  - pose proof (remove_nodes_spec vs g2 Hndv) as HT.
    destruct (remove_nodes g2 vs) as [g3 vs'] eqn:E3. cbn [fst snd] in *.
    rewrite D1 in HT. destruct HT as (TL & TG & TX & TS & _ & _ & TQ).
    assert (HQ2 : forall y l m, links g2 !! y = Some l ->
                    src_first ids (source_id l) (target_id l) = true ->
                    nodes g2 !! target_id l = Some m -> is_dirty m = true).
    { intros y l m El Hsf Em. rewrite HL2 in El.
      destruct (track_lookup _ _ _ _ _ _ BT Em) as (ma & Ema & _ & Hfa & _).
      unfold flag_step in Hfa. rewrite Hfa.
      destruct (decide (target_id l ∈ ids)) as [Ht|Ht].
      - destruct (Hga_in _ Ht) as (n & v & Hn & Hv & Hnk & Eg & Ega & _).
        rewrite Ega in Ema. injection Ema as <-.
        destruct (SA y l El Hsf ltac:(by rewrite Eg)) as [_ A2].
        destruct (forall2_elem_l _ _ _ _ (forall2_conj _ _ _ _ A2 SP) Hn) as (v' & Hv' & Hd' & Hid').
        assert (Ev' : nodes ga !! target_id l = Some v') by (rewrite <- Hnk, <- Hid'; by apply AN).
        rewrite Ega in Ev'. injection Ev' as <-. by apply Hd'.
      - rewrite AK in Ema by done.
        assert (Hs : is_Some (nodes g !! target_id l)).
        { specialize (SS _ Ht). rewrite Ema in SS.
          destruct (nodes g !! target_id l); [by eexists|done]. }
        destruct (SA y l El Hsf Hs) as [A1 _]. destruct (A1 Ht) as (m' & Em' & Dm'). congruence. }
    destruct (TQ HQ2) as [TQ1 _].
    apply redo_close_intro; [rewrite TL, HL2, SL; done|congruence|]. intros k.
    destruct (decide (k ∈ ids)) as [Hk|Hk].
    + rewrite SX, TX by done. unfold opt_rel. done.
    + specialize (TS k Hk). specialize (TQ1 k Hk). specialize (SS k Hk). specialize (BT k).
      rewrite AK in BT by done.
      destruct (nodes g !! k) as [m|] eqn:Eg, (nodes g1 !! k) as [m1|], (nodes g2 !! k) as [m2|],
        (nodes g3 !! k) as [m3|]; unfold opt_rel in SS, BT, TS, TQ1 |- *; try done.
      destruct SS as (Hs1 & Hd1 & Hi1). destruct BT as (Hs2 & Hd2 & Hi2). unfold flag_step in Hd2.
      destruct TS as (Hs3 & Hd3 & Hi3).
      destruct (Hwn k m Eg) as [_ Hndm]. destruct (Hi1 Hndm) as [Hnd1 Hm1].
      destruct (attach_ids_spec k (input_links m1) ls Hnd1) as [Hnd2 Hm2].
      destruct (Hi3 ltac:(by rewrite Hi2)) as [Hnd3 Hm3].
      split; [congruence|split; [congruence|]].
      apply NoDup_perm_of_elem; [done|done|]. intros y. rewrite Hm3, Hi2, Hm2.
      assert (Hc2eq : cut g2 ids k y <-> cut g ids k y) by (unfold cut; by rewrite HL2).
      rewrite Hc2eq. destruct (Hcut k m y Eg) as [Hc1 _]. rewrite Hc1, Hm1.
      destruct (cut_dec g ids k y); tauto.
Qed.

(** *** Pasting nodes and links *)

Lemma src_first_in ids s t : src_first ids s t = true -> s ∈ ids.
Proof.
  induction ids as [|x ids IH]; cbn [src_first]; [done|].
  destruct (decide (x = t)); [done|]. destruct (decide (x = s)) as [->|_]; intros H.
  - apply elem_of_cons. by left.
  - apply elem_of_cons. right. by apply IH.
Qed.

Lemma foldl_insert_link_some (ls : list Link) (m : gmap string Link) i l :
  foldl (fun m l => <[link_id l := l]> m) m ls !! i = Some l ->
  (l ∈ ls /\ link_id l = i) \/ m !! i = Some l.
Proof.
  revert m. induction ls as [|l' ls IH]; intros m E; cbn [foldl] in E; [by right|].
  destruct (IH _ E) as [[Hl Hi]|E'].
  - left. split; [apply elem_of_cons; by right|done].
  - destruct (decide (link_id l' = i)) as [<-|Hne].
    + rewrite lookup_insert_eq in E'. injection E' as <-. left. split; [apply elem_of_cons; by left|done].
    + rewrite lookup_insert_ne in E' by done. by right.
Qed.

Lemma paste_roundtrip g ns ls :
  graph_wf g -> cmd_pre g (PasteNodesAndLinksCommand ns ls) ->
  let '(g1, c1) := cmd_execute g (PasteNodesAndLinksCommand ns ls) in
  let '(g2, c2) := cmd_undo g1 c1 in
  undo_close g g2 /\ redo_close g1 (cmd_execute g2 c2).1.
Proof.
  intros Hwf (P1 & P2 & P3 & P4). pose proof Hwf as [Hwn Hwl].
  cbn [cmd_execute cmd_undo].
  destruct (foldl_add_node_spec ns g) as (AL & AG & AK & AN). specialize (AN P1).
  set (ga := foldl add_node g ns) in *.
  destruct (foldl_attach_marking_spec ls ga) as (BL & BG & BT & BD & _).
  set (g1 := foldl attach_link_marking ga ls) in *.
  pose proof (remove_nodes_spec ns g1 P1) as HS.
  destruct (remove_nodes g1 ns) as [g2 vs] eqn:E2. cbn [fst snd cmd_execute] in *.
  destruct HS as (SL & SG & SX & SS & SF & SA & SQ).
  set (ids := node_id <$> ns) in *.
  assert (Hfresh : forall k, k ∈ ids -> nodes g !! k = None).
  { intros k Hk. unfold ids in Hk. apply list_elem_of_fmap in Hk as (n & -> & Hn). by apply P2. }
  assert (Hnt : forall y l, links g !! y = Some l -> ~ touches ids l).
  { intros y l El [Ht|Ht]; destruct (Hwl y l El) as (_ & Hsrc & t & Et & _).
    - rewrite (Hfresh _ Ht) in Hsrc. by destruct Hsrc.
    - rewrite (Hfresh _ Ht) in Et. discriminate. }
  assert (HL1 : links g1 = foldl (fun m l => <[link_id l := l]> m) (links g) ls) by (by rewrite BL, AL).
  assert (Hcut1 : forall k y, cut g1 ids k y <-> exists l, l ∈ ls /\ target_id l = k /\ link_id l = y).
  { intros k y. unfold cut. rewrite HL1. split.
    - intros (l & El & Ht & Htc). apply foldl_insert_link_some in El as [[Hl Hi]|El].
      + by exists l.
      + by destruct (Hnt y l El).
    - intros (l & Hl & Ht & <-). exists l. split; [by apply foldl_insert_link_in|split; [done|]].
      destruct (P4 l Hl) as (_ & _ & Ht' & _). by right. }
  assert (HL2 : links g2 = links g).
  { rewrite SL, HL1. apply map_eq. intros i. rewrite lookup_filter_untouched.
    destruct (decide (i ∈ link_id <$> ls)) as [Hi|Hi].
    - apply list_elem_of_fmap in Hi as (l & -> & Hl). rewrite foldl_insert_link_in by done.
      cbn beta iota. destruct (P4 l Hl) as (Eg & Hs & _). rewrite Eg, decide_True; [done|by left].
    - rewrite foldl_insert_link_notin by done. destruct (links g !! i) as [l|] eqn:El; [|done].
      cbn beta iota. rewrite decide_False; [done|]. by apply (Hnt i). }
  assert (HQ1 : forall y l m, links g1 !! y = Some l ->
                  src_first ids (source_id l) (target_id l) = true ->
                  nodes g1 !! target_id l = Some m -> is_dirty m = true).
  { intros y l m El Hsf Em. apply src_first_in in Hsf. rewrite HL1 in El.
    apply foldl_insert_link_some in El as [[Hl _]|El].
    - destruct (P4 l Hl) as (_ & _ & Ht & _). unfold ids in Ht.
      apply list_elem_of_fmap in Ht as (n & Ht & Hn).
      destruct (BD l Hl) as (m' & Em' & Dm'); [rewrite Ht, AN by done; by eexists|]. congruence.
    - exfalso. apply (Hnt y l El). by left. }
  destruct (SQ HQ1) as [SQ1 SQ2].
  assert (SP : Forall2 (fun n v => node_id v = node_id n) ns vs).
  { apply (forall2_impl_elem _ _ _ _ SF). intros n v Hn Hv. unfold snapshot_ok in Hv.
    specialize (BT (node_id n)). rewrite AN in BT by done.
    destruct (nodes g1 !! node_id n) as [m1|]; unfold opt_rel in BT; [|done].
    destruct BT as (Hs1 & _). destruct Hv as (Hs & _). apply strip_node_id. congruence. }
  assert (D1 : node_id <$> vs = ids) by (by apply forall2_fmap_eq).
  assert (Hndv : NoDup (node_id <$> vs)) by (by rewrite D1).
  destruct (foldl_add_node_spec vs g2) as (CL & CG & CK & CN).
  rewrite D1 in CK. specialize (CN Hndv).
  set (gb := foldl add_node g2 vs) in *.
  destruct (foldl_attach_marking_spec ls gb) as (_ & _ & _ & _ & DE).
  rewrite DE.
  2:{ intros l m Hl Em. destruct (P4 l Hl) as (_ & _ & Ht & _). unfold ids in Ht.
      apply list_elem_of_fmap in Ht as (n & Ht & Hn).
      destruct (forall2_elem_l _ _ _ _ (forall2_conj _ _ _ _ SQ2 SP) Hn) as (v & Hv & Hdv & Hid).
      assert (Ev : nodes gb !! target_id l = Some v) by (rewrite Ht, <- Hid; by apply CN).
      rewrite Ev in Em. injection Em as <-.
      destruct (BD l Hl) as (m1 & Em1 & Dm1); [rewrite Ht, AN by done; by eexists|].
      rewrite Ht in Em1. by rewrite (Hdv m1 Em1). }
  destruct (foldl_attach_link_spec ls gb) as (EL & EG & ET).
  set (g3 := foldl attach_link gb ls) in *.
  split.
  - apply undo_close_intro; [done|congruence|]. intros k.
    destruct (decide (k ∈ ids)) as [Hk|Hk].
    + rewrite (Hfresh k Hk), SX by done. unfold opt_rel. done.
    + specialize (SS k Hk). specialize (BT k). rewrite AK in BT by done.
      destruct (nodes g !! k) as [m|] eqn:Eg, (nodes g1 !! k) as [m1|], (nodes g2 !! k) as [m2|];
        unfold opt_rel in SS, BT |- *; try done.
      destruct BT as (Hs1 & Hd1 & Hi1). unfold flag_step in Hd1. destruct SS as (Hs2 & Hd2 & Hi2).
      destruct (Hwn k m Eg) as [_ Hndm].
      destruct (attach_ids_spec k (input_links m) ls Hndm) as [Hnd1 Hm1]. rewrite <- Hi1 in Hnd1, Hm1.
      destruct (Hi2 Hnd1) as [Hnd2 Hm2].
      split; [congruence|split; [auto|]].
      apply NoDup_perm_of_elem; [done|done|]. intros y. rewrite Hm2, Hcut1, Hm1.
      assert (HC : ~ exists l, l ∈ ls /\ target_id l = k /\ link_id l = y).
      { intros (l & Hl & Ht & _). destruct (P4 l Hl) as (_ & _ & Ht' & _). rewrite Ht in Ht'. done. }
      tauto.
  - apply redo_close_intro; [rewrite EL, CL, HL2, HL1; done|congruence|]. intros k.
    destruct (decide (k ∈ ids)) as [Hk|Hk].
    + pose proof Hk as Hk'. unfold ids in Hk'. apply list_elem_of_fmap in Hk' as (n & -> & Hn).
      destruct (forall2_elem_l _ _ _ _ (forall2_conj _ _ _ _ (forall2_conj _ _ _ _ SF SQ2) SP) Hn)
        as (v & Hv & (Hok & Hdv) & Hid).
      assert (Ecb : nodes gb !! node_id n = Some v) by (rewrite <- Hid; by apply CN).
      specialize (BT (node_id n)). rewrite AN in BT by done. specialize (ET (node_id n)). rewrite Ecb in ET.
      unfold snapshot_ok in Hok.
      destruct (nodes g1 !! node_id n) as [m1|] eqn:E1, (nodes g3 !! node_id n) as [m3|];
        unfold opt_rel in BT, ET |- *; try done.
      destruct BT as (Hs1 & _ & Hi1). destruct ET as (Hs3 & Hd3 & Hi3). unfold flag_step in Hd3.
      destruct Hok as (Hsv & _ & Hiv). specialize (Hdv m1 eq_refl).
      destruct (P2 n Hn) as [_ Hndn].
      destruct (attach_ids_spec (node_id n) (input_links n) ls Hndn) as [Hnd1 Hm1].
      rewrite <- Hi1 in Hnd1, Hm1.
      destruct (Hiv Hnd1) as (Hndv' & Hsub & Hsup).
      destruct (attach_ids_spec (node_id n) (input_links v) ls Hndv') as [Hnd3 Hm3].
      rewrite <- Hi3 in Hnd3, Hm3.
      split; [congruence|split; [congruence|]].
      apply NoDup_perm_of_elem; [done|done|]. intros y. rewrite Hm3. split.
      * intros [Hy|Hy]; [by apply Hsub|apply Hm1; by right].
      * intros Hy. destruct (cut_dec g1 ids (node_id n) y) as [Hc|Hc].
        -- right. by apply Hcut1.
        -- left. by apply Hsup.
    + specialize (BT k). rewrite AK in BT by done. specialize (SS k Hk). specialize (SQ1 k Hk).
      specialize (ET k). rewrite CK in ET by done.
      destruct (nodes g !! k) as [m|] eqn:Eg, (nodes g1 !! k) as [m1|], (nodes g2 !! k) as [m2|],
        (nodes g3 !! k) as [m3|]; unfold opt_rel in BT, SS, SQ1, ET |- *; try done.
      destruct BT as (Hs1 & _ & Hi1). destruct SS as (Hs2 & _ & Hi2).
      destruct ET as (Hs3 & Hd3 & Hi3). unfold flag_step in Hd3.
      destruct (Hwn k m Eg) as [_ Hndm].
      destruct (attach_ids_spec k (input_links m) ls Hndm) as [Hnd1 Hm1]. rewrite <- Hi1 in Hnd1, Hm1.
      destruct (Hi2 Hnd1) as [Hnd2 Hm2].
      destruct (attach_ids_spec k (input_links m2) ls Hnd2) as [Hnd3 Hm3]. rewrite <- Hi3 in Hnd3, Hm3.
      split; [congruence|split; [congruence|]].
      apply NoDup_perm_of_elem; [done|done|]. intros y. rewrite Hm3, Hm2.
      pose proof (cut_dec g1 ids k y) as Hc. rewrite Hcut1 in Hc |- *. specialize (Hm1 y). tauto.
Qed.

(** *** All commands *)

Lemma command_roundtrip g c :
  graph_wf g -> cmd_pre g c ->
  let '(g1, c1) := cmd_execute g c in
  let '(g2, c2) := cmd_undo g1 c1 in
  undo_close g g2 /\ redo_close g1 (cmd_execute g2 c2).1.
Proof.
  intros Hwf Hpre. destruct c.
  - by apply add_node_roundtrip.
  - by apply delete_nodes_roundtrip.
  - by apply move_roundtrip.
  - by apply add_link_roundtrip.
  - by apply delete_link_roundtrip.
  - by apply edit_prompt_roundtrip.
  - by apply edit_output_roundtrip.
  - by apply rename_roundtrip.
  - by apply paste_roundtrip.
Qed.

Lemma pop_last_snoc {A} (l : list A) x : pop_last (l ++ [x]) = Some (l, x).
Proof. unfold pop_last. rewrite rev_app_distr. cbn [rev app]. by rewrite rev_involutive. Qed.

Lemma cm_execute_stack g cm c :
  (1 <= max_stack_size cm)%Z ->
  exists us, undo_stack (cm_execute g cm c).2 = us ++ [(cmd_execute g c).2] /\
             redo_stack (cm_execute g cm c).2 = [] /\
             max_stack_size (cm_execute g cm c).2 = max_stack_size cm /\
             (cm_execute g cm c).1 = (cmd_execute g c).1.
Proof.
  intros Hmax. unfold cm_execute. destruct (cmd_execute g c) as [g1 c1]. cbn beta iota zeta.
  case_bool_decide as Hlt.
  - destruct (undo_stack cm) as [|a l].
    + cbn in Hlt. lia.
    + by exists l.
  - by eexists.
Qed.

(** [graph_wfb] decides [graph_wf] on concrete graphs. *)
Lemma graph_wfb_sound (g : Graph) : graph_wfb g = true -> graph_wf g.
Proof.
  unfold graph_wfb. rewrite andb_true_iff, !forallb_forall. intros [Hn Hl]. split.
  - intros k n E. specialize (Hn (k, n) (proj1 (list_elem_of_In _ _) (proj2 (elem_of_map_to_list _ _ _) E))).
    cbn [fst snd] in Hn. apply andb_true_iff in Hn as [H1 H2].
    apply bool_decide_eq_true in H1, H2. done.
  - intros k l E. specialize (Hl (k, l) (proj1 (list_elem_of_In _ _) (proj2 (elem_of_map_to_list _ _ _) E))).
    cbn [fst snd] in Hl. apply andb_true_iff in Hl as [H12 H3]. apply andb_true_iff in H12 as [H1 H2].
    apply bool_decide_eq_true in H1, H2. split; [done|split; [done|]].
    destruct (nodes g !! target_id l) as [t|]; [|discriminate].
    apply bool_decide_eq_true in H3. by exists t.
Qed.

Lemma empty_graph_wf : graph_wf (mkGraph ∅ ∅ 16384).
Proof.
  split; intros k x E; cbn [nodes links] in E; by rewrite lookup_empty in E.
Qed.

(** C1 (amended): for a well-formed graph and a command as the editor
    builds it, with a stack bound of at least one, [execute] then [undo]
    succeeds and gives back the graph's links, token limit and node
    fields, the input lists up to order and the dirty flags possibly
    switched on; [redo] then succeeds and gives back the post-execute
    graph with the input lists up to order. *)
Theorem command_undo_redo g cm c :
  graph_wf g -> cmd_pre g c -> (1 <= max_stack_size cm)%Z ->
  let '(g1, cm1) := cm_execute g cm c in
  let '(g2, cm2, ok2) := cm_undo g1 cm1 in
  let '(g3, cm3, ok3) := cm_redo g2 cm2 in
  ok2 = true /\ ok3 = true /\ undo_close g g2 /\ redo_close g1 g3.
Proof.
  intros Hwf Hpre Hmax. pose proof (command_roundtrip g c Hwf Hpre) as H.
  destruct (cm_execute_stack g cm c Hmax) as (us & Hus & Hrs & _ & Hg1).
  destruct (cm_execute g cm c) as [g1 cm1]. cbn [fst snd] in Hus, Hrs, Hg1.
  destruct (cmd_execute g c) as [g1' c1]. cbn [fst snd] in Hus, Hg1. subst g1'.
  unfold cm_undo. rewrite Hus, pop_last_snoc.
  destruct (cmd_undo g1 c1) as [g2 c2]. unfold cm_redo. cbn [redo_stack]. rewrite Hrs.
  cbn [app]. change [c2] with ([] ++ [c2]). rewrite pop_last_snoc.
  destruct (cmd_execute g2 c2) as [g3 c3]. cbn [fst] in H. tauto.
Qed.

Lemma command_undo_redo_witness :
  let c := DeleteNodesCommand [demo_node "B" true ["l1"]]
             [mkLink "A" "B" "l1"; mkLink "B" "C" "l2"] in
  graph_wf chain_graph /\ cmd_pre chain_graph c /\
  (1 <= max_stack_size (mkCommandManager [] [] 50))%Z /\
  let '(g1, cm1) := cm_execute chain_graph (mkCommandManager [] [] 50) c in
  let '(g2, cm2, ok2) := cm_undo g1 cm1 in
  let '(g3, cm3, ok3) := cm_redo g2 cm2 in
  ok2 = true /\ ok3 = true /\ undo_close chain_graph g2 /\ redo_close g1 g3.
Proof.
  cbn zeta.
  assert (W : graph_wf chain_graph) by (apply graph_wfb_sound; vm_compute; reflexivity).
  assert (P : cmd_pre chain_graph (DeleteNodesCommand [demo_node "B" true ["l1"]]
                                     [mkLink "A" "B" "l1"; mkLink "B" "C" "l2"])).
  { split; [apply (bool_decide_unpack _); vm_compute; reflexivity|].
    split; [intros n Hn; apply list_elem_of_singleton in Hn; subst n; reflexivity|].
    split; [apply (bool_decide_unpack _); vm_compute; reflexivity|].
    intros l. split.
    - intros Hl. rewrite !elem_of_cons in Hl.
      destruct Hl as [->|[->|Hl]]; [| |by apply not_elem_of_nil in Hl];
        (split; [reflexivity|unfold touches; cbn; set_solver]).
    - intros [Hl Ht]. apply elem_of_list_to_map_2 in Hl. cbn in Hl.
      rewrite !elem_of_cons in Hl. rewrite !elem_of_cons.
      destruct Hl as [E|[E|Hl]]; [injection E as _ ->; tauto|injection E as _ ->; tauto|].
      by apply not_elem_of_nil in Hl. }
  split; [exact W|split; [exact P|split; [cbn; lia|]]].
  exact (command_undo_redo chain_graph (mkCommandManager [] [] 50) _ W P ltac:(cbn; lia)).
Defined.

(** C1: editing the prompt of a clean node and undoing the edit leaves
    the node dirty: undo does not restore the graph field for field. *)
Lemma edit_prompt_undo_leaves_dirty :
  graph_wf (demo_graph [demo_node "A" false []] []) /\
  cmd_pre (demo_graph [demo_node "A" false []] []) (EditPromptCommand "A" "" "hi") /\
  let '(g1, cm1) := cm_execute (demo_graph [demo_node "A" false []] []) (mkCommandManager [] [] 50)
                                (EditPromptCommand "A" "" "hi") in
  let '(g2, cm2, ok2) := cm_undo g1 cm1 in
  ok2 = true /\
  nodes (demo_graph [demo_node "A" false []] []) !! "A" = Some (demo_node "A" false []) /\
  nodes g2 !! "A" = Some (demo_node "A" true []) /\
  g2 <> demo_graph [demo_node "A" false []] [].
Proof.
  split; [|split].
  - split.
    + intros k n E. cbn [demo_graph nodes fmap list_fmap list_to_map foldr] in E.
      destruct (decide (k = "A")) as [->|Hk].
      * rewrite lookup_insert_eq in E. injection E as <-. split; [done|constructor].
      * rewrite lookup_insert_ne, lookup_empty in E; [discriminate|].
        intros Heq. apply Hk. rewrite <- Heq. reflexivity.
    + intros k l E. cbn [demo_graph links fmap list_fmap list_to_map foldr] in E.
      by rewrite lookup_empty in E.
  - intros n E. vm_compute in E. injection E as <-. reflexivity.
  - split; [reflexivity|split; [vm_compute; reflexivity|split; [vm_compute; reflexivity|]]].
    intros E. apply (f_equal (fun g => nodes g !! "A")) in E. vm_compute in E. discriminate.
Qed.

(* ================================================================== *)
(** * Further properties of the code *)

(** ** CommandManager *)

Lemma trim_undo_spec (fuel : nat) (size : Z) (us : list Command) :
  (length us < fuel)%nat ->
  trim_undo fuel size us =
    if bool_decide (0 <= size)%Z then (drop (length us - Z.to_nat size) us, false)
    else ([], true).
Proof.
  revert fuel. induction us as [|c us IH]; intros fuel Hf; destruct fuel as [|f]; cbn in Hf; try lia.
  - cbn [trim_undo length]. destruct (decide (size < Z.of_nat 0)%Z) as [H1|H1].
    + rewrite (bool_decide_true _ H1), bool_decide_false by lia. reflexivity.
    + rewrite (bool_decide_false _ H1), bool_decide_true by lia. by rewrite drop_nil.
  - cbn [trim_undo]. destruct (decide (size < Z.of_nat (length (c :: us)))%Z) as [H1|H1].
    + rewrite (bool_decide_true _ H1), IH by lia. cbn [length] in H1.
      destruct (decide (0 <= size)%Z) as [H2|H2].
      * rewrite !bool_decide_true by lia.
        replace (length (c :: us) - Z.to_nat size)%nat with (S (length us - Z.to_nat size))
          by (cbn [length]; lia).
        reflexivity.
      * rewrite !bool_decide_false by lia. reflexivity.
    + rewrite (bool_decide_false _ H1), bool_decide_true by (cbn [length] in H1; lia).
      replace (length (c :: us) - Z.to_nat size)%nat with 0%nat by (cbn [length] in H1 |- *; lia).
      reflexivity.
Qed.

(** X1: [set_max_stack_size size] with [size >= 0] keeps the [size] most
    recent commands of the undo stack (all of them when there are fewer)
    and the redo stack; with a negative [size] the trimming loop empties
    the undo stack and then raises [IndexError], the new bound being
    already stored. *)
Theorem set_max_stack_size_trims (cm : CommandManager) (size : Z) :
  set_max_stack_size cm size =
    if bool_decide (0 <= size)%Z then
      (mkCommandManager (drop (length (undo_stack cm) - Z.to_nat size) (undo_stack cm))
         (redo_stack cm) size, false)
    else (mkCommandManager [] (redo_stack cm) size, true).
Proof.
  unfold set_max_stack_size. rewrite trim_undo_spec by lia.
  by case_bool_decide.
Qed.

(** X2: from a state whose undo stack respects a bound [max >= 0],
    [execute] keeps the bound: the undo stack grows by one up to [max]
    commands, the redo stack is emptied, and when [max > 0] the command
    just executed is the next one to undo. *)
Theorem cm_execute_bounded (g : Graph) (cm : CommandManager) (c : Command) :
  (0 <= max_stack_size cm)%Z ->
  (Z.of_nat (length (undo_stack cm)) <= max_stack_size cm)%Z ->
  let cm' := (cm_execute g cm c).2 in
  Z.of_nat (length (undo_stack cm')) =
    Z.min (Z.of_nat (length (undo_stack cm)) + 1) (max_stack_size cm) /\
  can_redo cm' = false /\ max_stack_size cm' = max_stack_size cm /\
  ((0 < max_stack_size cm)%Z -> last (undo_stack cm') = Some (cmd_execute g c).2).
Proof.
  intros H0 Hle. unfold cm_execute. destruct (cmd_execute g c) as [g1 c1].
  cbn [fst snd undo_stack redo_stack max_stack_size]. unfold can_redo. cbn [redo_stack length].
  case_bool_decide as Hlt.
  - destruct (undo_stack cm) as [|a us] eqn:E.
    + rewrite length_app in Hlt. simpl in Hle, Hlt |- *. split; [lia|].
      split; [reflexivity|split; [reflexivity|]]. intros. lia.
    + rewrite length_app in Hlt. simpl app. simpl tail. rewrite length_app.
      cbn [length] in Hle, Hlt |- *.
      split; [lia|split; [reflexivity|split; [reflexivity|]]].
      intros _. rewrite last_snoc. reflexivity.
  - rewrite length_app in Hlt |- *. cbn [length] in Hlt |- *.
    split; [lia|split; [reflexivity|split; [reflexivity|]]].
    intros _. rewrite last_snoc. reflexivity.
Qed.

Lemma cm_execute_bounded_witness :
  let cm := mkCommandManager [AddNodeCommand (demo_node "A" false []);
                              AddNodeCommand (demo_node "B" false [])]
                             [AddNodeCommand (demo_node "D" false [])] 2 in
  let c := AddNodeCommand (demo_node "C" false []) in
  (0 <= max_stack_size cm)%Z /\
  (Z.of_nat (length (undo_stack cm)) <= max_stack_size cm)%Z /\
  let cm' := (cm_execute chain_graph cm c).2 in
  Z.of_nat (length (undo_stack cm')) =
    Z.min (Z.of_nat (length (undo_stack cm)) + 1) (max_stack_size cm) /\
  can_redo cm' = false /\ max_stack_size cm' = max_stack_size cm /\
  ((0 < max_stack_size cm)%Z -> last (undo_stack cm') = Some (cmd_execute chain_graph c).2).
Proof.
  cbn zeta. split; [cbn; lia|split; [cbn; lia|]].
  apply (cm_execute_bounded chain_graph); cbn; lia.
Defined.




(** ** LLMQueueManager *)

Section Assoc.
Context {V : Type}.
Implicit Types (l : list (string * V)) (v : V).

Lemma assoc_set_keys k v l x : x ∈ fst <$> assoc_set k v l -> x = k \/ x ∈ fst <$> l.
Proof.
  induction l as [|[k' v'] l IH]; cbn [assoc_set].
  - rewrite fmap_cons, fmap_nil, list_elem_of_singleton. by left.
  - case_decide as Hk; rewrite !fmap_cons, !elem_of_cons; cbn [fst].
    + tauto.
    + intros [?|Hx]; [tauto|]. destruct (IH Hx); tauto.
Qed.

Lemma assoc_set_vals k v l x : x ∈ snd <$> assoc_set k v l -> x = v \/ x ∈ snd <$> l.
Proof.
  induction l as [|[k' v'] l IH]; cbn [assoc_set].
  - rewrite fmap_cons, fmap_nil, list_elem_of_singleton. by left.
  - case_decide as Hk; rewrite !fmap_cons, !elem_of_cons; cbn [snd].
    + tauto.
    + intros [?|Hx]; [tauto|]. destruct (IH Hx); tauto.
Qed.

Lemma assoc_set_NoDup_keys k v l : NoDup (fst <$> l) -> NoDup (fst <$> assoc_set k v l).
Proof.
  induction l as [|[k' v'] l IH]; cbn [assoc_set].
  - intros _. rewrite fmap_cons, fmap_nil. apply NoDup_singleton.
  - rewrite fmap_cons, NoDup_cons. cbn [fst]. intros [Hn Hd].
    case_decide as Hk; rewrite fmap_cons, NoDup_cons; cbn [fst].
    + subst k'. done.
    + split; [|by apply IH]. intros Hx. destruct (assoc_set_keys _ _ _ _ Hx); [congruence|done].
Qed.

Lemma assoc_set_NoDup_vals k v l :
  NoDup (snd <$> l) -> v ∉ snd <$> l -> NoDup (snd <$> assoc_set k v l).
Proof.
  induction l as [|[k' v'] l IH]; cbn [assoc_set].
  - intros _ _. rewrite fmap_cons, fmap_nil. apply NoDup_singleton.
  - rewrite fmap_cons, NoDup_cons, elem_of_cons. cbn [snd]. intros [Hn Hd] Hv.
    case_decide as Hk; rewrite fmap_cons, NoDup_cons; cbn [snd].
    + split; [tauto|done].
    + split; [|apply IH; tauto]. intros Hx. destruct (assoc_set_vals _ _ _ _ Hx); [|done].
      subst. tauto.
Qed.

Lemma assoc_del_sublist k l : assoc_del k l `sublist_of` l.
Proof.
  induction l as [|[k' v'] l IH]; cbn [assoc_del]; [done|].
  case_decide; [by apply sublist_cons|by apply sublist_skip].
Qed.

Lemma assoc_lookup_set_eq k v l : assoc_lookup k (assoc_set k v l) = Some v.
Proof.
  induction l as [|[k' v'] l IH]; cbn [assoc_set assoc_lookup]; [by rewrite decide_True|].
  case_decide; cbn [assoc_lookup]; [by rewrite decide_True|by rewrite decide_False].
Qed.

Lemma assoc_lookup_notin k l : k ∉ fst <$> l -> assoc_lookup k l = None.
Proof.
  induction l as [|[k' v'] l IH]; cbn [assoc_lookup]; [done|].
  rewrite fmap_cons, elem_of_cons. cbn [fst]. intros Hk.
  rewrite decide_False by tauto. apply IH. tauto.
Qed.

Lemma assoc_lookup_del_eq k l : NoDup (fst <$> l) -> assoc_lookup k (assoc_del k l) = None.
Proof.
  induction l as [|[k' v'] l IH]; cbn [assoc_del]; [done|].
  rewrite fmap_cons, NoDup_cons. cbn [fst]. intros [Hn Hd].
  case_decide as Hk.
  - subst k'. by apply assoc_lookup_notin.
  - cbn [assoc_lookup]. rewrite decide_False by done. by apply IH.
Qed.

Lemma assoc_lookup_vals k v l : assoc_lookup k l = Some v -> v ∈ snd <$> l.
Proof.
  induction l as [|[k' v'] l IH]; cbn [assoc_lookup]; [discriminate|].
  rewrite fmap_cons, elem_of_cons. cbn [snd].
  case_decide; [intros [= ->]; by left|intros; right; by apply IH].
Qed.

Lemma assoc_lookup_app_new k v l : assoc_lookup k l = None -> assoc_lookup k (l ++ [(k, v)]) = Some v.
Proof.
  induction l as [|[k' v'] l IH]; cbn [assoc_lookup app].
  - intros _. by rewrite decide_True.
  - case_decide; [discriminate|done].
Qed.

End Assoc.

Lemma find_provider_lookup (p : string) (w : nat) (l : list (string * nat)) :
  NoDup (snd <$> l) -> assoc_lookup p l = Some w -> find_provider w l = Some p.
Proof.
  induction l as [|[k' w'] l IH]; cbn [assoc_lookup find_provider]; [discriminate|].
  rewrite fmap_cons, NoDup_cons. cbn [snd]. intros [Hn Hd].
  case_decide as Hk.
  - intros [= ->]. subst. by rewrite decide_True.
  - intros Hl. rewrite decide_False; [by apply IH|].
    intros ->. apply Hn. by apply (assoc_lookup_vals p).
Qed.

Lemma qn_cons p q qs : qn ((p, q) :: qs) = (task_node <$> q) ++ qn qs.
Proof. reflexivity. Qed.

Lemma qn_app qs qs' : qn (qs ++ qs') = qn qs ++ qn qs'.
Proof. unfold qn. by rewrite fmap_app, concat_app. Qed.

Lemma qn_assoc_set p q q' qs :
  assoc_lookup p qs = Some q ->
  exists pre post, qn qs = pre ++ (task_node <$> q) ++ post /\
                   qn (assoc_set p q' qs) = pre ++ (task_node <$> q') ++ post.
Proof.
  induction qs as [|[p0 q0] qs IH]; cbn [assoc_lookup assoc_set]; [discriminate|].
  case_decide as Hp.
  - intros [= ->]. exists [], (qn qs). by rewrite !qn_cons.
  - intros Hl. destruct (IH Hl) as (pre & post & E1 & E2).
    exists ((task_node <$> q0) ++ pre), post. rewrite !qn_cons, E1, E2.
    by rewrite <- !app_assoc.
Qed.

Lemma existsb_task_node nid (q : list Task) :
  existsb (fun t => bool_decide (task_node t = nid)) q = true <-> nid ∈ task_node <$> q.
Proof.
  induction q as [|t q IH]; cbn [existsb].
  - rewrite fmap_nil, elem_of_nil. split; [discriminate|done].
  - rewrite orb_true_iff, IH, fmap_cons, elem_of_cons, bool_decide_eq_true.
    split; intros [?|?]; auto.
Qed.

Lemma existsb_queued nid qs :
  existsb (fun pq => existsb (fun t => bool_decide (task_node t = nid)) pq.2) qs = true <->
  nid ∈ qn qs.
Proof.
  induction qs as [|[p q] qs IH]; cbn [existsb].
  - unfold qn. cbn. rewrite elem_of_nil. split; [discriminate|done].
  - rewrite orb_true_iff, IH, qn_cons, elem_of_app, existsb_task_node. reflexivity.
Qed.

Lemma running_or_queued_iff st nid :
  is_node_running_or_queued st nid = true <->
  is_Some (worker_map st !! nid) \/ nid ∈ queued_nodes st.
Proof.
  unfold is_node_running_or_queued. rewrite orb_true_iff, bool_decide_eq_true.
  change (queued_nodes st) with (qn (queues st)). by rewrite existsb_queued.
Qed.

Lemma get_queue_spec st p :
  assoc_lookup p (queues (get_queue st p).1) = Some (get_queue st p).2 /\
  qn (queues (get_queue st p).1) = qn (queues st) /\
  active_workers (get_queue st p).1 = active_workers st /\
  worker_map (get_queue st p).1 = worker_map st /\
  workers (get_queue st p).1 = workers st /\
  next_worker (get_queue st p).1 = next_worker st /\
  emitted (get_queue st p).1 = emitted st.
Proof.
  unfold get_queue. destruct (assoc_lookup p (queues st)) as [q|] eqn:E; cbn [fst snd queues];
    [done|].
  rewrite assoc_lookup_app_new by done. rewrite qn_app. unfold qn at 2. cbn.
  by rewrite app_nil_r.
Qed.

Lemma inv_queue_change st qs' :
  sched_inv st ->
  qn qs' `sublist_of` qn (queues st) ->
  sched_inv (mkScheduler qs' (active_workers st) (worker_map st) (workers st)
               (next_worker st) (emitted st)).
Proof.
  intros (H1 & H2 & H3 & H4 & H5) Hs. unfold sched_inv, queued_nodes in *. cbn.
  change (concat ((fun pq : string * list Task => task_node <$> pq.2) <$> qs')) with (qn qs').
  change (concat ((fun pq : string * list Task => task_node <$> pq.2) <$> queues st))
    with (qn (queues st)) in *.
  split; [done|split; [done|split; [done|split]]].
  - by eapply sublist_NoDup.
  - intros x Hx. apply H5. by eapply elem_of_sublist.
Qed.

Lemma start_worker_inv st nid pr cfg p :
  sched_inv st -> assoc_lookup p (active_workers st) = None ->
  nid ∉ queued_nodes st ->
  sched_inv (start_worker st nid pr cfg p).
Proof.
  intros (H1 & H2 & H3 & H4 & H5) Hp Hq. unfold sched_inv, start_worker. cbn.
  split; [by apply assoc_set_NoDup_keys|].
  split; [apply assoc_set_NoDup_vals; [done|]; intros Hx; specialize (H3 _ Hx); lia|].
  split; [intros w Hw; destruct (assoc_set_vals _ _ _ _ Hw) as [->|Hw']; [lia|];
          specialize (H3 _ Hw'); lia|].
  split; [done|].
  intros x Hx. rewrite lookup_insert_ne; [by apply H5|]. intros ->. done.
Qed.

Lemma start_worker_inv' st nid pr cfg p :
  sched_inv st -> p ∉ fst <$> active_workers st -> nid ∉ queued_nodes st ->
  sched_inv (start_worker st nid pr cfg p).
Proof. intros. apply start_worker_inv; [done| |done]. by apply assoc_lookup_notin. Qed.

Lemma process_next_inv st p :
  sched_inv st -> p ∉ fst <$> active_workers st -> sched_inv (process_next_in_queue st p).
Proof.
  intros Hi Hp. unfold process_next_in_queue.
  destruct (get_queue_spec st p) as (G1 & G2 & G3 & G4 & G5 & G6 & G7).
  destruct (get_queue st p) as [st1 q]. cbn [fst snd] in *.
  assert (Hi1 : sched_inv st1).
  { destruct st1 as [q1 a1 m1 w1 n1 e1]. cbn [queues active_workers worker_map workers
      next_worker emitted] in G2, G3, G4, G5, G6, G7. subst a1 m1 w1 n1 e1.
    apply (inv_queue_change st q1 Hi). rewrite G2. reflexivity. }
  destruct q as [|[[nid pr] cfg] rest]; [done|].
  destruct (qn_assoc_set p _ rest _ G1) as (pre & post & E1 & E2).
  assert (Hsub : qn (assoc_set p rest (queues st1)) `sublist_of` qn (queues st1)).
  { rewrite E1, E2. apply sublist_app; [done|]. apply sublist_app; [|done].
    rewrite fmap_cons. by apply sublist_cons. }
  pose proof (inv_queue_change st1 _ Hi1 Hsub) as Hi2.
  destruct Hi1 as (_ & _ & _ & N1 & _).
  unfold queued_nodes in N1. change (concat _) with (qn (queues st1)) in N1.
  apply start_worker_inv'; [exact Hi2|cbn; by rewrite G3|].
  unfold queued_nodes. cbn [queues set_queue]. change (concat _) with (qn (assoc_set p rest (queues st1))).
  rewrite E2. rewrite E1, fmap_cons in N1. cbn [task_node fst] in N1 |- *.
  intros Hx. apply NoDup_app in N1 as (_ & N1 & N2). apply NoDup_app in N2 as (N2 & N3 & _).
  apply NoDup_cons in N2 as [N2 _]. rewrite !elem_of_app in Hx.
  destruct Hx as [Hx|[Hx|Hx]].
  - apply (N1 _ Hx). rewrite elem_of_app. left. by left.
  - done.
  - apply (N3 nid); [by left|done].
Qed.

Lemma assoc_del_notin {V} (k : string) (l : list (string * V)) :
  NoDup (fst <$> l) -> k ∉ fst <$> assoc_del k l.
Proof.
  induction l as [|[k' v'] l IH]; cbn [assoc_del]; [intros _; rewrite fmap_nil; apply not_elem_of_nil|].
  rewrite fmap_cons, NoDup_cons. cbn [fst]. intros [Hn Hd].
  case_decide as Hk; [by subst|].
  rewrite fmap_cons, elem_of_cons. cbn [fst]. intros [?|?]; [done|by apply IH].
Qed.

Lemma inv_active_del st p :
  sched_inv st ->
  sched_inv (mkScheduler (queues st) (assoc_del p (active_workers st)) (worker_map st)
               (workers st) (next_worker st) (emitted st)).
Proof.
  intros (H1 & H2 & H3 & H4 & H5). unfold sched_inv, queued_nodes in *. cbn.
  pose proof (assoc_del_sublist p (active_workers st)) as Hs.
  split; [eapply sublist_NoDup; [exact H1|by apply fmap_sublist]|].
  split; [eapply sublist_NoDup; [exact H2|by apply fmap_sublist]|].
  split; [|done]. intros w Hw. apply H3. eapply elem_of_sublist; [exact Hw|by apply fmap_sublist].
Qed.

Lemma inv_wmap_delete st nid :
  sched_inv st ->
  sched_inv (mkScheduler (queues st) (active_workers st) (delete nid (worker_map st))
               (workers st) (next_worker st) (emitted st)).
Proof.
  intros (H1 & H2 & H3 & H4 & H5). unfold sched_inv, queued_nodes in *. cbn.
  do 4 (split; [done|]). intros x Hx.
  destruct (decide (x = nid)) as [->|Hne]; [apply lookup_delete_eq|].
  rewrite lookup_delete_ne by done. by apply H5.
Qed.

Lemma inv_workers st ws :
  sched_inv st ->
  sched_inv (mkScheduler (queues st) (active_workers st) (worker_map st) ws
               (next_worker st) (emitted st)).
Proof. done. Qed.

Lemma cleanup_worker_inv st nid : sched_inv st -> sched_inv (cleanup_worker st nid).
Proof.
  intros Hi. unfold cleanup_worker.
  destruct (worker_map st !! nid) as [w|]; [|done].
  pose proof (inv_wmap_delete st nid Hi) as Hi1.
  cbn [active_workers]. destruct (find_provider w (active_workers st)) as [p|]; [|done].
  case_bool_decide; [|done].
  apply process_next_inv.
  - exact (inv_active_del _ p Hi1).
  - cbn. apply assoc_del_notin. apply Hi.
Qed.

Lemma remove_queued_spec nid qs :
  (nid ∉ qn qs -> remove_queued nid qs = qs) /\
  (nid ∈ qn qs -> exists pre post, qn qs = pre ++ nid :: post /\
                                   qn (remove_queued nid qs) = pre ++ post).
Proof.
  induction qs as [|[p q] qs IH]; cbn [remove_queued].
  - split; [done|]. unfold qn. cbn. rewrite elem_of_nil. done.
  - destruct (list_find (fun t => task_node t = nid) q) as [[i t]|] eqn:Ef.
    + apply list_find_Some in Ef as (Hi & Ht & _). split.
      * intros Hn. exfalso. apply Hn. rewrite qn_cons, elem_of_app. left.
        rewrite list_elem_of_fmap. exists t. split; [done|]. by eapply list_elem_of_lookup_2.
      * intros _. exists (task_node <$> take i q), ((task_node <$> drop (S i) q) ++ qn qs).
        assert (Eq : task_node <$> q =
                     (task_node <$> take i q) ++ nid :: (task_node <$> drop (S i) q)).
        { rewrite <- Ht, <- fmap_cons, <- fmap_app. f_equal. symmetry.
          by apply take_drop_middle. }
        rewrite !qn_cons, Eq, delete_take_drop, fmap_app, <- !app_assoc. split; reflexivity.
    + apply list_find_None in Ef.
      assert (Hq : nid ∉ task_node <$> q).
      { rewrite list_elem_of_fmap. intros (t & -> & Ht).
        rewrite Forall_forall in Ef. by apply (Ef t). }
      destruct IH as [IH1 IH2]. split.
      * intros Hn. rewrite IH1; [done|]. intros H. apply Hn. rewrite qn_cons, elem_of_app. by right.
      * intros Hin. rewrite qn_cons, elem_of_app in Hin.
        destruct Hin as [Hin|Hin]; [contradiction|].
        destruct (IH2 Hin) as (pre & post & E1 & E2).
        exists ((task_node <$> q) ++ pre), post. rewrite !qn_cons, E1, E2.
        by rewrite <- !app_assoc.
Qed.

Lemma remove_queued_sublist nid qs : qn (remove_queued nid qs) `sublist_of` qn qs.
Proof.
  destruct (remove_queued_spec nid qs) as [S1 S2].
  destruct (decide (nid ∈ qn qs)) as [Hin|Hn].
  - destruct (S2 Hin) as (pre & post & -> & ->).
    apply sublist_app; [done|]. by apply sublist_cons.
  - by rewrite S1.
Qed.

Lemma cancel_task_inv st nid : sched_inv st -> sched_inv (cancel_task st nid).
Proof.
  intros Hi. unfold cancel_task.
  destruct (find_active st nid (active_workers st)) as [[p w]|].
  - apply process_next_inv.
    + apply (inv_wmap_delete (mkScheduler (queues st) (assoc_del p (active_workers st))
               (worker_map st) (workers (cancel_worker st w)) (next_worker st) (emitted st))).
      apply (inv_workers (mkScheduler (queues st) (assoc_del p (active_workers st))
               (worker_map st) (workers st) (next_worker st) (emitted st))).
      by apply inv_active_del.
    + cbn. apply assoc_del_notin. apply Hi.
  - apply inv_queue_change; [done|]. apply remove_queued_sublist.
Qed.

Lemma submit_task_inv st nid pr cfg : sched_inv st -> sched_inv (submit_task st nid pr cfg).
Proof.
  intros Hi. unfold submit_task.
  destruct (is_node_running_or_queued st nid) eqn:Er; [done|].
  assert (Hn : worker_map st !! nid = None /\ nid ∉ queued_nodes st).
  { split.
    - destruct (worker_map st !! nid) eqn:E; [|done]. exfalso.
      assert (is_node_running_or_queued st nid = true) by (apply running_or_queued_iff; left; by rewrite E).
      congruence.
    - intros Hq. assert (is_node_running_or_queued st nid = true)
        by (apply running_or_queued_iff; by right). congruence. }
  destruct Hn as [Hw Hq].
  destruct (assoc_lookup (provider cfg) (active_workers st)) eqn:Ea.
  - destruct (get_queue_spec st (provider cfg)) as (G1 & G2 & G3 & G4 & G5 & G6 & G7).
    destruct (get_queue st (provider cfg)) as [st1 q]. cbn [fst snd] in *.
    destruct (qn_assoc_set _ _ (q ++ [(nid, pr, cfg)]) _ G1) as (pre & post & E1 & E2).
    destruct Hi as (H1 & H2 & H3 & H4 & H5).
    unfold queued_nodes in H4, H5, Hq. change (concat _) with (qn (queues st)) in H4, H5, Hq.
    rewrite <- G2, E1 in H4, H5, Hq.
    unfold sched_inv, queued_nodes. cbn. rewrite G3, G4, G6.
    change (concat _) with (qn (assoc_set (provider cfg) (q ++ [(nid, pr, cfg)]) (queues st1))).
    rewrite E2, fmap_app, fmap_cons, fmap_nil. cbn [task_node fst].
    do 3 (split; [done|]). split.
    + assert (P : pre ++ ((task_node <$> q) ++ [nid]) ++ post ≡ₚ
                  nid :: pre ++ (task_node <$> q) ++ post) by solve_Permutation.
      rewrite P. apply NoDup_cons. split; [done|done].
    + intros x Hx. rewrite !elem_of_app, list_elem_of_singleton in Hx.
      destruct (decide (x = nid)) as [->|Hne]; [done|].
      apply H5. rewrite !elem_of_app. tauto.
  - apply start_worker_inv; [done|done|done].
Qed.

Lemma cancel_workers_next (l : list (string * nat)) (acc : Scheduler) :
  next_worker (foldl (fun acc pw => cancel_worker acc pw.2) acc l) = next_worker acc.
Proof. revert acc. induction l as [|pw l IH]; intros acc; cbn [foldl]; [done|]. by rewrite IH. Qed.

Lemma shutdown_inv st : sched_inv st -> sched_inv (shutdown st).
Proof.
  intros (H1 & H2 & H3 & H4 & H5). unfold shutdown.
  set (acc := mkScheduler [] (active_workers st) (worker_map st) (workers st)
                (next_worker st) (emitted st)).
  destruct (cancel_workers_fold (active_workers st) acc) as (E1 & E2 & E3).
  pose proof (cancel_workers_next (active_workers st) acc) as E4.
  unfold sched_inv, queued_nodes. rewrite E1, E2, E4. subst acc. cbn.
  do 3 (split; [done|]). split; [constructor|]. intros x Hx. by apply elem_of_nil in Hx.
Qed.

Lemma sched_reachable_inv st : sched_reachable st -> sched_inv st.
Proof.
  induction 1.
  - unfold sched_inv, queued_nodes. cbn.
    split; [constructor|]. split; [constructor|].
    split; [intros w Hw; by apply elem_of_nil in Hw|]. split; [constructor|].
    intros x Hx. by apply elem_of_nil in Hx.
  - by apply submit_task_inv.
  - by apply cancel_task_inv.
  - unfold on_worker_finished. destruct (worker_map st !! nid); [|done].
    destruct (is_cancelled st n); [done|]. by apply cleanup_worker_inv.
  - unfold on_worker_error. destruct (match worker_map st !! nid with
      | Some w => is_cancelled st w | None => false end); [done|].
    by apply cleanup_worker_inv.
  - by apply shutdown_inv.
Qed.

(** X4: in every state an [LLMQueueManager] reaches through
    [submit_task], [cancel_task], the worker callbacks and [shutdown],
    each provider has at most one active worker, no worker object is
    active for two providers, every active worker was created before the
    next one, and a node is queued at most once and never while it has
    an entry in [worker_map]. *)
Theorem queue_manager_invariant (st : Scheduler) :
  sched_reachable st ->
  NoDup (fst <$> active_workers st) /\ NoDup (snd <$> active_workers st) /\
  (forall w, w ∈ snd <$> active_workers st -> (w < next_worker st)%nat) /\
  NoDup (queued_nodes st) /\
  (forall x, x ∈ queued_nodes st -> worker_map st !! x = None).
Proof. intros H. exact (sched_reachable_inv st H). Qed.

Lemma queue_manager_invariant_witness :
  let st := submit_task (submit_task empty_scheduler "A" "a" ollama_config) "B" "b" ollama_config in
  sched_reachable st /\
  NoDup (fst <$> active_workers st) /\ NoDup (snd <$> active_workers st) /\
  (forall w, w ∈ snd <$> active_workers st -> (w < next_worker st)%nat) /\
  NoDup (queued_nodes st) /\
  (forall x, x ∈ queued_nodes st -> worker_map st !! x = None).
Proof.
  cbn zeta.
  assert (R : sched_reachable (submit_task (submit_task empty_scheduler "A" "a" ollama_config)
                                 "B" "b" ollama_config))
    by (apply sr_submit, sr_submit, sr_init).
  split; [exact R|]. exact (queue_manager_invariant _ R).
Defined.

Lemma process_next_wmap st p x :
  x ∉ qn (queues st) ->
  worker_map (process_next_in_queue st p) !! x = worker_map st !! x.
Proof.
  intros Hx. unfold process_next_in_queue.
  destruct (get_queue_spec st p) as (G1 & G2 & G3 & G4 & G5 & G6 & G7).
  destruct (get_queue st p) as [st1 q]. cbn [fst snd] in *.
  destruct q as [|[[nid pr] cfg] rest]; [by rewrite G4|].
  unfold start_worker, set_queue. cbn [worker_map]. rewrite lookup_insert_ne; [by rewrite G4|].
  intros ->. apply Hx. rewrite <- G2.
  destruct (qn_assoc_set p _ [] _ G1) as (pre & post & E1 & _).
  rewrite E1, fmap_cons. cbn [task_node fst]. rewrite !elem_of_app, elem_of_cons. tauto.
Qed.

(** X5: when the worker of node [nid], the active worker of a provider
    [p], reports its result and was not cancelled, [task_finished] is
    emitted and the node leaves [worker_map]. For a non-empty provider
    name the provider's queue is served first in, first out: its first
    task starts on a new worker that becomes the provider's active
    worker, and the queue keeps the rest; with an empty queue the
    provider is left without an active worker. For the provider [""]
    ([if provider_found:] is false) the worker stays the provider's
    active worker and its queue is not served. *)
Theorem finished_promotes_next (st : Scheduler) (nid r p : string) (w : nat) :
  sched_reachable st -> worker_map st !! nid = Some w -> is_cancelled st w = false ->
  assoc_lookup p (active_workers st) = Some w ->
  let '(st', out) := on_worker_finished st nid r in
  out = [task_finished nid r] /\ worker_map st' !! nid = None /\
  if decide (p = "") then
    active_workers st' = active_workers st /\ queues st' = queues st /\ emitted st' = emitted st
  else
  match assoc_lookup p (queues st) with
  | Some ((nid', pr, cfg) :: rest) =>
      assoc_lookup p (active_workers st') = Some (next_worker st) /\
      workers st' !! next_worker st = Some (mkWorker nid' pr cfg false) /\
      worker_map st' !! nid' = Some (next_worker st) /\
      assoc_lookup p (queues st') = Some rest /\
      emitted st' = emitted st ++ [task_started nid']
  | _ => assoc_lookup p (active_workers st') = None /\ emitted st' = emitted st
  end.
Proof.
  intros Hr Hw Hc Ha. destruct (sched_reachable_inv st Hr) as (H1 & H2 & H3 & H4 & H5).
  unfold on_worker_finished. rewrite Hw, Hc. unfold cleanup_worker. rewrite Hw.
  cbn [active_workers]. rewrite (find_provider_lookup p w _ H2 Ha).
  destruct (decide (p = "")) as [Hp|Hp].
  { rewrite bool_decide_false by tauto. cbn [worker_map active_workers queues emitted].
    split; [done|]. split; [apply lookup_delete_eq|done]. }
  rewrite bool_decide_true by done.
  unfold process_next_in_queue, get_queue.
  cbn [queues active_workers worker_map workers next_worker emitted].
  destruct (assoc_lookup p (queues st)) as [q|] eqn:Eq.
  - destruct q as [|[[nid' pr] cfg] rest].
    + cbn [active_workers worker_map emitted].
      split; [done|]. split; [apply lookup_delete_eq|]. split; [by apply assoc_lookup_del_eq|done].
    + assert (Hne : nid <> nid').
      { intros <-. rewrite (H5 nid) in Hw; [discriminate|]. unfold queued_nodes.
        change (concat _) with (qn (queues st)).
        destruct (qn_assoc_set p _ [] _ Eq) as (pre & post & E1 & _).
        rewrite E1, fmap_cons. cbn [task_node fst]. rewrite !elem_of_app, elem_of_cons. tauto. }
      unfold start_worker, set_queue.
      cbn [queues active_workers worker_map workers next_worker emitted].
      split; [done|]. split; [rewrite lookup_insert_ne by done; apply lookup_delete_eq|].
      split; [apply assoc_lookup_set_eq|]. split; [apply lookup_insert_eq|].
      split; [apply lookup_insert_eq|]. split; [apply assoc_lookup_set_eq|done].
  - cbn [active_workers worker_map emitted].
    split; [done|]. split; [apply lookup_delete_eq|]. split; [by apply assoc_lookup_del_eq|done].
Qed.

Lemma finished_promotes_next_witness :
  let st := submit_task (submit_task empty_scheduler "A" "a" ollama_config) "B" "b" ollama_config in
  sched_reachable st /\ worker_map st !! "A" = Some 0%nat /\ is_cancelled st 0 = false /\
  assoc_lookup "Ollama" (active_workers st) = Some 0%nat /\
  let '(st', out) := on_worker_finished st "A" "done" in
  out = [task_finished "A" "done"] /\ worker_map st' !! "A" = None /\
  if decide ("Ollama" = "") then
    active_workers st' = active_workers st /\ queues st' = queues st /\ emitted st' = emitted st
  else
  match assoc_lookup "Ollama" (queues st) with
  | Some ((nid', pr, cfg) :: rest) =>
      assoc_lookup "Ollama" (active_workers st') = Some (next_worker st) /\
      workers st' !! next_worker st = Some (mkWorker nid' pr cfg false) /\
      worker_map st' !! nid' = Some (next_worker st) /\
      assoc_lookup "Ollama" (queues st') = Some rest /\
      emitted st' = emitted st ++ [task_started nid']
  | _ => assoc_lookup "Ollama" (active_workers st') = None /\ emitted st' = emitted st
  end.
Proof.
  cbn zeta.
  assert (R : sched_reachable (submit_task (submit_task empty_scheduler "A" "a" ollama_config)
                                 "B" "b" ollama_config))
    by (apply sr_submit, sr_submit, sr_init).
  split; [exact R|]. split; [reflexivity|]. split; [reflexivity|]. split; [reflexivity|].
  apply (finished_promotes_next _ "A" "done" "Ollama" 0 R); reflexivity.
Defined.

(** X6: once [cancel_task] has cancelled the running task of a node, a
    late [finished] signal of its worker is ignored (no signal, no state
    change), but a late [error] signal still emits [task_failed] for the
    node, and changes nothing else. *)
Theorem late_signals_after_cancel (st : Scheduler) (nid r m : string) :
  sched_reachable st -> is_Some (worker_map st !! nid) ->
  is_Some (find_active st nid (active_workers st)) ->
  let st' := cancel_task st nid in
  on_worker_finished st' nid r = (st', []) /\ on_worker_error st' nid m = (st', [task_failed nid m]).
Proof.
  intros Hr [w Hw] [[p w'] Hf]. destruct (sched_reachable_inv st Hr) as (H1 & H2 & H3 & H4 & H5).
  assert (Hn : worker_map (cancel_task st nid) !! nid = None).
  { unfold cancel_task. rewrite Hf. rewrite process_next_wmap.
    - cbn. apply lookup_delete_eq.
    - cbn. intros Hq. unfold queued_nodes in H5. rewrite (H5 nid Hq) in Hw. discriminate. }
  cbn zeta. unfold on_worker_finished, on_worker_error. rewrite Hn.
  split; [done|]. unfold cleanup_worker. rewrite Hn. reflexivity.
Qed.

Lemma late_signals_after_cancel_witness :
  let st := submit_task empty_scheduler "A" "a" ollama_config in
  sched_reachable st /\ is_Some (worker_map st !! "A") /\
  is_Some (find_active st "A" (active_workers st)) /\
  on_worker_finished (cancel_task st "A") "A" "late" = (cancel_task st "A", []) /\
  on_worker_error (cancel_task st "A") "A" "boom" =
    (cancel_task st "A", [task_failed "A" "boom"]).
Proof.
  cbn zeta.
  assert (R : sched_reachable (submit_task empty_scheduler "A" "a" ollama_config))
    by (apply sr_submit, sr_init).
  assert (W : is_Some (worker_map (submit_task empty_scheduler "A" "a" ollama_config) !! "A"))
    by (eexists; reflexivity).
  assert (F : is_Some (find_active (submit_task empty_scheduler "A" "a" ollama_config) "A"
                  (active_workers (submit_task empty_scheduler "A" "a" ollama_config))))
    by (eexists; reflexivity).
  split; [exact R|split; [exact W|split; [exact F|]]].
  exact (late_signals_after_cancel _ "A" "late" "boom" R W F).
Defined.

(** X7: after [submit_task] the node is running or queued, whatever the
    state was; submitting a node that is already running or queued
    changes nothing (no signal is emitted). *)
Theorem submit_task_running_or_queued (st : Scheduler) (nid pr : string) (cfg : NodeConfig) :
  is_node_running_or_queued (submit_task st nid pr cfg) nid = true /\
  (is_node_running_or_queued st nid = true -> submit_task st nid pr cfg = st).
Proof.
  unfold submit_task. destruct (is_node_running_or_queued st nid) eqn:E; [done|].
  split; [|discriminate]. apply running_or_queued_iff.
  destruct (assoc_lookup (provider cfg) (active_workers st)) eqn:Ea.
  - destruct (get_queue_spec st (provider cfg)) as (G1 & _).
    destruct (get_queue st (provider cfg)) as [st1 q]. cbn [fst snd] in *.
    right. unfold queued_nodes, set_queue. cbn [queues].
    change (concat _) with (qn (assoc_set (provider cfg) (q ++ [(nid, pr, cfg)]) (queues st1))).
    destruct (qn_assoc_set _ _ (q ++ [(nid, pr, cfg)]) _ G1) as (pre & post & _ & E2).
    rewrite E2, fmap_app, fmap_cons, fmap_nil. cbn [task_node fst].
    rewrite !elem_of_app, list_elem_of_singleton. tauto.
  - left. unfold start_worker. cbn [worker_map]. rewrite lookup_insert_eq. by eexists.
Qed.

(** X8: [cancel_task] on a node that only waits in a queue (it has no
    worker, and no active worker runs it) removes it from the queues:
    the node is then neither running nor queued, the other queued nodes
    stay, and the active workers and [worker_map] are left alone. *)
Theorem cancel_queued_node (st : Scheduler) (nid : string) :
  sched_reachable st -> worker_map st !! nid = None ->
  find_active st nid (active_workers st) = None ->
  let st' := cancel_task st nid in
  is_node_running_or_queued st' nid = false /\
  (forall x, x ∈ queued_nodes st' <-> x ∈ queued_nodes st /\ x <> nid) /\
  active_workers st' = active_workers st /\ worker_map st' = worker_map st.
Proof.
  intros Hr Hw Hf. destruct (sched_reachable_inv st Hr) as (H1 & H2 & H3 & H4 & H5).
  cbn zeta. unfold cancel_task. rewrite Hf.
  unfold queued_nodes in H4 |- *. cbn [queues active_workers worker_map].
  change (concat ((fun pq : string * list Task => task_node <$> pq.2) <$> queues st))
    with (qn (queues st)) in H4 |- *.
  change (concat _) with (qn (remove_queued nid (queues st))).
  assert (Hq : forall x, x ∈ qn (remove_queued nid (queues st)) <->
                         x ∈ qn (queues st) /\ x <> nid).
  { destruct (remove_queued_spec nid (queues st)) as [S1 S2].
    destruct (decide (nid ∈ qn (queues st))) as [Hin|Hn].
    - destruct (S2 Hin) as (pre & post & E1 & E2). rewrite E2, E1. rewrite E1 in H4.
      apply NoDup_app in H4 as (_ & Hd1 & Hd2). apply NoDup_cons in Hd2 as [Hn2 _].
      intros x. rewrite !elem_of_app, elem_of_cons. split.
      + intros [Hx|Hx]; (split; [tauto|]); intros ->.
        * apply (Hd1 nid Hx). by left.
        * contradiction.
      + intros [[Hx|[Hx|Hx]] Hne]; tauto.
    - rewrite S1 by done. intros x. split; [|tauto].
      intros Hx. split; [done|]. intros ->. contradiction. }
  split; [|split; [exact Hq|split; reflexivity]].
  apply not_true_iff_false. rewrite running_or_queued_iff. cbn [worker_map].
  intros [Hs|Hs].
  - rewrite Hw in Hs. by destruct Hs.
  - unfold queued_nodes in Hs. cbn [queues] in Hs.
    change (concat _) with (qn (remove_queued nid (queues st))) in Hs.
    apply Hq in Hs. tauto.
Qed.

Lemma cancel_queued_node_witness :
  let st := submit_task (submit_task empty_scheduler "A" "a" ollama_config) "B" "b" ollama_config in
  sched_reachable st /\ worker_map st !! "B" = None /\
  find_active st "B" (active_workers st) = None /\
  is_node_running_or_queued (cancel_task st "B") "B" = false.
Proof.
  cbn zeta.
  assert (R : sched_reachable (submit_task (submit_task empty_scheduler "A" "a" ollama_config)
                                 "B" "b" ollama_config))
    by (apply sr_submit, sr_submit, sr_init).
  split; [exact R|]. split; [reflexivity|]. split; [reflexivity|].
  exact (proj1 (cancel_queued_node _ "B" R eq_refl eq_refl)).
Defined.

(** ** ProviderManager.resolve_display_text *)

Lemma rep_default_eq (d cp cm : string) :
  (if decide (cp = "") then "Default" else cp) = "Default" ->
  resolve_effective_provider d cp cm = resolve_effective_provider d "Default" cm.
Proof. intros H. unfold resolve_effective_provider. cbn zeta. rewrite H. reflexivity. Qed.

Lemma rep_nondefault (d cp cm : string) :
  (if decide (cp = "") then "Default" else cp) <> "Default" ->
  resolve_effective_provider d cp cm = (if decide (cp = "") then "Default" else cp).
Proof.
  intros H. unfold resolve_effective_provider. cbn zeta.
  rewrite (bool_decide_false _ H). reflexivity.
Qed.

(** X9: the text shown on a node always starts with the provider that
    [resolve_effective_provider] picks for its configuration (the same
    settings being read), followed by ["/" ^ model] when a model is
    shown; a node with a model shows exactly [provider/model]. *)
Theorem display_text_effective_provider (setting : string -> string -> string)
    (config_provider config_model : string) :
  let eff := resolve_effective_provider (setting "default_provider" "Ollama")
               config_provider config_model in
  (exists dm, resolve_display_text setting config_provider config_model =
                if decide (dm = "") then eff else eff +:+ "/" +:+ dm) /\
  (config_model <> "" ->
     resolve_display_text setting config_provider config_model = eff +:+ "/" +:+ config_model).
Proof.
  cbn zeta. unfold resolve_display_text. cbn zeta.
  set (d := setting "default_provider" "Ollama").
  destruct (decide ((if decide (config_provider = "") then "Default" else config_provider)
                    = "Default")) as [Hd|Hd].
  - rewrite (rep_default_eq _ _ _ Hd), (bool_decide_true _ Hd).
    destruct (decide (config_model = "")) as [Hm|Hm].
    + subst config_model. split; [eexists; reflexivity|done].
    + rewrite (decide_False _ _ Hm). cbn beta iota.
      split; [exists config_model; by rewrite (decide_False _ _ Hm)|done].
  - rewrite (rep_nondefault _ _ _ Hd), (bool_decide_false _ Hd). cbn beta iota.
    split; [exists config_model; reflexivity|].
    intros Hm. rewrite (decide_False _ _ Hm). reflexivity.
Qed.

(** ** Graph.generate_new_node_name *)

Lemma string_app_inj_l (a b c : string) : a +:+ b = a +:+ c -> b = c.
Proof. induction a as [|x a IH]; cbn; [done|]. intros H. injection H as H. by apply IH. Qed.

Lemma uint_of_zeros (k : nat) (s : string) :
  option_map Nat.of_uint (NilEmpty.uint_of_string (zeros k +:+ s)) =
  option_map Nat.of_uint (NilEmpty.uint_of_string s).
Proof.
  induction k as [|k IH]; [reflexivity|].
  change (zeros (S k) +:+ s) with (String "0" (zeros k +:+ s)).
  cbn [NilEmpty.uint_of_string]. rewrite <- IH.
  destruct (NilEmpty.uint_of_string (zeros k +:+ s)); reflexivity.
Qed.

Lemma pad4_dec (i : nat) : option_map Nat.of_uint (NilZero.uint_of_string (pad4 i)) = Some i.
Proof.
  unfold pad4. pose proof (str_of_nat_dec i) as D.
  destruct (str_of_nat i) as [|c t]; [discriminate|].
  set (m := 4 - String.length (String c t)).
  assert (E : NilZero.uint_of_string (zeros m +:+ String c t) =
              NilEmpty.uint_of_string (zeros m +:+ String c t)) by (destruct m; reflexivity).
  rewrite E, uint_of_zeros. exact D.
Qed.

Lemma test_name_inj (prefix : string) (i j : nat) :
  prefix +:+ "_" +:+ pad4 i = prefix +:+ "_" +:+ pad4 j -> i = j.
Proof.
  intros H. apply string_app_inj_l, (string_app_inj_l "_") in H.
  pose proof (pad4_dec i) as Di. rewrite H, pad4_dec in Di. congruence.
Qed.

Lemma in_node_list (g : Graph) (k : string) (n : Node) :
  nodes g !! k = Some n -> n ∈ snd <$> map_to_list (nodes g).
Proof.
  intros Hk. rewrite list_elem_of_fmap. exists (k, n). split; [done|].
  by apply elem_of_map_to_list.
Qed.

Lemma is_name_unique_spec (g : Graph) (s : string) (ex : option string) :
  s <> "" ->
  is_name_unique g (Some s) ex = true <->
  (forall k n, nodes g !! k = Some n -> Some (node_id n) <> ex -> name n <> s).
Proof.
  intros Hs. destruct s as [|c s']; [done|]. cbn [is_name_unique].
  rewrite forallb_forall. split.
  - intros H k n Hk Hex. specialize (H n).
    rewrite <- list_elem_of_In in H. specialize (H (in_node_list g k n Hk)).
    rewrite decide_False in H by done. apply negb_true_iff, bool_decide_eq_false in H. done.
  - intros H n Hin. apply list_elem_of_In in Hin. apply list_elem_of_fmap in Hin as ([k n'] & -> & Hin).
    apply elem_of_map_to_list in Hin. cbn [snd].
    case_decide; [done|]. apply negb_true_iff, bool_decide_eq_false. by apply (H k).
Qed.

Lemma name_search_some (g : Graph) (prefix : string) (fuel idx : nat) (nm : string) :
  name_search g prefix fuel idx = Some nm ->
  exists i, (idx < i)%nat /\ nm = prefix +:+ "_" +:+ pad4 i /\
            is_name_unique g (Some nm) None = true.
Proof.
  revert idx. induction fuel as [|f IH]; intros idx; cbn [name_search]; [discriminate|].
  destruct (is_name_unique g (Some (prefix +:+ "_" +:+ pad4 (S idx))) None) eqn:E.
  - intros [= <-]. exists (S idx). split; [lia|done].
  - intros H. destruct (IH _ H) as (i & Hi & ? & ?). exists i. split; [lia|done].
Qed.

Lemma name_search_none (g : Graph) (prefix : string) (fuel idx : nat) :
  name_search g prefix fuel idx = None ->
  forall j, (idx < j)%nat -> (j <= idx + fuel)%nat ->
  is_name_unique g (Some (prefix +:+ "_" +:+ pad4 j)) None = false.
Proof.
  revert idx. induction fuel as [|f IH]; intros idx; cbn [name_search]; [intros; lia|].
  destruct (is_name_unique g (Some (prefix +:+ "_" +:+ pad4 (S idx))) None) eqn:E;
    [discriminate|].
  intros H j Hj1 Hj2. destruct (decide (j = S idx)) as [->|Hne]; [done|].
  apply (IH _ H); lia.
Qed.

Lemma test_name_nonempty (prefix : string) (i : nat) : prefix +:+ "_" +:+ pad4 i <> "".
Proof. destruct prefix; discriminate. Qed.

(** The [while True] loop of [generate_new_node_name] and of
    [merge_graph] ends: among [size + 1] distinct candidate names one is
    free. *)
Lemma name_search_total (g : Graph) (prefix : string) (idx : nat) :
  is_Some (name_search g prefix (S (size (nodes g))) idx).
Proof.
  destruct (name_search g prefix (S (size (nodes g))) idx) eqn:E; [by eexists|exfalso].
  set (names := name <$> (snd <$> map_to_list (nodes g))).
  set (L := (fun j => prefix +:+ "_" +:+ pad4 j) <$> seq (S idx) (S (size (nodes g)))).
  assert (HN : NoDup L).
  { apply NoDup_fmap_2_strong; [|apply NoDup_seq]. intros x y _ _. apply test_name_inj. }
  assert (HS : forall x, x ∈ L -> x ∈ names).
  { intros x Hx. apply list_elem_of_fmap in Hx as (j & -> & Hj). apply elem_of_seq in Hj.
    pose proof (name_search_none g prefix _ idx E j ltac:(lia) ltac:(lia)) as Hf.
    destruct (decide ((prefix +:+ "_" +:+ pad4 j) ∈ names)) as [Hin|Hout]; [done|].
    exfalso. assert (Ht : is_name_unique g (Some (prefix +:+ "_" +:+ pad4 j)) None = true).
    { apply is_name_unique_spec; [apply test_name_nonempty|]. intros k n Hk _ Hn.
      apply Hout. subst names. rewrite <- Hn. apply list_elem_of_fmap. exists n.
      split; [done|]. exact (in_node_list g k n Hk). }
    congruence. }
  pose proof (submseteq_length _ _ (NoDup_submseteq _ _ HN HS)) as Hl.
  subst L names. rewrite !length_fmap, length_seq, length_map_to_list in Hl. lia.
Qed.

Lemma base_index_empty (base : string) : base_index base "" = None.
Proof. reflexivity. Qed.

Lemma fold_max_bound (base : string) (L : list Node) (m : nat) :
  let F := fun m n =>
             if decide (name n = "") then m
             else match base_index base (name n) with
                  | Some i => Nat.max m i
                  | None => m
                  end in
  (m <= foldl F m L)%nat /\
  (forall n j, n ∈ L -> base_index base (name n) = Some j -> (j <= foldl F m L)%nat).
Proof.
  cbn zeta. revert m. induction L as [|n L IH]; intros m; cbn [foldl].
  - split; [lia|]. intros n j Hn. by apply elem_of_nil in Hn.
  - match goal with |- context [foldl ?F ?a L] => destruct (IH a) as [I1 I2] end.
    assert (Hm : (m <= (if decide (name n = "") then m
                        else match base_index base (name n) with
                             | Some i => Nat.max m i | None => m end))%nat).
    { case_decide; [lia|]. destruct (base_index base (name n)); lia. }
    split; [lia|]. intros n' j Hn' Hj. apply elem_of_cons in Hn' as [->|Hn'].
    + enough ((j <= (if decide (name n = "") then m
                     else match base_index base (name n) with
                          | Some i => Nat.max m i | None => m end))%nat) by lia.
      case_decide as He; [rewrite He, base_index_empty in Hj; discriminate|].
      rewrite Hj. lia.
    + by apply (I2 n').
Qed.

(** X10: for a base name of word characters (the callers use ["Chat"]),
    [generate_new_node_name] always returns (its loop ends) a name
    [base_dddd] that no node of the graph bears, and its index is larger
    than the index of every existing name [base_dddd]. *)
Theorem generate_new_node_name_fresh (g : Graph) (base : string) :
  forallb is_word_char (String.list_ascii_of_string base) = true ->
  exists nm i, generate_new_node_name g base = Some nm /\
    nm = base +:+ "_" +:+ pad4 i /\
    (forall k n, nodes g !! k = Some n -> name n <> nm) /\
    (forall k n j, nodes g !! k = Some n -> base_index base (name n) = Some j -> (j < i)%nat).
Proof.
  intros _. unfold generate_new_node_name.
  destruct (fold_max_bound base (snd <$> map_to_list (nodes g)) 0) as [_ B].
  cbn zeta in B.
  match goal with |- context [name_search g base _ ?mx] =>
    destruct (name_search_total g base mx) as [nm E]; rewrite E;
    destruct (name_search_some g base _ mx nm E) as (i & Hi & Hnm & Hu) end.
  exists nm, i. split; [done|]. split; [done|]. split.
  - intros k n Hk. apply (proj1 (is_name_unique_spec g nm None ltac:(subst; apply test_name_nonempty)) Hu k n Hk).
    discriminate.
  - intros k n j Hk Hj. specialize (B n j (in_node_list g k n Hk) Hj). lia.
Qed.

Lemma generate_new_node_name_fresh_witness :
  forallb is_word_char (String.list_ascii_of_string "Chat") = true /\
  exists nm i, generate_new_node_name chain_graph "Chat" = Some nm /\
    nm = "Chat" +:+ "_" +:+ pad4 i /\
    (forall k n, nodes chain_graph !! k = Some n -> name n <> nm) /\
    (forall k n j, nodes chain_graph !! k = Some n ->
       base_index "Chat" (name n) = Some j -> (j < i)%nat).
Proof.
  split; [reflexivity|]. apply (generate_new_node_name_fresh chain_graph "Chat"). reflexivity.
Defined.

(** ** Well-formed graphs: [graph_wf] under the graph operations *)

(** A graph whose nodes change as [nodes_track] describes is well formed
    when its links are, read against the old nodes. *)
Lemma wf_from_track e f g g' :
  nodes_track e f g g' ->
  (forall k m, nodes g !! k = Some m -> node_id m = k /\ NoDup (f k (input_links m))) ->
  (forall y l, links g' !! y = Some l ->
     link_id l = y /\ is_Some (nodes g !! source_id l) /\
     exists t, nodes g !! target_id l = Some t /\ y ∈ f (target_id l) (input_links t)) ->
  graph_wf g'.
Proof.
  intros HT Hn Hl. split.
  - intros k n' E'. destruct (track_lookup _ _ _ _ _ _ HT E') as (m & Em & Hs & _ & Hi).
    destruct (Hn k m Em) as [Hid Hnd]. rewrite (strip_node_id _ _ Hs), Hi. by split.
  - intros y l El. destruct (Hl y l El) as (Hid & Hs & t & Et & Hy). split; [done|split].
    + by apply (track_is_Some _ _ _ _ _ HT).
    + specialize (HT (target_id l)). rewrite Et in HT.
      destruct (nodes g' !! target_id l) as [t'|]; unfold opt_rel in HT; [|done].
      destruct HT as (_ & _ & Hi). exists t'. by rewrite Hi.
Qed.

Lemma mark_dirty_wf (g : Graph) (x : string) : graph_wf g -> graph_wf (mark_dirty g x).
Proof.
  intros [Wn Wl]. destruct (mark_dirty_raised g x) as (HL & _ & _).
  apply (wf_from_track _ _ _ _ (raised_track _ _ (mark_dirty_raised g x))).
  - exact Wn.
  - intros y l El. rewrite HL in El. exact (Wl y l El).
Qed.

Lemma attach_link_wf (g : Graph) (l : Link) :
  graph_wf g -> is_Some (nodes g !! source_id l) -> is_Some (nodes g !! target_id l) ->
  graph_wf (attach_link g l).
Proof.
  intros [Wn Wl] Hs [t Et]. destruct (attach_link_spec g l) as (HL & _ & HT).
  apply (wf_from_track _ _ _ _ HT).
  - intros k m Em. destruct (Wn k m Em) as [Hid Hnd]. split; [done|].
    exact (proj1 (attach_ids_spec k _ [l] Hnd)).
  - intros y l' El'. rewrite HL in El'. destruct (decide (y = link_id l)) as [->|Hne].
    + rewrite lookup_insert_eq in El'. injection El' as <-. split; [done|split; [done|]].
      exists t. split; [done|].
      destruct (attach_ids_spec (target_id l) _ [l] (proj2 (Wn _ t Et))) as [_ Hm].
      apply Hm. right. exists l. split; [by apply list_elem_of_singleton|done].
    + rewrite lookup_insert_ne in El' by congruence.
      destruct (Wl y l' El') as (Hid & Hs' & t' & Et' & Hy).
      split; [done|split; [done|]]. exists t'. split; [done|].
      destruct (attach_ids_spec (target_id l') _ [l] (proj2 (Wn _ t' Et'))) as [_ Hm].
      apply Hm. by left.
Qed.

Lemma attach_link_is_Some (g : Graph) (l : Link) (x : string) :
  is_Some (nodes (attach_link g l) !! x) <-> is_Some (nodes g !! x).
Proof.
  destruct (attach_link_spec g l) as (_ & _ & HT). symmetry. exact (track_is_Some _ _ _ _ _ HT).
Qed.

(** *** Graph.from_dict *)

Lemma load_links_wf (uuid : nat -> string) (ls : list LinkData) (g : Graph)
    (seen : gset string) (idm : gmap string string) (k : nat) :
  graph_wf g -> graph_wf (load_links uuid ls g seen idm k).1.
Proof.
  revert g seen k. induction ls as [|d ls IH]; intros g seen k Hwf; cbn [load_links]; [done|].
  destruct (remap idm (ld_source d)) as [s|], (remap idm (ld_target d)) as [t|]; try by apply IH.
  destruct (bool_decide (is_Some (nodes g !! s))) eqn:Es,
           (bool_decide (is_Some (nodes g !! t))) eqn:Et; cbn [andb]; try by apply IH.
  apply bool_decide_eq_true in Es, Et.
  match goal with |- context [let '(_, _) := ?e in _] => destruct e as [lid0 k1] end.
  match goal with |- context [let '(_, _) := ?e in _] => destruct e as [[lid seen1] k2] end.
  apply IH. by apply attach_link_wf.
Qed.

Lemma load_nodes_loaded (uuid : nat -> string) (ds : list NodeData) (g : Graph)
    (seen : gset string) (idm : gmap string string) (k : nat) :
  nodes_loaded g -> nodes_loaded (load_nodes uuid ds g seen idm k).1.1.1.
Proof.
  revert g seen idm k. induction ds as [|d ds IH]; intros g seen idm k Hg; cbn [load_nodes]; [done|].
  destruct (node_from_dict uuid k d) as [n k1].
  match goal with |- context [let '(_, _) := ?e in _] => destruct e as [[[n1 seen1] idm1] k2] end.
  apply IH. destruct Hg as [HL Hn]. split; [done|].
  intros key m. cbn [add_node set_nodes nodes]. rewrite node_id_set_input_links.
  destruct (decide (key = node_id n1)) as [->|Hne].
  - rewrite lookup_insert_eq. intros [= <-].
    by rewrite node_id_set_input_links, input_links_set_input_links.
  - rewrite lookup_insert_ne by congruence. apply Hn.
Qed.

Lemma nodes_loaded_wf (g : Graph) : nodes_loaded g -> graph_wf g.
Proof.
  intros [HL Hn]. split.
  - intros k n E. destruct (Hn k n E) as [? ->]. split; [done|constructor].
  - intros k l E. rewrite HL, lookup_empty in E. discriminate.
Qed.

(** X12: whatever file is loaded ([Graph.from_dict] on any data, with any
    ids drawn for collisions), the graph is well formed: every node is
    stored under its id, no input list has a repeated id, and every link
    is stored under its id, joins two nodes of the graph and is listed in
    its target's [input_links]. *)
Theorem graph_from_dict_wf (uuid : nat -> string) (data : GraphData) (k : nat) :
  graph_wf (graph_from_dict uuid data k).1.
Proof.
  unfold graph_from_dict. cbn zeta.
  pose proof (load_nodes_loaded uuid (default [] (gd_nodes data))
                (mkGraph ∅ ∅ (default 16384%Z (gd_global_token_limit data))) ∅ ∅ k) as HL.
  destruct (load_nodes uuid (default [] (gd_nodes data))
              (mkGraph ∅ ∅ (default 16384%Z (gd_global_token_limit data))) ∅ ∅ k)
    as [[[g1 seen] idm] k1].
  apply load_links_wf, nodes_loaded_wf, HL. split; [done|].
  intros key n E. cbn [nodes] in E. by rewrite lookup_empty in E.
Qed.

(** *** Graph.remove_node *)

(** X14: on a well-formed graph, [remove_node(x)] leaves a well-formed
    graph without the node [x]: the other nodes stay, and the links kept
    are exactly the links that neither start nor end at [x]. *)
Theorem remove_node_wf (h : Graph) (x : string) :
  graph_wf h ->
  let h' := (remove_node h x).1 in
  graph_wf h' /\ nodes h' !! x = None /\
  (forall k, k <> x -> is_Some (nodes h' !! k) <-> is_Some (nodes h !! k)) /\
  (forall y l, links h' !! y = Some l <->
     links h !! y = Some l /\ source_id l <> x /\ target_id l <> x).
Proof.
  intros [Wn Wl]. cbn zeta.
  destruct (remove_node_spec h x) as (_ & RL & _ & Rx & Rk & _ & _).
  set (h' := (remove_node h x).1) in *.
  assert (Hk : forall k, k <> x -> is_Some (nodes h' !! k) <-> is_Some (nodes h !! k)).
  { intros k Hkx. specialize (Rk k Hkx).
    destruct (nodes h !! k), (nodes h' !! k); unfold opt_rel in Rk; try done;
      split; intros [? Hc]; discriminate || eauto. }
  assert (HLk : forall y l, links h' !! y = Some l <->
                  links h !! y = Some l /\ source_id l <> x /\ target_id l <> x).
  { intros y l. rewrite RL, lookup_filter_untouched.
    destruct (links h !! y) as [l0|]; [|split; [discriminate|intros [? _]; discriminate]].
    case_decide as Ht; rewrite touches_single in Ht; split.
    - discriminate.
    - intros ([= <-] & ? & ?). tauto.
    - intros [= <-]. tauto.
    - intros ([= <-] & _). done. }
  split; [|split; [done|split; [exact Hk|exact HLk]]]. split.
  - intros k n' E'. destruct (decide (k = x)) as [->|Hkx]; [by rewrite Rx in E'|].
    specialize (Rk k Hkx). rewrite E' in Rk.
    destruct (nodes h !! k) as [m|] eqn:Em; unfold opt_rel in Rk; [|done].
    destruct Rk as (Hs & _ & Hnd). destruct (Wn k m Em) as [Hid Hm].
    split; [by rewrite (strip_node_id _ _ Hs)|exact (proj1 (Hnd Hm))].
  - intros y l El. apply HLk in El as (El & Hsx & Htx).
    destruct (Wl y l El) as (Hid & Hs & t & Et & Hy). split; [done|split].
    + by apply Hk.
    + specialize (Rk (target_id l) Htx). rewrite Et in Rk.
      destruct (nodes h' !! target_id l) as [t'|]; unfold opt_rel in Rk; [|done].
      destruct Rk as (_ & _ & Hi). destruct (Hi (proj2 (Wn _ t Et))) as [_ Hm].
      exists t'. split; [done|]. apply Hm. split; [done|].
      intros (l' & El' & _ & Ht'). rewrite El in El'. injection El' as <-.
      apply touches_single in Ht'. tauto.
Qed.

Lemma remove_node_wf_witness :
  graph_wf chain_graph /\
  let h' := (remove_node chain_graph "B").1 in
  graph_wf h' /\ nodes h' !! "B" = None /\
  (forall k, k <> "B" -> is_Some (nodes h' !! k) <-> is_Some (nodes chain_graph !! k)) /\
  (forall y l, links h' !! y = Some l <->
     links chain_graph !! y = Some l /\ source_id l <> "B" /\ target_id l <> "B").
Proof.
  split; [apply graph_wfb_sound; vm_compute; reflexivity|].
  apply remove_node_wf. apply graph_wfb_sound. vm_compute. reflexivity.
Defined.

(** *** Graph.add_link *)

(** X15: on a well-formed graph, [add_link(s, t)] between two nodes, with
    a new id not yet in the target's [input_links], leaves a well-formed
    graph: the link is stored under its id, the id is appended to the
    target's [input_links], and the target is dirty when
    [trigger_dirty] is set. *)
Theorem add_link_wf (uuid : nat -> string) (k : nat) (g : Graph) (s t : string)
    (trigger_dirty : bool) (n : Node) :
  graph_wf g -> is_Some (nodes g !! s) -> nodes g !! t = Some n ->
  uuid k ∉ input_links n ->
  let g' := (add_link uuid k g s t trigger_dirty).1 in
  graph_wf g' /\ links g' = <[uuid k := mkLink s t (uuid k)]> (links g) /\
  (exists n', nodes g' !! t = Some n' /\ input_links n' = input_links n ++ [uuid k]) /\
  (trigger_dirty = true -> dirty_at g' t).
Proof.
  intros Hwf Hs Ht Hfresh. cbn zeta.
  set (g2 := attach_link g (mkLink s t (uuid k))).
  assert (E : (add_link uuid k g s t trigger_dirty).1 =
              if trigger_dirty then mark_dirty g2 t else g2).
  { unfold add_link, g2, attach_link. cbn [nodes set_links link_id target_id]. rewrite Ht.
    rewrite bool_decide_false by done. reflexivity. }
  assert (W2 : graph_wf g2) by (apply attach_link_wf; [done|done|by eexists]).
  assert (L2 : links g2 = <[uuid k := mkLink s t (uuid k)]> (links g))
    by exact (proj1 (attach_link_spec g _)).
  assert (N2 : nodes g2 !! t = Some (set_input_links (input_links n ++ [uuid k]) n)).
  { unfold g2, attach_link. cbn [nodes set_links link_id target_id]. rewrite Ht.
    rewrite bool_decide_false by done. cbn [nodes set_nodes]. apply lookup_insert_eq. }
  rewrite E. destruct trigger_dirty.
  - destruct (mark_dirty_raised g2 t) as (RL & _ & RN). split; [by apply mark_dirty_wf|].
    split; [by rewrite RL|]. split.
    + specialize (RN t). rewrite N2 in RN. destruct RN as [RN|[_ RN]]; rewrite RN;
        eexists; (split; [reflexivity|]);
        rewrite ?input_links_set_is_dirty; apply input_links_set_input_links.
    + intros _. apply mark_dirty_marks. rewrite N2. by eexists.
  - split; [done|split; [done|split; [|done]]]. eexists. split; [exact N2|].
    apply input_links_set_input_links.
Qed.

Lemma add_link_wf_witness :
  graph_wf chain_graph /\ is_Some (nodes chain_graph !! "A") /\
  nodes chain_graph !! "C" = Some (demo_node "C" false ["l2"]) /\
  (demo_uuid 0 ∉ ["l2"]) /\
  (let g' := (add_link demo_uuid 0 chain_graph "A" "C" true).1 in
   graph_wf g' /\ links g' = <[demo_uuid 0 := mkLink "A" "C" (demo_uuid 0)]> (links chain_graph) /\
   (exists n', nodes g' !! "C" = Some n' /\ input_links n' = ["l2"] ++ [demo_uuid 0]) /\
   (true = true -> dirty_at g' "C")).
Proof.
  assert (W : graph_wf chain_graph) by (apply graph_wfb_sound; vm_compute; reflexivity).
  split; [exact W|split; [by eexists|split; [reflexivity|split; [vm_compute; set_solver|]]]].
  apply (add_link_wf demo_uuid 0 chain_graph "A" "C" true (demo_node "C" false ["l2"]) W);
    [by eexists|reflexivity|vm_compute; set_solver].
Defined.

(** *** Graph.to_dict followed by Graph.from_dict *)

Lemma fmap_key_map_to_list {A} (f : A -> string) (m : gmap string A) :
  (forall k v, m !! k = Some v -> f v = k) ->
  f <$> (snd <$> map_to_list m) = fst <$> map_to_list m.
Proof.
  intros H. rewrite <- list_fmap_compose. apply list_fmap_ext. intros i [k v] Hi.
  cbn. apply H. apply elem_of_map_to_list. by eapply list_elem_of_lookup_2.
Qed.

Lemma in_map_values {A} (m : gmap string A) (v : A) :
  v ∈ snd <$> map_to_list m <-> exists k, m !! k = Some v.
Proof.
  rewrite list_elem_of_fmap. split.
  - intros ([k v'] & -> & Hin). apply elem_of_map_to_list in Hin. by exists k.
  - intros [k Hk]. exists (k, v). split; [done|]. by apply elem_of_map_to_list.
Qed.

Lemma foldl_add_node_cleared (g : Graph) (ns : list Node) :
  nodes (foldl add_node g (set_input_links [] <$> ns)) =
    foldl (fun m n => <[node_id n := set_input_links [] n]> m) (nodes g) ns /\
  links (foldl add_node g (set_input_links [] <$> ns)) = links g /\
  global_token_limit (foldl add_node g (set_input_links [] <$> ns)) = global_token_limit g.
Proof.
  revert g. induction ns as [|n ns IH]; intros g; [done|].
  rewrite fmap_cons. cbn [foldl].
  destruct (IH (add_node g (set_input_links [] n))) as (H1 & H2 & H3).
  rewrite H1, H2, H3. cbn [add_node set_nodes nodes links global_token_limit].
  by rewrite node_id_set_input_links.
Qed.

Lemma load_nodes_fresh (uuid : nat -> string) (ns : list Node) (g : Graph)
    (seen : gset string) (idm : gmap string string) (k : nat) :
  NoDup (node_id <$> ns) -> (forall n, n ∈ ns -> node_id n ∉ seen) ->
  (forall x v, idm !! x = Some v -> v = x) ->
  exists seen' idm', load_nodes uuid (node_to_dict <$> ns) g seen idm k =
    (foldl add_node g (set_input_links [] <$> ns), seen', idm', (k + length ns)%nat) /\
    (forall x v, idm' !! x = Some v -> v = x).
Proof.
  revert g seen idm k. induction ns as [|n ns IH]; intros g seen idm k Hnd Hs Hi.
  - exists seen, idm. by rewrite Nat.add_0_r.
  - rewrite fmap_cons in Hnd. apply NoDup_cons in Hnd as [Hn Hnd].
    rewrite fmap_cons. cbn [load_nodes]. rewrite node_from_to_dict.
    rewrite bool_decide_false by (apply Hs; apply elem_of_cons; by left).
    cbn beta iota.
    destruct (IH (add_node g (set_input_links [] n)) ({[node_id n]} ∪ seen)
                (<[node_id n := node_id n]> idm) (S k)) as (seen' & idm' & E & Hi').
    + exact Hnd.
    + intros n' Hn'. rewrite elem_of_union, elem_of_singleton. intros [Heq|Hin].
      * apply Hn. rewrite <- Heq. by apply list_elem_of_fmap_2.
      * apply (Hs n'); [apply elem_of_cons; by right|done].
    + intros x v. destruct (decide (x = node_id n)) as [->|Hne].
      * rewrite lookup_insert_eq. congruence.
      * rewrite lookup_insert_ne by congruence. apply Hi.
    + exists seen', idm'. split; [|done]. rewrite E, fmap_cons. cbn [foldl length].
      by replace (S k + length ns)%nat with (k + S (length ns))%nat by lia.
Qed.

Lemma remap_id (idm : gmap string string) (s : string) :
  (forall x v, idm !! x = Some v -> v = x) -> remap idm (Some s) = Some s.
Proof.
  intros Hi. unfold remap. destruct (idm !! s) as [v|] eqn:E; [|done]. cbn. by rewrite (Hi _ _ E).
Qed.

Lemma load_links_fresh (uuid : nat -> string) (ls : list Link) (g : Graph)
    (seen : gset string) (idm : gmap string string) (k : nat) :
  NoDup (link_id <$> ls) ->
  (forall l, l ∈ ls -> (link_id l ∉ seen) /\ link_id l <> "" /\
     is_Some (nodes g !! source_id l) /\ is_Some (nodes g !! target_id l)) ->
  (forall x v, idm !! x = Some v -> v = x) ->
  load_links uuid ((fun l => mkLinkData (Some (link_id l)) (Some (source_id l)) (Some (target_id l)))
                     <$> ls) g seen idm k = (foldl attach_link g ls, k).
Proof.
  intros Hnd Hls Hi. revert g seen Hls. induction ls as [|l ls IH]; intros g seen Hls; [done|].
  rewrite fmap_cons in Hnd. apply NoDup_cons in Hnd as [Hn Hnd].
  destruct (Hls l ltac:(apply elem_of_cons; by left)) as (Hseen & Hne & Hs & Ht).
  rewrite fmap_cons. cbn [load_links ld_source ld_target ld_id].
  rewrite !remap_id by exact Hi.
  rewrite (bool_decide_true _ Hs), (bool_decide_true _ Ht). cbn [andb].
  rewrite (decide_False _ _ Hne). cbn beta iota.
  rewrite (bool_decide_false _ Hseen). cbn beta iota.
  replace (mkLink (source_id l) (target_id l) (link_id l)) with l by (by destruct l).
  cbn [foldl]. apply IH; [exact Hnd|].
  intros l' Hl'. destruct (Hls l' ltac:(apply elem_of_cons; by right)) as (Hs' & Hne' & Hso & Hta).
  split; [|split; [done|split; by apply attach_link_is_Some]].
  rewrite elem_of_union, elem_of_singleton. intros [Heq|Hin]; [|done].
  apply Hn. rewrite <- Heq. by apply list_elem_of_fmap_2.
Qed.

(** X13: saving a well-formed graph ([Graph.to_dict]) and loading the
    result ([Graph.from_dict]) gives the graph back (same links, token
    limit and node fields, each input list up to order) when the input
    lists list exactly the links into each node and no link id is empty;
    no fresh id is drawn for a link. *)
Theorem graph_to_from_dict (uuid : nat -> string) (g : Graph) (k : nat) :
  graph_wf g ->
  (forall key m y, nodes g !! key = Some m -> y ∈ input_links m ->
     exists l, links g !! y = Some l /\ target_id l = key) ->
  (forall y l, links g !! y = Some l -> y <> "") ->
  redo_close g (graph_from_dict uuid (graph_to_dict g) k).1.
Proof.
  intros [Wn Wl] Hin Hne. unfold graph_from_dict, graph_to_dict.
  cbn [gd_nodes gd_links gd_global_token_limit default]. unfold id. cbn zeta.
  set (NS := snd <$> map_to_list (nodes g)).
  set (LS := snd <$> map_to_list (links g)).
  assert (HNS : NoDup (node_id <$> NS)).
  { unfold NS. rewrite fmap_key_map_to_list; [apply NoDup_fst_map_to_list|].
    intros key v E. exact (proj1 (Wn key v E)). }
  assert (HLS : NoDup (link_id <$> LS)).
  { unfold LS. rewrite fmap_key_map_to_list; [apply NoDup_fst_map_to_list|].
    intros key v E. exact (proj1 (Wl key v E)). }
  destruct (load_nodes_fresh uuid NS (mkGraph ∅ ∅ (global_token_limit g)) ∅ ∅ k HNS
              (fun n _ => not_elem_of_empty _)
              (fun x v H => ltac:(by rewrite lookup_empty in H))) as (seen' & idm' & EN & Hi').
  rewrite EN. cbn beta iota.
  set (g1 := foldl add_node (mkGraph ∅ ∅ (global_token_limit g)) (set_input_links [] <$> NS)).
  destruct (foldl_add_node_cleared (mkGraph ∅ ∅ (global_token_limit g)) NS) as (N1 & L1 & G1).
  fold g1 in N1, L1, G1. cbn [nodes links global_token_limit] in N1, L1, G1.
  assert (Hg1 : forall key, nodes g1 !! key = set_input_links [] <$> nodes g !! key).
  { intros key. rewrite N1. destruct (nodes g !! key) as [m|] eqn:Em.
    - destruct (list_elem_of_lookup_1 NS m (proj2 (in_map_values _ _) (ex_intro _ key Em))) as [i Hi].
      rewrite <- (proj1 (Wn key m Em)). exact (foldl_insert_lookup_in NS ∅ i m HNS Hi).
    - rewrite foldl_insert_lookup_notin; [apply lookup_empty|].
      intros Hk. apply list_elem_of_fmap in Hk as (m & -> & Hm).
      apply in_map_values in Hm as [key' Ek]. rewrite (proj1 (Wn key' m Ek)) in Em. congruence. }
  rewrite load_links_fresh; [|exact HLS| |exact Hi'].
  2:{ intros l Hl. apply in_map_values in Hl as [y El].
      destruct (Wl y l El) as (Hid & [sm Es] & t & Et & _). rewrite Hid.
      split; [apply not_elem_of_empty|split; [exact (Hne y l El)|]].
      rewrite !Hg1, Es, Et. split; by eexists. }
  cbn [fst]. destruct (foldl_attach_link_spec LS g1) as (AL & AG & AT).
  apply (track_redo_close (fun key _ => attach_ids key [] LS)).
  - rewrite AL, L1. apply map_eq. intros y. destruct (links g !! y) as [l|] eqn:El.
    + rewrite <- (proj1 (Wl y l El)). apply foldl_insert_link_in; [exact HLS|].
      apply in_map_values. by exists y.
    + rewrite foldl_insert_link_notin; [apply lookup_empty|].
      intros Hy. apply list_elem_of_fmap in Hy as (l & -> & Hl).
      apply in_map_values in Hl as [y' Ey]. rewrite (proj1 (Wl y' l Ey)) in El. congruence.
  - by rewrite AG, G1.
  - assert (T1 : nodes_track true (fun _ _ => []) g g1).
    { intros key. rewrite Hg1. destruct (nodes g !! key) as [m|]; [|exact I].
      exact (conj (strip_set_input_links [] m)
               (conj (is_dirty_set_input_links [] m) (input_links_set_input_links [] m))). }
    exact (track_trans _ _ _ _ _ _ _ T1 AT).
  - intros key m Em. destruct (Wn key m Em) as [_ Hnd].
    destruct (attach_ids_spec key [] LS (NoDup_nil_2)) as [Hnd' Hm].
    apply NoDup_perm_of_elem; [exact Hnd|exact Hnd'|]. intros y. rewrite Hm. split.
    + intros [Hy|(l & Hl & Ht & <-)]; [by apply elem_of_nil in Hy|].
      apply in_map_values in Hl as [y El]. destruct (Wl y l El) as (Hid & _ & t & Et & Hy).
      rewrite Ht, Em in Et. injection Et as <-. by rewrite Hid.
    + intros Hy. right. destruct (Hin key m y Em Hy) as (l & El & Ht).
      exists l. split; [apply in_map_values; by exists y|split; [done|exact (proj1 (Wl y l El))]].
Qed.

Lemma inputs_exactb_sound (g : Graph) :
  inputs_exactb g = true ->
  forall key m y, nodes g !! key = Some m -> y ∈ input_links m ->
    exists l, links g !! y = Some l /\ target_id l = key.
Proof.
  unfold inputs_exactb. rewrite forallb_forall. intros H key m y Em Hy.
  specialize (H (key, m) (proj1 (list_elem_of_In _ _) (proj2 (elem_of_map_to_list _ _ _) Em))).
  cbn [fst snd] in H. rewrite forallb_forall in H.
  specialize (H y (proj1 (list_elem_of_In _ _) Hy)).
  destruct (links g !! y) as [l|]; [|discriminate]. apply bool_decide_eq_true in H. by exists l.
Qed.

Lemma graph_to_from_dict_witness :
  graph_wf chain_graph /\
  (forall key m y, nodes chain_graph !! key = Some m -> y ∈ input_links m ->
     exists l, links chain_graph !! y = Some l /\ target_id l = key) /\
  (forall y l, links chain_graph !! y = Some l -> y <> "") /\
  redo_close chain_graph (graph_from_dict demo_uuid (graph_to_dict chain_graph) 0).1.
Proof.
  assert (W : graph_wf chain_graph) by (apply graph_wfb_sound; vm_compute; reflexivity).
  assert (I : forall key m y, nodes chain_graph !! key = Some m -> y ∈ input_links m ->
                exists l, links chain_graph !! y = Some l /\ target_id l = key)
    by (apply inputs_exactb_sound; vm_compute; reflexivity).
  assert (N : forall y l, links chain_graph !! y = Some l -> y <> "").
  { intros y l El. destruct W as [_ Wl]. destruct (Wl y l El) as (<- & _).
    revert El. apply (map_Forall_lookup_1 (fun y l => link_id l <> "")).
    apply (bool_decide_unpack _). vm_compute. reflexivity. }
  split; [exact W|split; [exact I|split; [exact N|]]].
  exact (graph_to_from_dict demo_uuid chain_graph 0 W I N).
Defined.

(** ** ContextAssembler._inject_references *)

Lemma string_app_nil_r (s : string) : s +:+ "" = s.
Proof. induction s as [|c s IH]; [reflexivity|exact (f_equal (String c) IH)]. Qed.

Lemma string_of_list_ascii_app (a b : list ascii) :
  String.string_of_list_ascii (a ++ b) =
  String.string_of_list_ascii a +:+ String.string_of_list_ascii b.
Proof. induction a as [|c a IH]; [reflexivity|exact (f_equal (String c) IH)]. Qed.

Lemma list_ascii_of_string_app (a b : string) :
  String.list_ascii_of_string (a +:+ b) =
  String.list_ascii_of_string a ++ String.list_ascii_of_string b.
Proof. induction a as [|c a IH]; [reflexivity|exact (f_equal (cons c) IH)]. Qed.

Lemma sub_refs_go_ext (rep1 rep2 : string -> string) (cur : option (list ascii)) (s : list ascii) :
  (forall k, rep1 k = rep2 k) -> sub_refs_go rep1 cur s = sub_refs_go rep2 cur s.
Proof.
  intros H. revert cur. induction s as [|c s IH]; intros cur; cbn [sub_refs_go].
  - destruct cur as [[|a w]|]; [done|apply H|done].
  - destruct cur as [[|a w]|]; rewrite !IH; [done|by rewrite H|done].
Qed.

(** With [match.group(0)] as the replacement, [re.sub] gives its input
    back; [cur = Some w] stands for the pending text ["@" ^ w]. *)
Lemma sub_refs_go_literal (cur : option (list ascii)) (s : list ascii) :
  sub_refs_go (fun k => String at_sign k) cur s =
  match cur with
  | None => ""
  | Some w => String at_sign (String.string_of_list_ascii w)
  end +:+ String.string_of_list_ascii s.
Proof.
  revert cur. induction s as [|c s IH]; intros cur.
  - destruct cur as [[|a w]|]; cbn [sub_refs_go]; [reflexivity| |reflexivity].
    by rewrite string_app_nil_r.
  - destruct cur as [w|]; cbn [sub_refs_go].
    + destruct (is_word_char c).
      * rewrite IH, string_of_list_ascii_app. cbn [String.string_of_list_ascii].
        change (String at_sign ((String.string_of_list_ascii w +:+ String c "") +:+
                                String.string_of_list_ascii s) =
                String at_sign (String.string_of_list_ascii w +:+
                                String c (String.string_of_list_ascii s))).
        by rewrite <- string_app_assoc.
      * destruct (decide (c = at_sign)) as [->|Hc]; rewrite IH; by destruct w.
    + destruct (decide (c = at_sign)) as [->|Hc]; rewrite IH; reflexivity.
Qed.

Lemma sub_refs_go_no_at (rep : string -> string) (pre s : list ascii) :
  at_sign ∉ pre ->
  sub_refs_go rep None (pre ++ s) = String.string_of_list_ascii pre +:+ sub_refs_go rep None s.
Proof.
  induction pre as [|c pre IH]; intros Hpre; [reflexivity|].
  apply not_elem_of_cons in Hpre as [Hc Hpre].
  cbn [app sub_refs_go]. rewrite decide_False by congruence. rewrite IH by done. reflexivity.
Qed.

Lemma sub_refs_go_word (rep : string -> string) (w key rest : list ascii) :
  forallb is_word_char key = true ->
  sub_refs_go rep (Some w) (key ++ rest) = sub_refs_go rep (Some (w ++ key)) rest.
Proof.
  revert w. induction key as [|c key IH]; intros w Hk; cbn [app].
  - by rewrite app_nil_r.
  - cbn [forallb] in Hk. apply andb_true_iff in Hk as [Hc Hk].
    cbn [sub_refs_go]. rewrite Hc, IH by done. by rewrite <- app_assoc.
Qed.

Lemma sub_refs_go_close (rep : string -> string) (w rest : list ascii) :
  w <> [] ->
  match rest with [] => True | c :: _ => is_word_char c = false end ->
  sub_refs_go rep (Some w) rest = rep (String.string_of_list_ascii w) +:+ sub_refs_go rep None rest.
Proof.
  intros Hw Hr. destruct w as [|a w]; [done|]. destruct rest as [|c rest]; cbn [sub_refs_go].
  - by rewrite string_app_nil_r.
  - by rewrite Hr.
Qed.

(** X16: [_inject_references] leaves the prompt as it is when the node has
    no input nodes (every [@word] is kept literally) or when the prompt
    has no [@]. *)
Theorem inject_references_unchanged (g : Graph) (p : string) (n : Node) :
  get_input_nodes g (node_id n) = [] \/ at_sign ∉ String.list_ascii_of_string p ->
  inject_references g p n = p.
Proof.
  unfold inject_references. intros [H|H].
  - rewrite H. rewrite (sub_refs_go_ext _ (fun k => String at_sign k)) by reflexivity.
    rewrite sub_refs_go_literal. cbn [String.append]. apply String.string_of_list_ascii_of_string.
  - pose proof (sub_refs_go_no_at
                  (fun key => match ref_lookup (get_input_nodes g (node_id n)) key with
                              | Some out => out
                              | None => String at_sign key
                              end) (String.list_ascii_of_string p) [] H) as E.
    rewrite app_nil_r in E. rewrite E. cbn [sub_refs_go].
    rewrite string_app_nil_r. apply String.string_of_list_ascii_of_string.
Qed.

Lemma inject_references_unchanged_witness :
  (get_input_nodes chain_graph "A" = [] \/
   (at_sign ∉ String.list_ascii_of_string ("see " +:+ String at_sign "B"))) /\
  inject_references chain_graph ("see " +:+ String at_sign "B") (demo_node "A" false []) =
  "see " +:+ String at_sign "B".
Proof.
  assert (H : get_input_nodes chain_graph "A" = []) by reflexivity.
  split; [by left|]. apply inject_references_unchanged. by left.
Defined.

(** X17: in [_inject_references], a reference [@key] (a non-empty run of
    word characters of Python's Unicode [\w], [is_word_char], ended by
    the end of the text or by a non-word character) after a text without [@] is replaced by the cached output
    of the input node with id [key] ([ref_map[key]], the last such input
    node) and kept literally when no input node has that id; the rest of
    the prompt is processed in the same way. *)
Theorem inject_references_replaces (g : Graph) (n : Node) (pre key post : string) :
  at_sign ∉ String.list_ascii_of_string pre ->
  key <> "" -> forallb is_word_char (String.list_ascii_of_string key) = true ->
  match post with "" => True | String c _ => is_word_char c = false end ->
  inject_references g (pre +:+ String at_sign key +:+ post) n =
  pre +:+ match ref_lookup (get_input_nodes g (node_id n)) key with
          | Some out => out
          | None => String at_sign key
          end +:+ inject_references g post n.
Proof.
  intros Hpre Hkey Hw Hpost. unfold inject_references.
  set (rep := fun key => match ref_lookup (get_input_nodes g (node_id n)) key with
                         | Some out => out
                         | None => String at_sign key
                         end).
  rewrite !list_ascii_of_string_app. cbn [String.list_ascii_of_string].
  rewrite sub_refs_go_no_at by exact Hpre. rewrite String.string_of_list_ascii_of_string.
  f_equal. cbn [app sub_refs_go]. rewrite decide_True by reflexivity.
  rewrite sub_refs_go_word by exact Hw. cbn [app].
  rewrite sub_refs_go_close.
  - by rewrite String.string_of_list_ascii_of_string.
  - destruct key; [done|discriminate].
  - destruct post; [done|exact Hpost].
Qed.

Lemma inject_references_replaces_witness :
  (at_sign ∉ String.list_ascii_of_string "use ") /\ "A" <> "" /\
  forallb is_word_char (String.list_ascii_of_string "A") = true /\
  is_word_char "."%char = false /\
  inject_references chain_graph ("use " +:+ String at_sign "A" +:+ ".") (demo_node "B" true ["l1"]) =
  "use " +:+ match ref_lookup (get_input_nodes chain_graph "B") "A" with
             | Some out => out
             | None => String at_sign "A"
             end +:+ inject_references chain_graph "." (demo_node "B" true ["l1"]).
Proof.
  assert (H : at_sign ∉ String.list_ascii_of_string "use ") by (vm_compute; set_solver).
  split; [exact H|split; [discriminate|split; [reflexivity|split; [reflexivity|]]]].
  exact (inject_references_replaces chain_graph (demo_node "B" true ["l1"]) "use " "A" "."
           H ltac:(discriminate) eq_refl eq_refl).
Defined.

(** *** Graph.remove_link *)

(** X18: on a well-formed graph, [remove_link(lid)] leaves a well-formed
    graph with the same nodes: the link is gone, and when it was a link
    its target no longer lists [lid] in its [input_links] and is dirty. *)
Theorem remove_link_wf (h : Graph) (lid : string) :
  graph_wf h ->
  let h' := remove_link h lid in
  graph_wf h' /\ links h' = delete lid (links h) /\
  (forall x, is_Some (nodes h' !! x) <-> is_Some (nodes h !! x)) /\
  (forall l, links h !! lid = Some l ->
     exists t', nodes h' !! target_id l = Some t' /\ (lid ∉ input_links t') /\ is_dirty t' = true).
Proof.
  intros [Wn Wl]. cbn zeta. destruct (remove_link_spec h lid) as (RL & _ & RT & RD & _).
  split; [|split; [done|split]].
  - apply (wf_from_track _ _ _ _ RT).
    + intros k m Em. destruct (Wn k m Em) as [Hid Hnd]. split; [done|].
      unfold drop_link. destruct (links h !! lid); [|done].
      case_decide; [by apply NoDup_list_remove|done].
    + intros y l El. rewrite RL in El. destruct (decide (y = lid)) as [->|Hne].
      { by rewrite lookup_delete_eq in El. }
      rewrite lookup_delete_ne in El by congruence.
      destruct (Wl y l El) as (Hid & Hs & t & Et & Hy).
      split; [done|split; [done|]]. exists t. split; [done|].
      unfold drop_link. destruct (links h !! lid); [|done].
      case_decide; [|done]. apply elem_of_list_remove; [exact (proj2 (Wn _ t Et))|done].
  - intros x. symmetry. exact (track_is_Some _ _ _ _ _ RT).
  - intros l El. destruct (Wl lid l El) as (_ & _ & t & Et & _).
    destruct (RD l El ltac:(by eexists)) as (t' & Et' & Hd).
    exists t'. split; [done|split; [|done]].
    destruct (track_lookup _ _ _ _ _ _ RT Et') as (m & Em & _ & _ & Hi).
    rewrite Et in Em. injection Em as <-. rewrite Hi. unfold drop_link. rewrite El.
    rewrite decide_True by reflexivity. apply notin_list_remove. exact (proj2 (Wn _ t Et)).
Qed.

Lemma remove_link_wf_witness :
  graph_wf chain_graph /\
  (let h' := remove_link chain_graph "l1" in
   graph_wf h' /\ links h' = delete "l1" (links chain_graph) /\
   (forall x, is_Some (nodes h' !! x) <-> is_Some (nodes chain_graph !! x)) /\
   (forall l, links chain_graph !! "l1" = Some l ->
      exists t', nodes h' !! target_id l = Some t' /\ ("l1" ∉ input_links t') /\ is_dirty t' = true)).
Proof.
  assert (W : graph_wf chain_graph) by (apply graph_wfb_sound; vm_compute; reflexivity).
  split; [exact W|]. exact (remove_link_wf chain_graph "l1" W).
Defined.
